(** * M2PY / JM_slicer: the STL slicing core

    A shallow embedding of [JM_slicer/b_slice_stl.py] (text mesh loader) and
    [JM_slicer/b_slice__main_V4.py] (plane slicer, path stitcher, scale
    transform, layering driver), with the properties of the specification
    stated and settled over it.

    Modelling conventions.
    - Python floats are modelled as exact rationals [Q]: rounding is
      abstracted away, division by zero raises [ZeroDivisionError] as in
      Python, and [==], [<=], [<], [>] are the boolean tests on [Q].
    - Exceptions are values of [exn]; fallible code lives in [result].
    - Python lists that are aliased and mutated (the segments handled by
      [LineMap] and extended in place by [path_lines]) live in an explicit
      heap, addressed by object identifiers.
    - The iteration order of a Python 2 [dict] is unspecified: the first item
      that [iteritems] yields is chosen by a parameter [pick]. *)

From Stdlib Require Import Ascii String QArith Qround Qabs Lqa.
From stdpp Require Import gmap strings list fin_maps pretty sorting.

Open Scope Q_scope.

(** ** Exceptions and results *)

Inductive exn : Type :=
  | ZeroDivisionError
  | IndexError
  | KeyError (key : string)
  | UnboundLocalError
  | TypeError
  | ValueError_remove                         (* list.remove(x): x not in list *)
  | ValueError_float (text : string)          (* float(text) failed *)
  | ValueError_expected (expected got : string). (* raise ValueError('Expected ..., got ...') *)

Inductive result (A : Type) : Type :=
  | Ok (a : A)
  | Raise (e : exn)
  | OutOfFuel.
Arguments Ok {A} a.
Arguments Raise {A} e.
Arguments OutOfFuel {A}.

#[global] Instance result_ret : MRet result := fun A a => Ok a.
#[global] Instance result_bind : MBind result := fun A B f m =>
  match m with
  | Ok a => f a
  | Raise e => Raise e
  | OutOfFuel => OutOfFuel
  end.

(** ** Numbers *)

Definition Qltb (x y : Q) : bool := negb (Qle_bool y x).

(** Python's true division on floats. *)
Definition pydiv (x y : Q) : result Q :=
  if Qeq_bool y 0 then Raise ZeroDivisionError else Ok (x / y).

(** [min(a, b)] and [max(a, b)]: the first argument is kept unless the second
    is strictly better. *)
Definition pymin (a b : Q) : Q := if Qltb b a then b else a.
Definition pymax (a b : Q) : Q := if Qltb a b then b else a.

(** ** Points, facets, segments *)

Abbreviation Point3 := (Q * Q * Q)%type.
Abbreviation Point2 := (Q * Q)%type.

Definition X3 (p : Point3) : Q := p.1.1.
Definition Y3 (p : Point3) : Q := p.1.2.
Definition Z3 (p : Point3) : Q := p.2.

(** A facet as loaded: a list of points (three for a triangle). *)
Abbreviation Facet := (list Point3).
(** [(maxz, minz, tri)], the tuples built by [z_sort_facets]. *)
Abbreviation IndexedFacet := (Q * Q * Facet)%type.
(** A line (segment, later a path): a Python list of 2D points. *)
Abbreviation Line := (list Point2).

Definition point2_eqb (p q : Point2) : bool :=
  Qeq_bool p.1 q.1 && Qeq_bool p.2 q.2.

Fixpoint line_eqb (l1 l2 : Line) : bool :=
  match l1, l2 with
  | [], [] => true
  | p :: l1', q :: l2' => point2_eqb p q && line_eqb l1' l2'
  | _, _ => false
  end.

(** ** Plane slicer *)

Definition find_line_plane_intersection (a b : Point3) (z : Q) : result Point2 :=
  let dx := X3 a - X3 b in
  let dy := Y3 a - Y3 b in
  let dz := Z3 a - Z3 b in
  let z_z0 := z - Z3 b in
  qx ← pydiv dx dz;
  let xi := z_z0 * qx + X3 b in
  qy ← pydiv dy dz;
  let yi := z_z0 * qy + Y3 b in
  Ok (xi, yi).

Fixpoint tri_above_below_loop (tri : list Point3) (z : Q)
    (above below : list Point3) : list Point3 * list Point3 :=
  match tri with
  | [] => (above, below)
  | point :: tri' =>
      if Qle_bool (Z3 point) z then
        tri_above_below_loop tri' z above (below ++ [point])
      else if Qltb z (Z3 point) then
        tri_above_below_loop tri' z (above ++ [point]) below
      else tri_above_below_loop tri' z above below
  end.

Definition tri_above_below (tri : list Point3) (z : Q) : list Point3 * list Point3 :=
  tri_above_below_loop tri z [] [].

(** ** Quantization keys: [LineMap.key]

    The format string is {0:.10},{1:.10}, applied to the point: each coordinate in Python's general
    format with 10 significant digits, trailing zeros removed and at least one
    digit after the point in fixed notation. *)

(** Number of decimal digits of a positive integer. *)
Definition ndigits (n : Z) : Z := Z.of_nat (String.length (pretty n)).

(** [n / d] rounded to the nearest integer, ties to even. *)
Definition round_half_even (n d : Z) : Z :=
  let q := (n / d)%Z in
  let r := (n mod d)%Z in
  match (2 * r ?= d)%Z with
  | Lt => q
  | Gt => (q + 1)%Z
  | Eq => if Z.even q then q else (q + 1)%Z
  end.

(** [(n / d) * 10 ^ k] as a fraction. *)
Definition scale10 (n d k : Z) : Z * Z :=
  if (0 <=? k)%Z then ((n * 10 ^ k)%Z, d) else (n, (d * 10 ^ (- k))%Z).

(** The [prec] significant digits [m] and the decimal exponent [x] of the
    positive fraction [n / d]: [n / d] is about [m * 10 ^ (x - prec + 1)]. *)
Definition sig_digits (prec : Z) (n d : Z) : Z * Z :=
  let x0 := (ndigits n - ndigits d)%Z in
  let '(n0, d0) := scale10 n d (- x0) in
  let x := if (d0 <=? n0)%Z then x0 else (x0 - 1)%Z in
  let '(n1, d1) := scale10 n d (prec - 1 - x) in
  let m := round_half_even n1 d1 in
  if (m =? 10 ^ prec)%Z then ((10 ^ (prec - 1))%Z, (x + 1)%Z) else (m, x).

Fixpoint strip_zeros_rev (s : string) : string :=
  match s with
  | String "0"%char s' => strip_zeros_rev s'
  | _ => s
  end.

Definition rstrip_zeros (s : string) : string :=
  String.rev (strip_zeros_rev (String.rev s)).

Fixpoint zeros (n : nat) : string :=
  match n with
  | O => ""
  | S n' => String "0"%char (zeros n')
  end.

Definition format_g (prec : Z) (q : Q) : string :=
  if Qeq_bool q 0 then "0.0" else
  let sign := if Qle_bool 0 q then "" else "-" in
  let '(m, x) := sig_digits prec (Z.abs (Qnum q)) (Zpos (Qden q)) in
  let ds := pretty m in
  if ((x <? -4) || (prec - 1 <=? x))%Z then
    let frac := rstrip_zeros (String.substring 1 (String.length ds - 1) ds) in
    sign +:+ String.substring 0 1 ds
      +:+ (if String.eqb frac "" then "" else "." +:+ frac)
      +:+ "e" +:+ (if (x <? 0)%Z then "-" else "+")
      +:+ (if (Z.abs x <? 10)%Z then "0" else "") +:+ pretty (Z.abs x)
  else if (0 <=? x)%Z then
    let ip := Z.to_nat (x + 1) in
    let frac := rstrip_zeros (String.substring ip (String.length ds - ip) ds) in
    sign +:+ String.substring 0 ip ds +:+ "."
      +:+ (if String.eqb frac "" then "0" else frac)
  else
    sign +:+ "0." +:+ zeros (Z.to_nat (- x - 1)) +:+ rstrip_zeros ds.

Definition LineMap_key (point : Point2) : string :=
  format_g 10 point.1 +:+ "," +:+ format_g 10 point.2.

(** ** Plane slicer, continued *)

Fixpoint line_below (a : Point3) (below : list Point3) (z : Q) (line : Line)
    : result Line :=
  match below with
  | [] => Ok line
  | b :: below' =>
      p ← find_line_plane_intersection a b z;
      line_below a below' z (line ++ [p])
  end.

Fixpoint line_above (above below : list Point3) (z : Q) (line : Line)
    : result Line :=
  match above with
  | [] => Ok line
  | a :: above' =>
      line' ← line_below a below z line;
      line_above above' below z line'
  end.

Definition is_nil {A} (l : list A) : bool :=
  match l with [] => true | _ => false end.

Fixpoint slice_loop (facets : list IndexedFacet) (z : Q) (lines : list Line)
    : result (list Line) :=
  match facets with
  | [] => Ok lines
  | (maxz, minz, tri) :: facets' =>
      if Qltb z minz then slice_loop facets' z lines else
      let '(above, below) := tri_above_below tri z in
      if is_nil above || is_nil below then slice_loop facets' z lines else
      line ← line_above above below z [];
      match line with
      | p0 :: p1 :: _ =>
          if negb (String.eqb (LineMap_key p0) (LineMap_key p1))
          then slice_loop facets' z (lines ++ [line])
          else slice_loop facets' z lines
      | _ => Raise IndexError
      end
  end.

Definition slice_shape_at (facets : list IndexedFacet) (z : Q) : result (list Line) :=
  slice_loop facets z [].

(** ** Path stitcher: [LineMap] and [path_lines]

    The lines are Python list objects: [heap] holds their current values,
    indexed by object identifier, and the buckets of [_map] hold identifiers.
    [list.remove] compares by value, [list.pop] takes the last element. *)

Record LineMap : Type := mkLineMap {
  lm_heap : list Line;
  lm_map : gmap string (list nat)
}.

Definition heap_get (heap : list Line) (id : nat) : Line :=
  default [] (heap !! id).

(** [map.setdefault(key, []).append(line)] *)
Definition register (m : gmap string (list nat)) (key : string) (id : nat)
    : gmap string (list nat) :=
  <[key := default [] (m !! key) ++ [id]]> m.

Fixpoint register_points (m : gmap string (list nat)) (id : nat) (line : Line)
    : gmap string (list nat) :=
  match line with
  | [] => m
  | point :: line' => register_points (register m (LineMap_key point) id) id line'
  end.

Fixpoint init_loop (m : gmap string (list nat)) (id : nat) (lines : list Line)
    : gmap string (list nat) :=
  match lines with
  | [] => m
  | line :: lines' => init_loop (register_points m id line) (S id) lines'
  end.

Definition LineMap_init (lines : list Line) : LineMap :=
  {| lm_heap := lines; lm_map := init_loop ∅ 0%nat lines |}.

Definition has_lines (st : LineMap) : bool :=
  bool_decide (lm_map st ≠ ∅).

(** [lines.pop()]: the last element and the rest. *)
Fixpoint list_pop (lines : list nat) : option (nat * list nat) :=
  match lines with
  | [] => None
  | [line] => Some (line, [])
  | l :: lines' =>
      match list_pop lines' with
      | Some (line, rest) => Some (line, l :: rest)
      | None => None
      end
  end.

(** [lines.remove(line)]: drop the first element equal (by value) to [line]. *)
Fixpoint list_remove (heap : list Line) (line : Line) (lines : list nat)
    : option (list nat) :=
  match lines with
  | [] => None
  | l :: lines' =>
      if line_eqb (heap_get heap l) line then Some lines'
      else (l ::.) <$> list_remove heap line lines'
  end.

(** After a bucket was mutated in place: [if len(lines) == 0: del map[key]]. *)
Definition store_bucket (m : gmap string (list nat)) (key : string)
    (lines : list nat) : gmap string (list nat) :=
  if is_nil lines then delete key m else <[key := lines]> m.

(** The [for point in line] loop of [_pop_other_line]. *)
Fixpoint first_other (key : string) (line : Line) : option Point2 :=
  match line with
  | [] => None
  | point :: line' =>
      if String.eqb (LineMap_key point) key then first_other key line'
      else Some point
  end.

Definition _pop_other_line (st : LineMap) (key : string) (line : nat)
    : result (LineMap * Point2) :=
  match first_other key (heap_get (lm_heap st) line) with
  | None => Raise UnboundLocalError
  | Some other_point =>
      let key := LineMap_key other_point in
      match lm_map st !! key with
      | None => Raise (KeyError key)
      | Some lines =>
          match list_remove (lm_heap st) (heap_get (lm_heap st) line) lines with
          | None => Raise ValueError_remove
          | Some lines' =>
              Ok ({| lm_heap := lm_heap st;
                     lm_map := store_bucket (lm_map st) key lines' |},
                  other_point)
          end
      end
  end.

(** [path.append(point)] on the list object [path]. *)
Definition heap_append (st : LineMap) (path : nat) (point : Point2) : LineMap :=
  {| lm_heap := <[path := heap_get (lm_heap st) path ++ [point]]> (lm_heap st);
     lm_map := lm_map st |}.

(** Total number of registrations left in the map. *)
Definition registrations (m : gmap string (list nat)) : nat :=
  map_fold (fun _ lines n => (length lines + n)%nat) 0%nat m.

Section Stitcher.

(** The position, in [map_to_list], of the item a dict iteration yields
    first (taken modulo the number of items). *)
Variable pick : list string -> nat.

Definition iter_first (m : gmap string (list nat)) : option (string * list nat) :=
  let items := map_to_list m in
  items !! (pick items.*1 mod length items)%nat.

Definition take_line (st : LineMap) : result (LineMap * option nat) :=
  match iter_first (lm_map st) with
  | None => Ok (st, None)
  | Some (key, lines) =>
      match list_pop lines with
      | None => Raise IndexError
      | Some (line, lines') =>
          let st1 := {| lm_heap := lm_heap st;
                        lm_map := store_bucket (lm_map st) key lines' |} in
          '(st2, _) ← _pop_other_line st1 key line;
          Ok (st2, Some line)
      end
  end.

Definition next_point (st : LineMap) (point : Point2)
    : result (LineMap * option Point2) :=
  let key := LineMap_key point in
  match lm_map st !! key with
  | None => Ok (st, None)
  | Some lines =>
      match list_pop lines with
      | None => Raise IndexError
      | Some (line, lines') =>
          let st1 := {| lm_heap := lm_heap st;
                        lm_map := store_bucket (lm_map st) key lines' |} in
          '(st2, other_point) ← _pop_other_line st1 key line;
          Ok (st2, Some other_point)
      end
  end.

(** The inner loop: [while point: path.append(point); point = next_point(point)]. *)
Fixpoint extend_path (fuel : nat) (st : LineMap) (path : nat)
    (point : option Point2) : result LineMap :=
  match point with
  | None => Ok st
  | Some p =>
      match fuel with
      | O => OutOfFuel
      | S fuel' =>
          '(st', point') ← next_point (heap_append st path p) p;
          extend_path fuel' st' path point'
      end
  end.

(** One round of the outer loop, up to the moment the path is emitted. *)
Definition build_path (st : LineMap) : result (LineMap * nat) :=
  '(st1, taken) ← take_line st;
  match taken with
  | None => Raise TypeError
  | Some path =>
      match last (heap_get (lm_heap st1) path) with
      | None => Raise IndexError
      | Some end_point =>
          '(st2, point) ← next_point st1 end_point;
          st3 ← extend_path (S (registrations (lm_map st2))) st2 path point;
          Ok (st3, path)
      end
  end.

Fixpoint path_lines_loop (fuel : nat) (st : LineMap) (paths : list nat)
    : result (LineMap * list nat) :=
  if has_lines st then
    match fuel with
    | O => OutOfFuel
    | S fuel' =>
        '(st', path) ← build_path st;
        path_lines_loop fuel' st' (paths ++ [path])
    end
  else Ok (st, paths).

Definition path_lines (lines : list Line) : result (list Line) :=
  let unused := LineMap_init lines in
  '(st, paths) ← path_lines_loop (S (registrations (lm_map unused))) unused [];
  Ok (map (heap_get (lm_heap st)) paths).

End Stitcher.

(** ** Bounds and scale transform *)

Abbreviation Bounds := (Q * Q * Q * Q * Q * Q)%type.

Definition bound_point (acc : Bounds) (point : Point3) : Bounds :=
  let '(minx, maxx, miny, maxy, minz, maxz) := acc in
  (pymin minx (X3 point), pymax maxx (X3 point),
   pymin miny (Y3 point), pymax maxy (Y3 point),
   pymin minz (Z3 point), pymax maxz (Z3 point)).

Definition bounding_cube (facets : list Facet) : Bounds :=
  fold_left (fun acc facet => fold_left bound_point facet acc) facets
    (99999, -99999, 99999, -99999, 99999, -99999).

(** Truth value of a number: [if scale:]. *)
Definition truthy (x : Q) : bool := negb (Qeq_bool x 0).

Definition scale_point (minx miny minz scale : Q) (p : Point3) : Point3 :=
  ((X3 p - minx) * scale, (Y3 p - miny) * scale, (Z3 p - minz) * scale).

Definition scale_to_fit (facets : list Facet) (width height scale : Q)
    : result (Q * Q * Q * Q * list Facet) :=
  let '(minx, maxx, miny, maxy, minz, maxz) := bounding_cube facets in
  let xsize := maxx - minx in
  let ysize := maxy - miny in
  let '(width, height) :=
    if (Qltb height width && Qltb xsize ysize)
       || (Qltb width height && Qltb ysize xsize)
    then (height, width) else (width, height) in
  '(width, height, scale) ←
    (if truthy scale then Ok (xsize * scale, ysize * scale, scale)
     else
       sx ← pydiv width xsize;
       sy ← pydiv height ysize;
       (* sorted((sx, sy), reverse=True) *)
       let '(first, second) := if Qltb sx sy then (sy, sx) else (sx, sy) in
       if Qle_bool (first * xsize) width && Qle_bool (first * ysize) height
       then Ok (width, height, first)
       else Ok (width, height, second));
  let scaled_facets := map (map (scale_point minx miny minz scale)) facets in
  Ok (width, height, 0, (maxz - minz) * scale, scaled_facets).

(** ** Z-ordered facet index *)

(** Python's ordering of tuples and lists: the first differing position decides. *)
Definition point3_ltb (p q : Point3) : bool :=
  if negb (Qeq_bool (X3 p) (X3 q)) then Qltb (X3 p) (X3 q)
  else if negb (Qeq_bool (Y3 p) (Y3 q)) then Qltb (Y3 p) (Y3 q)
  else Qltb (Z3 p) (Z3 q).

Definition point3_eqb (p q : Point3) : bool :=
  Qeq_bool (X3 p) (X3 q) && Qeq_bool (Y3 p) (Y3 q) && Qeq_bool (Z3 p) (Z3 q).

Fixpoint facet_ltb (f g : Facet) : bool :=
  match f, g with
  | [], [] => false
  | [], _ :: _ => true
  | _ :: _, [] => false
  | p :: f', q :: g' => if point3_eqb p q then facet_ltb f' g' else point3_ltb p q
  end.

Definition ifacet_ltb (a b : IndexedFacet) : bool :=
  let '(maxa, mina, fa) := a in
  let '(maxb, minb, fb) := b in
  if negb (Qeq_bool maxa maxb) then Qltb maxa maxb
  else if negb (Qeq_bool mina minb) then Qltb mina minb
  else facet_ltb fa fb.

(** [sorted]: a stable sort, here by insertion. *)
Fixpoint insert_sorted (x : IndexedFacet) (l : list IndexedFacet) : list IndexedFacet :=
  match l with
  | [] => [x]
  | y :: l' => if ifacet_ltb x y then x :: y :: l' else y :: insert_sorted x l'
  end.

Definition sorted (l : list IndexedFacet) : list IndexedFacet :=
  fold_left (fun acc x => insert_sorted x acc) l [].

Definition index_facet (f : Facet) : result IndexedFacet :=
  match f !! 0%nat, f !! 1%nat, f !! 2%nat with
  | Some p0, Some p1, Some p2 =>
      Ok (pymax (pymax (Z3 p0) (Z3 p1)) (Z3 p2),
          pymin (pymin (Z3 p0) (Z3 p1)) (Z3 p2), f)
  | _, _, _ => Raise IndexError
  end.

Fixpoint index_facets (facets : list Facet) : result (list IndexedFacet) :=
  match facets with
  | [] => Ok []
  | f :: facets' =>
      x ← index_facet f;
      xs ← index_facets facets';
      Ok (x :: xs)
  end.

Definition z_sort_facets (facets : list Facet) : result (list IndexedFacet) :=
  maxz_facets ← index_facets facets;
  Ok (sorted maxz_facets).

(** ** Layering driver *)

(** [i = 0; while maxz_facets[i][0] < z: i += 1; maxz_facets = maxz_facets[i:]] *)
Fixpoint prune (maxz_facets : list IndexedFacet) (z : Q) : result (list IndexedFacet) :=
  match maxz_facets with
  | [] => Raise IndexError
  | (maxz, minz, tri) :: rest =>
      if Qltb maxz z then prune rest z else Ok maxz_facets
  end.

(** What the writer was given: the opening arguments and, per call of
    [write_layer_paths], the paths and the layer index (the plane height of the
    call is kept alongside). *)
Record Writer : Type := mkWriter {
  w_width : Q;
  w_height : Q;
  w_layers : Z;
  w_written : list (Q * list Line * nat)
}.

Section Driver.

Variable pick : list string -> nat.

Fixpoint layer_loop (fuel : nat) (maxz_facets : list IndexedFacet)
    (z maxz thickness : Q) (layer : nat)
    (written : list (Q * list Line * nat)) (paths_all : list (list Line))
    : result (list (Q * list Line * nat) * list (list Line)) :=
  if Qle_bool z maxz then
    match fuel with
    | O => OutOfFuel
    | S fuel' =>
        maxz_facets ← prune maxz_facets z;
        lines ← slice_shape_at maxz_facets z;
        paths ← path_lines pick lines;
        layer_loop fuel' maxz_facets (z + thickness) maxz thickness (S layer)
          (written ++ [(z, paths, layer)]) (paths_all ++ [paths])
    end
  else Ok (written, paths_all).

(** The layer count handed to the writer: [math.ceil(maxz - minz / thickness)]. *)
Definition layer_count (minz maxz thickness : Q) : result Z :=
  q ← pydiv minz thickness;
  Ok (Qceiling (maxz - q)).

Definition command_line (fuel : nat) (facets : list Facet)
    (thickness width height scale : Q) : result (Writer * list (list Line)) :=
  '(width, height, minz, maxz, facets) ←
    (if truthy scale then scale_to_fit facets 0 0 scale
     else scale_to_fit facets width height scale);
  maxz_facets ← z_sort_facets facets;
  layers ← layer_count minz maxz thickness;
  '(written, paths_all) ←
    layer_loop fuel maxz_facets minz maxz thickness 1%nat [] [];
  match paths_all with
  | [] => Raise IndexError          (* del paths_all[0] *)
  | _ :: paths_all' =>
      Ok ({| w_width := width; w_height := height; w_layers := layers;
             w_written := written |}, paths_all')
  end.

End Driver.

(** The cube of the scenario: vertices at all combinations of 0 and 10,
    two triangles per face. *)
Definition cube_facets : list Facet :=
  [ [(0, 0, 0); (10, 10, 0); (10, 0, 0)];   [(0, 0, 0); (0, 10, 0); (10, 10, 0)];
    [(0, 0, 10); (10, 0, 10); (10, 10, 10)]; [(0, 0, 10); (10, 10, 10); (0, 10, 10)];
    [(0, 0, 0); (10, 0, 0); (10, 0, 10)];   [(0, 0, 0); (10, 0, 10); (0, 0, 10)];
    [(10, 0, 0); (10, 10, 0); (10, 10, 10)]; [(10, 0, 0); (10, 10, 10); (10, 0, 10)];
    [(10, 10, 0); (0, 10, 0); (0, 10, 10)];  [(10, 10, 0); (0, 10, 10); (10, 10, 10)];
    [(0, 10, 0); (0, 0, 0); (0, 0, 10)];    [(0, 10, 0); (0, 0, 10); (0, 10, 10)] ].

(** ** Text mesh loader ([b_slice_stl.py])

    The file is the list of its lines; [readline] yields the next line, and
    the empty string for ever once the lines are used up. *)

Module Stl.

Definition is_space (c : ascii) : bool :=
  match c with
  | " "%char | "009"%char | "010"%char | "011"%char | "012"%char | "013"%char => true
  | _ => false
  end.

Fixpoint lstrip (s : string) : string :=
  match s with
  | String c s' => if is_space c then lstrip s' else s
  | EmptyString => EmptyString
  end.

(** [str.strip()] *)
Definition strip (s : string) : string :=
  String.rev (lstrip (String.rev (lstrip s))).

(** [str.split()]: the maximal runs of non-blank characters. *)
Fixpoint split_loop (s : string) (word : string) : list string :=
  match s with
  | EmptyString => if String.eqb word "" then [] else [word]
  | String c s' =>
      if is_space c
      then (if String.eqb word "" then split_loop s' "" else word :: split_loop s' "")
      else split_loop s' (word +:+ String c "")
  end.

Definition split (s : string) : list string := split_loop s "".

Definition readline (f : list string) : string * list string :=
  match f with
  | [] => ("", [])
  | line :: f' => (line, f')
  end.

(** A vertex as parsed: the tuple of the numbers on the line. *)
Abbreviation Vertex := (list Q).
Abbreviation TextFacet := (list Vertex).

(** A reading of [float()] for decimal literals:
    sign, digits, optional fraction, optional exponent. *)
Definition digit_value (c : ascii) : option Z :=
  let n := nat_of_ascii c in
  if (48 <=? n)%nat && (n <=? 57)%nat then Some (Z.of_nat (n - 48)) else None.

(** Digits of [s] up to the first non-digit: value so far, digits read, rest. *)
Fixpoint read_digits (s : string) (acc : Z) (count : nat) : Z * nat * string :=
  match s with
  | String c s' =>
      match digit_value c with
      | Some d => read_digits s' (10 * acc + d)%Z (S count)
      | None => (acc, count, s)
      end
  | EmptyString => (acc, count, s)
  end.

Definition read_sign (s : string) : bool * string :=
  match s with
  | String "-"%char s' => (true, s')
  | String "+"%char s' => (false, s')
  | _ => (false, s)
  end.

Definition pow10Q (e : Z) : Q :=
  if (0 <=? e)%Z then inject_Z (10 ^ e) else / inject_Z (10 ^ (- e)).

Definition read_exponent (s : string) : option Z :=
  match s with
  | EmptyString => Some 0%Z
  | String c s' =>
      if (Ascii.eqb c "e" || Ascii.eqb c "E")%bool then
        let '(neg, s1) := read_sign s' in
        match read_digits s1 0 0 with
        | (e, S _, EmptyString) => Some (if neg then (- e)%Z else e)
        | _ => None
        end
      else None
  end.

Definition decimal_float (s : string) : option Q :=
  let '(neg, s1) := read_sign s in
  let '(ip, ni, s2) := read_digits s1 0 0 in
  let '(fp, nf, s3) :=
    match s2 with
    | String "."%char s2' => read_digits s2' 0 0
    | _ => (0%Z, 0%nat, s2)
    end in
  if (ni + nf =? 0)%nat then None else
  match read_exponent s3 with
  | None => None
  | Some e =>
      let mag := (inject_Z ip + inject_Z fp * pow10Q (- Z.of_nat nf)) * pow10Q e in
      Some (Qred (if neg then - mag else mag))
  end.

Section Parser.

(** The built-in [float()] on a token. *)
Variable pyfloat : string -> option Q.

(** [tuple([float(num) for num in nums])] *)
Fixpoint floats (nums : list string) : result Vertex :=
  match nums with
  | [] => Ok []
  | num :: nums' =>
      match pyfloat num with
      | None => Raise (ValueError_float num)
      | Some x => v ← floats nums'; Ok (x :: v)
      end
  end.

(** The body of the vertex loop of [readFacet] for one line. *)
Definition read_vertex (line : string) : result Vertex :=
  match split line with
  | [] => Raise IndexError
  | part0 :: nums =>
      if negb (String.eqb part0 "vertex")
      then Raise (ValueError_expected "vertex x y z" line)
      else floats nums
  end.

(** [while line != 'endloop': ...] *)
Fixpoint vertex_loop (fuel : nat) (f : list string) (line : string)
    (facet : TextFacet) : result (TextFacet * list string) :=
  if String.eqb line "endloop" then Ok (facet, f) else
  match fuel with
  | O => OutOfFuel
  | S fuel' =>
      v ← read_vertex line;
      let '(next, f') := readline f in
      vertex_loop fuel' f' (strip next) (facet ++ [v])
  end.

Definition readFacet (f : list string) : result (TextFacet * list string) :=
  let '(l, f) := readline f in
  let line := strip l in
  if negb (String.eqb line "outer loop")
  then Raise (ValueError_expected "outer loop" line) else
  let '(l, f) := readline f in
  '(facet, f) ← vertex_loop (S (S (length f))) f (strip l) [];
  let '(l, f) := readline f in
  let line := strip l in
  if negb (String.eqb line "endfacet")
  then Raise (ValueError_expected "endfacet" line)
  else Ok (facet, f).

(** [while line.startswith('facet'): ...] *)
Fixpoint facet_loop (fuel : nat) (f : list string) (line : string)
    (facets : list TextFacet) : result (list TextFacet * string) :=
  if String.prefix "facet" line then
    match fuel with
    | O => OutOfFuel
    | S fuel' =>
        '(facet, f) ← readFacet f;
        let '(l, f) := readline f in
        facet_loop fuel' f (strip l) (facets ++ [facet])
    end
  else Ok (facets, line).

Definition parseText (f : list string) : result (list TextFacet) :=
  let '(l, f) := readline f in
  let line := strip l in
  match split line with
  | [] => Raise IndexError
  | part0 :: parts =>
      if negb (String.eqb part0 "solid")
      then Raise (ValueError_expected "solid ..." line) else
      let name := String.concat " " parts in
      let '(l, f) := readline f in
      '(facets, line) ← facet_loop (S (length f)) f (strip l) [];
      if negb (String.eqb line ("endsolid " +:+ name))
      then Raise (ValueError_expected ("endsolid " +:+ name) line)
      else Ok facets
  end.

End Parser.

End Stl.

(** * The binary loader and the choice of the loader

    [parseBin] and [parse] of [JM_slicer/b_slice_stl.py]. The file is opened
    in binary mode: its content is a list of bytes, read from the front.
    [struct.unpack] raises [struct.error] when the bytes it is given are not
    of the length of the format; a number of the format [f] is an IEEE 754
    single, whose value is kept exact (infinities and NaN apart). The two
    [print] statements of [parseBin] are left out. *)

Module StlBin.
Import Stl.

(** The value of [struct.unpack('<f', ...)]. *)
Inductive f32 : Type :=
| F_finite (q : Q)
| F_inf (negative : bool)
| F_nan.

Abbreviation BinPoint := (f32 * f32 * f32)%type.
Abbreviation BinFacet := (list BinPoint).

(** A value, or [struct.error]. *)
Inductive unpacked (A : Type) : Type :=
| Unpacked (a : A)
| StructError.
Arguments Unpacked {A} a.
Arguments StructError {A}.

Definition byte_value (c : ascii) : Z := Z.of_nat (nat_of_ascii c).

(** The unsigned number whose little-endian bytes are [b]. *)
Fixpoint le_value (b : list ascii) : Z :=
match b with
| [] => 0
| c :: b' => byte_value c + 256 * le_value b'
end.

(** [f.read(n)]: up to [n] bytes, and the file after them. *)
Definition read (n : nat) (f : list ascii) : list ascii * list ascii :=
(take n f, drop n f).

(** [struct.unpack('<I', b)] *)
Definition unpack_I (b : list ascii) : unpacked Z :=
if (length b =? 4)%nat then Unpacked (le_value b) else StructError.

(** The single with bit pattern [bits]: sign, 8 bits of exponent, 23 bits of
  fraction. *)
Definition decode_f32 (bits : Z) : f32 :=
let negative := Z.testbit bits 31 in
let e := Z.land (Z.shiftr bits 23) 255 in
let m := Z.land bits (2 ^ 23 - 1) in
if (e =? 255)%Z then (if (m =? 0)%Z then F_inf negative else F_nan)
else
  let magnitude :=
    if (e =? 0)%Z then inject_Z m * Qpower 2 (-149)
    else inject_Z (2 ^ 23 + m) * Qpower 2 (e - 150) in
  F_finite (if negative then - magnitude else magnitude).

(** [struct.unpack('<fff', b)] *)
Definition unpack_fff (b : list ascii) : unpacked BinPoint :=
if (length b =? 12)%nat
then Unpacked (decode_f32 (le_value (take 4 b)),
               decode_f32 (le_value (take 4 (drop 4 b))),
               decode_f32 (le_value (take 4 (drop 8 b))))
else StructError.

(** [for i in range(3): points.append(struct.unpack('<fff', f.read(12)))] *)
Fixpoint read_points (n : nat) (f : list ascii) (points : BinFacet)
  : unpacked (BinFacet * list ascii) :=
match n with
| O => Unpacked (points, f)
| S n' =>
    let '(b, f) := read 12 f in
    match unpack_fff b with
    | StructError => StructError
    | Unpacked point => read_points n' f (points ++ [point])
    end
end.

(** [for i in range(count): ...] *)
Fixpoint read_facets (count : nat) (f : list ascii) (facets : list BinFacet)
  : unpacked (list BinFacet) :=
match count with
| O => Unpacked facets
| S count' =>
    let '(b, f) := read 12 f in
    match unpack_fff b with
    | StructError => StructError
    | Unpacked normal =>
        match read_points 3 f [] with
        | StructError => StructError
        | Unpacked (points, f) =>
            let '(attribute_byte_count, f) := read 2 f in
            read_facets count' f (facets ++ [points])
        end
    end
end.

Definition parseBin (f : list ascii) : unpacked (list BinFacet) :=
let '(header, f) := read 80 f in
let '(b, f) := read 4 f in
match unpack_I b with
| StructError => StructError
| Unpacked count => read_facets (Z.to_nat count) f []
end.

(** The lines of a file as [readline] returns them one after the other,
  each with its newline. *)
Fixpoint lines_loop (f : list ascii) (line : string) : list string :=
match f with
| [] => if String.eqb line "" then [] else [line]
| c :: f' =>
    if Ascii.eqb c "010"%char
    then (line +:+ String c "") :: lines_loop f' ""
    else lines_loop f' (line +:+ String c "")
end.

Definition lines_of (f : list ascii) : list string := lines_loop f "".

Section Parse.

Variable pyfloat : string -> option Q.

(** [parse]: what the text loader gives on the file read again from its
start, or what the binary loader gives. *)
Definition parse (f : list ascii)
: result (list TextFacet) + unpacked (list BinFacet) :=
let line := strip (readline (lines_of f)).1 in
if String.prefix "solid" line
then inl (parseText pyfloat (lines_of f))
else inr (parseBin f).

End Parse.

End StlBin.

(** * Properties stated about the program *)

(** The interpolation of the specification, in exact arithmetic. *)
Definition interpolates (a b : Point3) (z : Q) (pt : Point2) : Prop :=
  pt.1 == (z - Z3 b) * (X3 a - X3 b) / (Z3 a - Z3 b) + X3 b /\
  pt.2 == (z - Z3 b) * (Y3 a - Y3 b) / (Z3 a - Z3 b) + Y3 b.

(** A triangle with its [z_sort_facets] annotation. *)
Definition indexed_triangle (f : IndexedFacet) : Prop :=
  exists p0 p1 p2, index_facet [p0; p1; p2] = Ok f.

(** The first two points of a line have different keys. *)
Definition distinct_ends (line : Line) : Prop :=
  exists p0 p1 rest, line = p0 :: p1 :: rest /\ LineMap_key p0 <> LineMap_key p1.

Definition maxz_of (f : IndexedFacet) : Q := f.1.1.

Definition sorted_by_maxz (fs : list IndexedFacet) : Prop :=
  StronglySorted (fun a b => maxz_of a <= maxz_of b) fs.

(** Some two points of the line have different keys. *)
Definition two_keys (line : Line) : Prop :=
  exists p q, p ∈ line /\ q ∈ line /\ LineMap_key p <> LineMap_key q.

(** Every identifier in a bucket names an object of the heap. *)
Definition ids_valid (heap : list Line) (m : gmap string (list nat)) : Prop :=
  map_Forall (fun _ lines => Forall (fun id => (id < length heap)%nat) lines) m.

Definition well_formed (st : LineMap) : Prop :=
  ids_valid (lm_heap st) (lm_map st) /\ Forall two_keys (lm_heap st).

(** What a step of the stitcher may do: finish with a state that is still
    well formed and has fewer registrations, or raise anything but
    [UnboundLocalError]. *)
Definition safe_step {A} (st : LineMap) (r : result (LineMap * A))
    (strict : A -> bool) : Prop :=
  match r with
  | Ok (st', a) =>
      well_formed st' /\ lm_heap st' = lm_heap st /\
      (if strict a
       then (registrations (lm_map st') < registrations (lm_map st))%nat
       else st' = st)
  | Raise e => e <> UnboundLocalError
  | OutOfFuel => False
  end.

Definition same_choices (pick pick' : list string -> nat) : Prop :=
  forall ks, (pick ks mod length ks = pick' ks mod length ks)%nat.

(** [pick], except that position [i] is chosen among the keys [ks0]. *)
Definition override (pick : list string -> nat) (ks0 : list string) (i : nat)
    : list string -> nat :=
  fun ks => if decide (ks = ks0) then i else pick ks.

(** No registration is left under the key of the first or of the last point
    of the line object [path]. *)
Definition ends_exhausted (st : LineMap) (path : nat) : Prop :=
  forall p,
    head (heap_get (lm_heap st) path) = Some p \/
    last (heap_get (lm_heap st) path) = Some p ->
    lm_map st !! LineMap_key p = None.

(** Two segments that leave the same point. *)
Definition open_chain : list Line := [ [(0, 0); (10, 0)]; [(0, 0); (0, 10)] ].

(** A segment: two points, with different keys. *)
Definition segment_keys_distinct (line : Line) : Prop :=
  exists p q, line = [p; q] /\ LineMap_key p <> LineMap_key q.

(** A segment whose two endpoints are the same point. *)
Definition point_segment : list Line := [ [(0, 0); (0, 0)] ].



(** The layer count of the specification. *)
Definition spec_layer_count (minz maxz thickness : Q) : Z :=
  Qceiling ((maxz - minz) / thickness).

Definition rotations (l : Line) : list Line :=
  map (fun k => drop k l ++ take k l) (seq 0 (length l)).

(** [path] walks once around [cycle], in one of the two directions, from any
    of its points, and ends on the point it started from. *)
Definition closed_walk_of (cycle path : Line) : bool :=
  existsb (fun r => line_eqb path (r ++ take 1 r))
          (rotations cycle ++ rotations (rev cycle)).

Definition square_corners : Line := [(0, 0); (10, 0); (10, 10); (0, 10)].

Definition square_with_midpoints : Line :=
  [(0, 0); (5, 0); (10, 0); (10, 5); (10, 10); (5, 10); (0, 10); (0, 5)].

(** Heights and path lengths of the layers written. *)
Definition layer_shapes (written : list (Q * list Line * nat)) : list (Q * list nat) :=
  map (fun w => (Qred w.1.1, map length w.1.2)) written.

Definition keys_z0 : list string :=
  ["10.0,10.0"; "10.0,0.0"; "0.0,10.0"; "0.0,0.0"].
Definition keys_z5 : list string :=
  ["5.0,10.0"; "5.0,0.0"; "10.0,5.0"; "10.0,10.0"; "10.0,0.0";
   "0.0,5.0"; "0.0,10.0"; "0.0,0.0"].

Definition cube_result (r : result (Writer * list (list Line))) : Prop :=
  exists w ret z0 z1 z2 path0 path5,
    r = Ok (w, ret) /\
    w_written w = [(z0, [path0], 1%nat); (z1, [path5], 2%nat); (z2, [], 3%nat)] /\
    (z0 == 0 /\ z1 == 5 /\ z2 == 10) /\
    (length path0 = 5%nat /\ closed_walk_of square_corners path0 = true) /\
    (length path5 = 9%nat /\ closed_walk_of square_with_midpoints path5 = true) /\
    ret = [[path5]; []].

(** The running minimum and maximum of one coordinate, as [bounding_cube]
    folds them. *)
Definition fold_min (f : Point3 -> Q) (l : list Point3) (acc : Q) : Q :=
  fold_left (fun a p => pymin a (f p)) l acc.
Definition fold_max (f : Point3 -> Q) (l : list Point3) (acc : Q) : Q :=
  fold_left (fun a p => pymax a (f p)) l acc.

(** [v] is the start value [sentinel] or the coordinate [f] of a point. *)
Definition attained (points : list Point3) (f : Point3 -> Q) (v sentinel : Q) : Prop :=
  v = sentinel \/ exists p, p ∈ points /\ v = f p.

(** A mesh lying wholly above 99999. *)
Definition far_facets : list Facet :=
  [[(100000, 100000, 100000); (100001, 100000, 100000); (100000, 100001, 100001)]].

(** The paper sides [w], [h] lie the same way as the model's extents: the
    longer side is not paired with the shorter extent. *)
Definition same_orientation (w h xsize ysize : Q) : Prop :=
  ~ (h < w /\ xsize < ysize) /\ ~ (w < h /\ ysize < xsize).

(** The annotation of [z_sort_facets] bounds the Z of the three points it
    is computed from. *)
Definition z_bounded (x : IndexedFacet) : Prop :=
  forall p, p ∈ take 3 x.2 -> x.1.2 <= Z3 p <= x.1.1.

(** The height of the [k]-th layer above the start. *)
Definition layer_height (thickness : Q) (k : nat) : Q :=
  inject_Z (Z.of_nat k) * thickness.

(** The bounds and facets the driver gets from [scale_to_fit]. *)
Definition scaled_input (facets : list Facet) (width height scale : Q)
    : result (Q * Q * Q * Q * list Facet) :=
  if truthy scale then scale_to_fit facets 0 0 scale
  else scale_to_fit facets width height scale.


(** Two equal segments and a third one that starts where they end. *)
Definition doubled_segment : list Line :=
  [ [(0, 0); (1, 0)]; [(0, 0); (1, 0)]; [(1, 0); (2, 0)] ].

(** No two lines of the input are equal as Python lists. *)
Definition no_twin (lines : list Line) : Prop :=
  forall i j l l', i <> j -> lines !! i = Some l -> lines !! j = Some l' ->
    line_eqb l l' = false.

(** [id] is in the bucket of [key]. *)
Definition registered (m : gmap string (list nat)) (key : string) (id : nat) : Prop :=
  exists bucket, m !! key = Some bucket /\ id ∈ bucket.

(** [id] is a segment of the input with an endpoint of key [key]. *)
Definition endpoint_key (lines : list Line) (id : nat) (key : string) : Prop :=
  exists p q, lines !! id = Some [p; q] /\ (key = LineMap_key p \/ key = LineMap_key q).

(** The state of the stitcher while the lines [unused] are still to be
    consumed: those objects are as they were given, no bucket is empty or
    holds a line twice, and a line is in a bucket exactly when it is unused
    and the bucket's key is the key of one of its endpoints. *)
Definition stitch_inv (lines : list Line) (unused : nat -> Prop) (st : LineMap) : Prop :=
  length (lm_heap st) = length lines /\
  (forall id, unused id -> lm_heap st !! id = lines !! id) /\
  (forall key bucket, lm_map st !! key = Some bucket -> bucket <> [] /\ NoDup bucket) /\
  (forall key id, registered (lm_map st) key id <-> unused id /\ endpoint_key lines id key).

(** The points a list of paths has more than one each. *)
Definition steps (heap : list Line) (paths : list nat) : nat :=
  sum_list (map (fun path => length (heap_get heap path) - 1)%nat paths).

(** [b] follows [a] along a segment of the input: [a] has the key of one
    endpoint of the segment and [b] is its other endpoint. *)
Definition follows (lines : list Line) (a b : Point2) : Prop :=
  exists id p q, lines !! id = Some [p; q] /\
    ((LineMap_key a = LineMap_key p /\ b = q) \/
     (LineMap_key a = LineMap_key q /\ b = p)).

(** Every point of the path follows the point before it. *)
Definition chain (lines : list Line) (path : Line) : Prop :=
  forall i a b, path !! i = Some a -> path !! S i = Some b -> follows lines a b.

(** Two segments that meet at (10, 0). *)
Definition joined_segments : list Line :=
  [ [(0, 0); (10, 0)]; [(10, 0); (10, 10)] ].

(** The facet list and the height at the start of a pass of the layer loop
    of [command_line], which starts with the facets [fs] at height [z0]:
    every pass before this one has pruned the list, sliced it and stitched
    the segments without an error, and added the thickness to the height. *)
Inductive loop_pass (pick : list string -> nat) (maxz t : Q)
    (fs : list IndexedFacet) (z0 : Q) : list IndexedFacet -> Q -> Prop :=
  | pass_first : loop_pass pick maxz t fs z0 fs z0
  | pass_next cur z kept lines paths :
      loop_pass pick maxz t fs z0 cur z ->
      z <= maxz ->
      prune cur z = Ok kept ->
      slice_shape_at kept z = Ok lines ->
      path_lines pick lines = Ok paths ->
      loop_pass pick maxz t fs z0 kept (z + t).

(** The pass of the loop in which [path_lines] raises [e]: the pruning and
    the slicing of that pass have returned. *)
Definition stitcher_error (pick : list string -> nat) (maxz t : Q)
    (fs : list IndexedFacet) (e : exn) : Prop :=
  exists cur z kept lines,
    loop_pass pick maxz t fs 0 cur z /\ z <= maxz /\
    prune cur z = Ok kept /\ slice_shape_at kept z = Ok lines /\
    path_lines pick lines = Raise e.

(** A triangle given twice, and a third one that starts where their common
    edge on the ground ends. *)
Definition twin_mesh : list Facet :=
  [ [(0, 0, 0); (1, 0, 0); (0, 0, 1)]; [(0, 0, 0); (1, 0, 0); (0, 0, 1)];
    [(1, 0, 0); (2, 0, 0); (1, 0, 1)] ].

(** The paths of a written layer are the stitched slice of the facets [fs]
    at the height of the layer. *)
Definition layer_of (pick : list string -> nat) (fs : list IndexedFacet)
    (wr : Q * list Line * nat) : Prop :=
  exists lines, slice_shape_at fs wr.1.1 = Ok lines /\ path_lines pick lines = Ok wr.1.2.

(** ** The text loader and its grammar *)

Module StlGrammar.
Import Stl.


Section Grammar.

Variable pyfloat : string -> option Q.

(** A line whose first token is [vertex] and whose other tokens are numbers. *)
Definition vertex_line (l : string) (v : Vertex) : Prop :=
exists nums, split (strip l) = "vertex" :: nums /\ floats pyfloat nums = Ok v.








End Grammar.



(** The file ends here, or goes on with a blank line. *)
Definition ends_or_blank (rest : list string) : Prop :=
rest = [] \/ exists blank rest', rest = blank :: rest' /\ strip blank = "".

End StlGrammar.

(** ** The layout of a binary file *)

Module StlBinLayout.
Import Stl StlBin.

(** The three singles that start at byte [offset]. *)
Definition point_at (f : list ascii) (offset : nat) : BinPoint :=
(decode_f32 (le_value (take 4 (drop offset f))),
 decode_f32 (le_value (take 4 (drop (offset + 4) f))),
 decode_f32 (le_value (take 4 (drop (offset + 8) f)))).

(** The [k]-th record starts at byte [84 + 50 * k]: a normal, three points,
  two more bytes. *)
Definition facet_at (f : list ascii) (k : nat) : BinFacet :=
[point_at f (84 + 50 * k + 12); point_at f (84 + 50 * k + 24);
 point_at f (84 + 50 * k + 36)].

(** The facet count: bytes 80 to 83, little-endian. *)
Definition facet_count (f : list ascii) : nat :=
Z.to_nat (le_value (take 4 (drop 80 f))).

(** The bytes the loader needs for [n] records: the last two bytes of the
  last record may be missing. *)
Definition needed_bytes (n : nat) : nat :=
match n with
| O => 84
| S _ => 84 + 50 * n - 2
end.

End StlBinLayout.

Lemma Qltb_lt x y : Qltb x y = true <-> x < y.
Proof.
  unfold Qltb. rewrite negb_true_iff. split.
  - intros H. apply Qnot_le_lt. intros Hle. apply Qle_bool_iff in Hle. congruence.
  - intros H. destruct (Qle_bool y x) eqn:E; [|done].
    apply Qle_bool_iff in E. lra.
Qed.

Lemma Qltb_ge x y : Qltb x y = false <-> y <= x.
Proof.
  unfold Qltb. rewrite negb_false_iff. apply Qle_bool_iff.
Qed.

Lemma Qle_bool_false x y : Qle_bool x y = false <-> y < x.
Proof. rewrite <- Qltb_lt. unfold Qltb. by rewrite negb_true_iff. Qed.

Lemma pydiv_ok x y : ~ y == 0 -> pydiv x y = Ok (x / y).
Proof.
  intros H. unfold pydiv. destruct (Qeq_bool y 0) eqn:E; [|done].
  apply Qeq_bool_iff in E. done.
Qed.

Lemma pydiv_zero x y : y == 0 -> pydiv x y = Raise ZeroDivisionError.
Proof.
  intros H. unfold pydiv. apply Qeq_bool_iff in H. by rewrite H.
Qed.

(** [tri_above_below] is the pair of the two filters. *)
Lemma tri_above_below_loop_filter tri z above below :
  tri_above_below_loop tri z above below =
  (above ++ List.filter (fun p => Qltb z (Z3 p)) tri,
   below ++ List.filter (fun p => Qle_bool (Z3 p) z) tri).
Proof.
  revert above below. induction tri as [|p tri IH]; intros above below; simpl.
  - by rewrite !app_nil_r.
  - unfold Qltb. destruct (Qle_bool (Z3 p) z) eqn:E; simpl; rewrite IH;
      by rewrite <- app_assoc.
Qed.

Lemma tri_above_below_filter tri z :
  tri_above_below tri z =
  (List.filter (fun p => Qltb z (Z3 p)) tri,
   List.filter (fun p => Qle_bool (Z3 p) z) tri).
Proof. unfold tri_above_below. by rewrite tri_above_below_loop_filter. Qed.

Lemma find_line_plane_intersection_ok a b z :
  Z3 b < Z3 a ->
  exists pt, find_line_plane_intersection a b z = Ok pt /\ interpolates a b z pt.
Proof.
  intros H. unfold find_line_plane_intersection.
  assert (Hd : ~ Z3 a - Z3 b == 0) by lra.
  rewrite !pydiv_ok by done. simpl.
  eexists. split; [done|]. unfold interpolates; simpl. split; field; done.
Qed.

Lemma line_below_ok a below z line :
  Forall (fun b => Z3 b < Z3 a) below ->
  exists pts, line_below a below z line = Ok (line ++ pts) /\
    Forall2 (fun pt b => interpolates a b z pt) pts below.
Proof.
  intros H. revert line. induction H as [|b below Hb _ IH]; intros line; simpl.
  - exists []. by rewrite app_nil_r.
  - destruct (find_line_plane_intersection_ok a b z Hb) as (pt & -> & Hpt). simpl.
    destruct (IH (line ++ [pt])) as (pts & -> & Hpts).
    exists (pt :: pts). rewrite <- app_assoc. split; [done|]. by constructor.
Qed.

Lemma line_above_ok above below z line :
  Forall (fun a => Forall (fun b => Z3 b < Z3 a) below) above ->
  exists pts, line_above above below z line = Ok (line ++ pts) /\
    Forall2 (fun pt ab => interpolates ab.1 ab.2 z pt) pts (list_prod above below).
Proof.
  intros H. revert line. induction H as [|a above Ha _ IH]; intros line; simpl.
  - exists []. by rewrite app_nil_r.
  - destruct (line_below_ok a below z line Ha) as (pts1 & -> & H1). simpl.
    destruct (IH (line ++ pts1)) as (pts2 & -> & H2).
    exists (pts1 ++ pts2). rewrite <- app_assoc. split; [done|].
    apply Forall2_app; [|done].
    clear -H1. induction H1; simpl; constructor; done.
Qed.

Lemma above_below_ordered tri z :
  Forall (fun a => Forall (fun b => Z3 b < Z3 a)
                     (List.filter (fun p => Qle_bool (Z3 p) z) tri))
         (List.filter (fun p => Qltb z (Z3 p)) tri).
Proof.
  apply Forall_forall. intros a Ha. apply Forall_forall. intros b Hb.
  apply list_elem_of_In, filter_In in Ha as [_ Ha].
  apply list_elem_of_In, filter_In in Hb as [_ Hb].
  apply Qltb_lt in Ha. apply Qle_bool_iff in Hb. lra.
Qed.

Lemma pymin_le_l a b : pymin a b <= a.
Proof. unfold pymin. destruct (Qltb b a) eqn:E; [apply Qltb_lt in E|]; lra. Qed.
Lemma pymin_le_r a b : pymin a b <= b.
Proof. unfold pymin. destruct (Qltb b a) eqn:E; [|apply Qltb_ge in E]; lra. Qed.
Lemma pymax_ge_l a b : a <= pymax a b.
Proof. unfold pymax. destruct (Qltb a b) eqn:E; [apply Qltb_lt in E|]; lra. Qed.
Lemma pymax_ge_r a b : b <= pymax a b.
Proof. unfold pymax. destruct (Qltb a b) eqn:E; [|apply Qltb_ge in E]; lra. Qed.

Lemma indexed_triangle_bounds maxz minz tri :
  indexed_triangle (maxz, minz, tri) ->
  length tri = 3%nat /\ Forall (fun p => minz <= Z3 p /\ Z3 p <= maxz) tri.
Proof.
  intros (p0 & p1 & p2 & H). unfold index_facet in H. simpl in H.
  injection H as <- <- <-. split; [done|].
  pose proof (pymin_le_l (pymin (Z3 p0) (Z3 p1)) (Z3 p2)).
  pose proof (pymin_le_r (pymin (Z3 p0) (Z3 p1)) (Z3 p2)).
  pose proof (pymin_le_l (Z3 p0) (Z3 p1)).
  pose proof (pymin_le_r (Z3 p0) (Z3 p1)).
  pose proof (pymax_ge_l (pymax (Z3 p0) (Z3 p1)) (Z3 p2)).
  pose proof (pymax_ge_r (pymax (Z3 p0) (Z3 p1)) (Z3 p2)).
  pose proof (pymax_ge_l (Z3 p0) (Z3 p1)).
  pose proof (pymax_ge_r (Z3 p0) (Z3 p1)).
  repeat constructor; lra.
Qed.

(** One facet through the slicer loop. *)
Lemma slice_loop_cons_skip_above maxz minz tri facets z lines :
  Qltb z minz = true ->
  slice_loop ((maxz, minz, tri) :: facets) z lines = slice_loop facets z lines.
Proof. intros H. simpl. by rewrite H. Qed.

Lemma slice_loop_cons_no_crossing maxz minz tri facets z lines :
  List.filter (fun p => Qltb z (Z3 p)) tri = [] \/
  List.filter (fun p => Qle_bool (Z3 p) z) tri = [] ->
  slice_loop ((maxz, minz, tri) :: facets) z lines = slice_loop facets z lines.
Proof.
  intros H. simpl. destruct (Qltb z minz); [done|].
  rewrite tri_above_below_filter.
  destruct H as [-> | ->]; simpl; [done|].
  by rewrite orb_true_r.
Qed.

Lemma slice_loop_cons_crossing maxz minz tri facets z lines line p0 p1 rest :
  Qltb z minz = false ->
  List.filter (fun p => Qltb z (Z3 p)) tri <> [] ->
  List.filter (fun p => Qle_bool (Z3 p) z) tri <> [] ->
  line_above (List.filter (fun p => Qltb z (Z3 p)) tri)
             (List.filter (fun p => Qle_bool (Z3 p) z) tri) z [] = Ok line ->
  line = p0 :: p1 :: rest ->
  slice_loop ((maxz, minz, tri) :: facets) z lines =
  slice_loop facets z
    (if String.eqb (LineMap_key p0) (LineMap_key p1) then lines else lines ++ [line]).
Proof.
  intros Hmin Ha Hb Hline ->. simpl. rewrite Hmin, tri_above_below_filter.
  destruct (List.filter (fun p => Qltb z (Z3 p)) tri) eqn:Ea; [done|].
  destruct (List.filter (fun p => Qle_bool (Z3 p) z) tri) eqn:Eb; [done|].
  cbn [is_nil orb]. rewrite Hline. cbn [mbind result_bind].
  by destruct (String.eqb (LineMap_key p0) (LineMap_key p1)).
Qed.

(** The line built for a triangle that has points on both sides. *)
Lemma crossing_line (p0 p1 p2 : Point3) (z : Q) :
  let tri := [p0; p1; p2] in
  let above := List.filter (fun p => Qltb z (Z3 p)) tri in
  let below := List.filter (fun p => Qle_bool (Z3 p) z) tri in
  above <> [] -> below <> [] ->
  exists pa pb : Point2,
    line_above above below z [] = Ok [pa; pb] /\
    Forall2 (fun pt ab => interpolates ab.1 ab.2 z pt) [pa; pb] (list_prod above below).
Proof.
  intros tri above below Hna Hnb.
  destruct (line_above_ok above below z [] (above_below_ordered tri z))
    as (pts & Hline & Hpts).
  simpl in Hline.
  assert (Hlen : length pts = 2%nat).
  { apply Forall2_length in Hpts. rewrite Hpts. clear Hpts Hline.
    subst above below tri. simpl in *. unfold Qltb in *.
    destruct (Qle_bool (Z3 p0) z), (Qle_bool (Z3 p1) z), (Qle_bool (Z3 p2) z);
      simpl in *; done. }
  destruct pts as [|pa [|pb [|? ?]]]; try done.
  by exists pa, pb.
Qed.



Lemma slice_loop_distinct_ends facets z lines out :
  Forall distinct_ends lines ->
  slice_loop facets z lines = Ok out ->
  Forall distinct_ends out.
Proof.
  revert lines. induction facets as [|[[maxz minz] tri] facets IH]; intros lines Hl H.
  - simpl in H. by injection H as <-.
  - simpl in H. destruct (Qltb z minz); [by eapply IH|].
    destruct (tri_above_below tri z) as [above below].
    destruct (is_nil above || is_nil below); [by eapply IH|].
    destruct (line_above above below z []) as [line| |]; simpl in H; try done.
    destruct line as [|p0 [|p1 rest]]; try done.
    destruct (String.eqb (LineMap_key p0) (LineMap_key p1)) eqn:E; simpl in H.
    + by eapply IH.
    + eapply IH; [|done]. apply Forall_app. split; [done|].
      constructor; [|done]. exists p0, p1, rest. split; [done|].
      by apply String.eqb_neq.
Qed.

(** On triangles the slicer never fails and every line has two points. *)
Lemma slice_loop_triangles facets z lines :
  Forall indexed_triangle facets ->
  exists out, slice_loop facets z lines = Ok (lines ++ out) /\
    Forall (fun line => length line = 2%nat) out.
Proof.
  intros H. revert lines. induction H as [|[[maxz minz] tri] facets Hf _ IH]; intros lines.
  - exists []. simpl. by rewrite app_nil_r.
  - destruct (Qltb z minz) eqn:Emin.
    { rewrite slice_loop_cons_skip_above by done. apply IH. }
    destruct (List.filter (fun p => Qltb z (Z3 p)) tri) as [|a0 above'] eqn:Ea.
    { rewrite slice_loop_cons_no_crossing by auto. apply IH. }
    destruct (List.filter (fun p => Qle_bool (Z3 p) z) tri) as [|b0 below'] eqn:Eb.
    { rewrite slice_loop_cons_no_crossing by auto. apply IH. }
    destruct Hf as (p0 & p1 & p2 & Hf).
    assert (tri = [p0; p1; p2]) as Etri
      by (unfold index_facet in Hf; simpl in Hf; congruence).
    destruct (crossing_line p0 p1 p2 z) as (pa & pb & Hline & _).
    { by rewrite <- Etri, Ea. }
    { by rewrite <- Etri, Eb. }
    rewrite <- Etri, Ea, Eb in Hline.
    erewrite slice_loop_cons_crossing; [| done | by rewrite Ea | by rewrite Eb
                                        | by rewrite Ea, Eb | done].
    destruct (String.eqb (LineMap_key pa) (LineMap_key pb)); [apply IH|].
    destruct (IH (lines ++ [[pa; pb]])) as (out & E & Hout).
    exists ([pa; pb] :: out). split; [|by constructor].
    etrans; [exact E|]. by rewrite <- app_assoc.
Qed.

(** ** Pruning *)

Lemma slice_loop_cons_below f facets z lines :
  indexed_triangle f -> maxz_of f < z ->
  slice_loop (f :: facets) z lines = slice_loop facets z lines.
Proof.
  destruct f as [[maxz minz] tri]. intros Hf Hz.
  apply slice_loop_cons_no_crossing. left.
  apply indexed_triangle_bounds in Hf as [_ Hb].
  unfold maxz_of in Hz. simpl in Hz.
  induction Hb as [|p tri [_ Hp] _ IH]; [done|]. simpl.
  destruct (Qltb z (Z3 p)) eqn:E; [|done].
  apply Qltb_lt in E. lra.
Qed.

Lemma slice_loop_app_below dropped kept z lines :
  Forall (fun f => indexed_triangle f /\ maxz_of f < z) dropped ->
  slice_loop (dropped ++ kept) z lines = slice_loop kept z lines.
Proof.
  induction 1 as [|f dropped [Hf Hz] _ IH]; [done|].
  rewrite <- app_comm_cons. by rewrite slice_loop_cons_below.
Qed.

Lemma prune_split fs z :
  exists dropped kept, fs = dropped ++ kept /\
    Forall (fun f => maxz_of f < z) dropped /\
    match kept with
    | [] => prune fs z = Raise IndexError
    | f :: _ => z <= maxz_of f /\ prune fs z = Ok kept
    end.
Proof.
  induction fs as [|[[maxz minz] tri] fs IH].
  - by exists [], [].
  - simpl. destruct (Qltb maxz z) eqn:E.
    + destruct IH as (dropped & kept & -> & Hd & Hk).
      exists ((maxz, minz, tri) :: dropped), kept. split; [done|]. split; [|done].
      constructor; [|done]. by apply Qltb_lt in E.
    + exists [], ((maxz, minz, tri) :: fs). split; [done|]. split; [done|].
      split; [|done]. by apply Qltb_ge in E.
Qed.

Lemma sorted_by_maxz_app_r dropped kept :
  sorted_by_maxz (dropped ++ kept) -> sorted_by_maxz kept.
Proof.
  induction dropped as [|f dropped IH]; [done|].
  rewrite <- app_comm_cons. intros H. apply StronglySorted_inv in H as [H _]. auto.
Qed.

(** C3. For facets sorted by ascending maximum Z, the facets that [prune]
    drops at height [z] are the leading ones whose maximum Z is below [z];
    none of them gives a segment at any height [z' >= z], and slicing what is
    kept gives the same segment list as slicing the whole list.  ([prune]
    itself raises [IndexError] when every facet is dropped.) *)
Theorem pruning_preserves_slices (fs : list IndexedFacet) (z z' : Q) :
  Forall indexed_triangle fs ->
  sorted_by_maxz fs ->
  z <= z' ->
  exists dropped kept,
    fs = dropped ++ kept /\
    Forall (fun f => maxz_of f < z /\ slice_shape_at [f] z' = Ok []) dropped /\
    Forall (fun f => z <= maxz_of f) kept /\
    (prune fs z = Ok kept \/ kept = [] /\ prune fs z = Raise IndexError) /\
    slice_shape_at kept z' = slice_shape_at fs z'.
Proof.
  intros Hidx Hsorted Hz.
  destruct (prune_split fs z) as (dropped & kept & -> & Hd & Hk).
  apply Forall_app in Hidx as [Hidx_d Hidx_k].
  exists dropped, kept. split; [done|].
  assert (Hd' : Forall (fun f => indexed_triangle f /\ maxz_of f < z') dropped).
  { apply Forall_forall. intros f Hf. rewrite Forall_forall in Hd, Hidx_d.
    split; [auto|]. specialize (Hd f Hf). lra. }
  split; [|split; [|split]].
  - apply Forall_forall. intros f Hf. rewrite Forall_forall in Hd, Hd'.
    split; [auto|]. destruct (Hd' f Hf). unfold slice_shape_at.
    by rewrite slice_loop_cons_below.
  - apply sorted_by_maxz_app_r in Hsorted.
    destruct kept as [|f kept]; [done|]. destruct Hk as [Hk _].
    apply StronglySorted_inv in Hsorted as [_ Hall].
    constructor; [done|]. eapply Forall_impl; [exact Hall|].
    intros g Hg. simpl in Hg. lra.
  - destruct kept; [right|left]; tauto.
  - unfold slice_shape_at. by rewrite slice_loop_app_below.
Qed.

(** [z_sort_facets] establishes what pruning relies on. *)
Lemma ifacet_ltb_true a b : ifacet_ltb a b = true -> maxz_of a <= maxz_of b.
Proof.
  destruct a as [[maxa mina] fa], b as [[maxb minb] fb]. unfold ifacet_ltb, maxz_of.
  simpl. destruct (Qeq_bool maxa maxb) eqn:E; simpl.
  - apply Qeq_bool_iff in E. intros _. lra.
  - intros H. apply Qltb_lt in H. lra.
Qed.

Lemma ifacet_ltb_false a b : ifacet_ltb a b = false -> maxz_of b <= maxz_of a.
Proof.
  destruct a as [[maxa mina] fa], b as [[maxb minb] fb]. unfold ifacet_ltb, maxz_of.
  simpl. destruct (Qeq_bool maxa maxb) eqn:E; simpl.
  - apply Qeq_bool_iff in E. intros _. lra.
  - intros H. apply Qltb_ge in H. lra.
Qed.

Lemma insert_sorted_elem x l y : y ∈ insert_sorted x l <-> y = x \/ y ∈ l.
Proof.
  induction l as [|h l IH]; simpl.
  - rewrite list_elem_of_singleton. set_solver.
  - destruct (ifacet_ltb x h); set_solver.
Qed.

Lemma insert_sorted_sorted x l :
  sorted_by_maxz l -> sorted_by_maxz (insert_sorted x l).
Proof.
  induction 1 as [|h l Hl IH Hall]; simpl.
  - repeat constructor.
  - destruct (ifacet_ltb x h) eqn:E.
    + apply ifacet_ltb_true in E. constructor; [by constructor|].
      constructor; [done|]. eapply Forall_impl; [exact Hall|].
      intros g Hg. simpl in Hg. lra.
    + apply ifacet_ltb_false in E. constructor; [done|].
      apply Forall_forall. intros y Hy. apply insert_sorted_elem in Hy as [->|Hy]; [done|].
      rewrite Forall_forall in Hall. auto.
Qed.

Lemma sorted_spec_acc l acc :
  sorted_by_maxz acc ->
  sorted_by_maxz (fold_left (fun acc x => insert_sorted x acc) l acc) /\
  forall y, y ∈ fold_left (fun acc x => insert_sorted x acc) l acc <-> y ∈ l \/ y ∈ acc.
Proof.
  revert acc. induction l as [|x l IH]; intros acc Hacc; simpl.
  - split; [done|]. set_solver.
  - destruct (IH (insert_sorted x acc)) as [Hs He]; [by apply insert_sorted_sorted|].
    split; [done|]. intros y. rewrite He, insert_sorted_elem. set_solver.
Qed.

Lemma index_facets_triangles facets fs :
  Forall (fun f => length f = 3%nat) facets ->
  index_facets facets = Ok fs ->
  Forall indexed_triangle fs.
Proof.
  intros H. revert fs. induction H as [|f facets Hf _ IH]; intros fs Hfs; simpl in Hfs.
  - by injection Hfs as <-.
  - destruct (index_facet f) as [x| |] eqn:Ex; simpl in Hfs; try done.
    destruct (index_facets facets) as [xs| |]; simpl in Hfs; try done.
    injection Hfs as <-. constructor; [|by apply IH].
    destruct f as [|p0 [|p1 [|p2 [|? ?]]]]; try done. by exists p0, p1, p2.
Qed.

Lemma z_sort_facets_sorted facets fs :
  Forall (fun f => length f = 3%nat) facets ->
  z_sort_facets facets = Ok fs ->
  Forall indexed_triangle fs /\ sorted_by_maxz fs.
Proof.
  intros Hlen H. unfold z_sort_facets in H.
  destruct (index_facets facets) as [xs| |] eqn:Ex; simpl in H; try done.
  injection H as <-. unfold sorted.
  destruct (sorted_spec_acc xs []) as [Hs He]; [constructor|].
  split; [|done]. apply Forall_forall. intros y Hy. apply He in Hy as [Hy|Hy]; [|set_solver].
  eapply index_facets_triangles in Ex; [|done]. rewrite Forall_forall in Ex. auto.
Qed.

(** ** The stitcher's state *)

Lemma distinct_ends_two_keys line : distinct_ends line -> two_keys line.
Proof.
  intros (p0 & p1 & rest & -> & H). exists p0, p1.
  split; [by left|]. split; [right; by left|done].
Qed.

Lemma first_other_none key line :
  first_other key line = None -> Forall (fun p => LineMap_key p = key) line.
Proof.
  induction line as [|p line IH]; simpl; [done|].
  destruct (String.eqb (LineMap_key p) key) eqn:E; [|done].
  apply String.eqb_eq in E. intros H. constructor; auto.
Qed.

Lemma first_other_two_keys key line :
  two_keys line -> is_Some (first_other key line).
Proof.
  intros (p & q & Hp & Hq & Hne).
  destruct (first_other key line) eqn:E; [done|].
  apply first_other_none in E. rewrite Forall_forall in E.
  rewrite (E p Hp), (E q Hq) in Hne. done.
Qed.

Lemma list_pop_app lines line rest :
  list_pop lines = Some (line, rest) -> lines = rest ++ [line].
Proof.
  revert line rest. induction lines as [|l lines IH]; intros line rest; simpl; [done|].
  destruct lines as [|l' lines].
  - by intros [= <- <-].
  - destruct (list_pop (l' :: lines)) as [[line' rest']|]; [|done].
    intros [= <- <-]. by rewrite (IH line' rest' eq_refl).
Qed.

Lemma list_remove_length heap line lines rest :
  list_remove heap line lines = Some rest ->
  length lines = S (length rest) /\ rest ⊆ lines.
Proof.
  revert rest. induction lines as [|l lines IH]; intros rest; simpl; [done|].
  destruct (line_eqb (heap_get heap l) line).
  - intros [= <-]. split; [done|]. set_solver.
  - destruct (list_remove heap line lines) as [rest'|]; simpl; [|done].
    intros [= <-]. destruct (IH rest' eq_refl) as [-> Hsub]. split; [done|]. set_solver.
Qed.

(** *** Registrations: the termination measure *)

Lemma registrations_delete m key lines :
  m !! key = Some lines ->
  registrations m = (length lines + registrations (delete key m))%nat.
Proof.
  intros H. unfold registrations.
  apply (map_fold_delete_L (fun _ (lines : list nat) n => (length lines + n)%nat));
    [|done].
  intros. lia.
Qed.

Lemma registrations_insert m key lines :
  m !! key = None ->
  registrations (<[key := lines]> m) = (length lines + registrations m)%nat.
Proof.
  intros H. unfold registrations.
  apply (map_fold_insert_L (fun _ (lines : list nat) n => (length lines + n)%nat));
    [|done].
  intros. lia.
Qed.

Lemma registrations_store_bucket m key lines lines' :
  m !! key = Some lines ->
  (registrations (store_bucket m key lines') + length lines =
   registrations m + length lines')%nat.
Proof.
  intros H. rewrite (registrations_delete m key lines H).
  unfold store_bucket. destruct lines' as [|l lines']; simpl; [lia|].
  rewrite <- insert_delete_eq, registrations_insert by apply lookup_delete_eq.
  simpl. lia.
Qed.

Lemma ids_valid_store_bucket heap m key lines lines' :
  ids_valid heap m ->
  m !! key = Some lines ->
  lines' ⊆ lines ->
  ids_valid heap (store_bucket m key lines').
Proof.
  intros Hv Hl Hsub. unfold store_bucket, ids_valid.
  destruct (is_nil lines'); [by apply map_Forall_delete|].
  apply map_Forall_insert_2; [|done].
  specialize (Hv key lines Hl). simpl in Hv.
  rewrite Forall_forall in Hv |- *. auto.
Qed.

(** *** [_pop_other_line] *)

Lemma pop_other_line_ok st key line st' other :
  _pop_other_line st key line = Ok (st', other) ->
  lm_heap st' = lm_heap st /\
  S (registrations (lm_map st')) = registrations (lm_map st) /\
  (ids_valid (lm_heap st) (lm_map st) -> ids_valid (lm_heap st') (lm_map st')).
Proof.
  unfold _pop_other_line.
  destruct (first_other key (heap_get (lm_heap st) line)) as [p|]; [|done].
  destruct (lm_map st !! LineMap_key p) as [lines|] eqn:El; [|done].
  destruct (list_remove _ _ lines) as [lines'|] eqn:Er; [|done].
  intros [= <- <-]. simpl.
  apply list_remove_length in Er as [Hlen Hsub].
  pose proof (registrations_store_bucket _ _ _ lines' El).
  split; [done|]. split; [lia|].
  intros Hv. by eapply ids_valid_store_bucket.
Qed.

Lemma pop_other_line_bound st key line :
  two_keys (heap_get (lm_heap st) line) ->
  _pop_other_line st key line <> Raise UnboundLocalError.
Proof.
  intros H. unfold _pop_other_line.
  destruct (first_other_two_keys key _ H) as [p ->].
  destruct (lm_map st !! LineMap_key p); [|done].
  by destruct (list_remove _ _ _).
Qed.

Lemma pop_other_line_fuel st key line : _pop_other_line st key line <> OutOfFuel.
Proof.
  unfold _pop_other_line.
  destruct (first_other _ _); [|done].
  destruct (lm_map st !! _); [|done].
  by destruct (list_remove _ _ _).
Qed.

Lemma heap_get_two_keys heap id :
  Forall two_keys heap -> (id < length heap)%nat -> two_keys (heap_get heap id).
Proof.
  intros H Hid. unfold heap_get in *.
  destruct (lookup_lt_is_Some_2 heap id Hid) as [line Hline]. rewrite Hline. simpl.
  rewrite Forall_forall in H. apply H. by eapply list_elem_of_lookup_2.
Qed.

(** Taking the last line out of the bucket under [key], then deregistering
    it at its other endpoint: the common part of [take_line] and
    [next_point]. *)
Lemma pop_then_other st key lines line lines' st' other :
  lm_map st !! key = Some lines ->
  list_pop lines = Some (line, lines') ->
  _pop_other_line {| lm_heap := lm_heap st;
                     lm_map := store_bucket (lm_map st) key lines' |} key line
    = Ok (st', other) ->
  lm_heap st' = lm_heap st /\
  (registrations (lm_map st') < registrations (lm_map st))%nat /\
  (ids_valid (lm_heap st) (lm_map st) -> ids_valid (lm_heap st') (lm_map st')).
Proof.
  intros Hl Hpop H. apply pop_other_line_ok in H as (Hh & Hr & Hv). simpl in *.
  apply list_pop_app in Hpop as ->.
  pose proof (registrations_store_bucket _ _ _ lines' Hl) as Hreg.
  rewrite length_app in Hreg. simpl in Hreg.
  split; [done|]. split; [lia|].
  intros Hvalid. apply Hv. eapply ids_valid_store_bucket; [done..|]. set_solver.
Qed.

Lemma pop_then_other_bound st key lines line lines' :
  well_formed st ->
  lm_map st !! key = Some lines ->
  list_pop lines = Some (line, lines') ->
  _pop_other_line {| lm_heap := lm_heap st;
                     lm_map := store_bucket (lm_map st) key lines' |} key line
    <> Raise UnboundLocalError.
Proof.
  intros [Hv Hk] Hl Hpop. apply pop_other_line_bound. simpl.
  apply heap_get_two_keys; [done|].
  apply list_pop_app in Hpop as ->.
  specialize (Hv key _ Hl). simpl in Hv. rewrite Forall_app, Forall_singleton in Hv. tauto.
Qed.

Lemma next_point_none st point st' :
  next_point st point = Ok (st', None) ->
  st' = st /\ lm_map st !! LineMap_key point = None.
Proof.
  unfold next_point. destruct (lm_map st !! LineMap_key point) as [lines|].
  - destruct (list_pop lines) as [[line lines']|]; [|done].
    destruct (_pop_other_line _ _ _) as [[st2 other]| |]; done.
  - by intros [= <-].
Qed.

Lemma next_point_some st point st' other :
  next_point st point = Ok (st', Some other) ->
  lm_heap st' = lm_heap st /\
  (registrations (lm_map st') < registrations (lm_map st))%nat /\
  (ids_valid (lm_heap st) (lm_map st) -> ids_valid (lm_heap st') (lm_map st')).
Proof.
  unfold next_point. destruct (lm_map st !! LineMap_key point) as [lines|] eqn:El; [|done].
  destruct (list_pop lines) as [[line lines']|] eqn:Ep; [|done].
  destruct (_pop_other_line _ _ _) as [[st2 other']| |] eqn:Eo; try done.
  simpl. intros [= <- <-]. by eapply pop_then_other.
Qed.

Lemma next_point_safe st point :
  well_formed st ->
  safe_step st (next_point st point) (fun o => bool_decide (is_Some o)).
Proof.
  intros Hwf. destruct (next_point st point) as [[st' [other|]]| |] eqn:E; simpl.
  - apply next_point_some in E as (Hh & Hr & Hv). destruct Hwf as [Hv0 Hk].
    split; [|done]. split; [rewrite Hh in *; auto|]. by rewrite Hh.
  - apply next_point_none in E as [-> _]. done.
  - unfold next_point in E.
    destruct (lm_map st !! LineMap_key point) as [lines|] eqn:El; [|done].
    destruct (list_pop lines) as [[line lines']|] eqn:Ep; [|by injection E as <-].
    pose proof (pop_then_other_bound st _ _ _ _ Hwf El Ep) as Hb.
    destruct (_pop_other_line _ _ _) as [[st2 other']| |]; simpl in E; try done.
    congruence.
  - unfold next_point in E.
    destruct (lm_map st !! LineMap_key point) as [lines|] eqn:El; [|done].
    destruct (list_pop lines) as [[line lines']|] eqn:Ep; [|done].
    pose proof (pop_other_line_fuel
      {| lm_heap := lm_heap st;
         lm_map := store_bucket (lm_map st) (LineMap_key point) lines' |}
      (LineMap_key point) line) as Hf.
    destruct (_pop_other_line _ _ _) as [[st2 other']| |]; simpl in E; done.
Qed.

Lemma iter_first_lookup pick m key lines :
  iter_first pick m = Some (key, lines) -> m !! key = Some lines.
Proof.
  unfold iter_first. intros H. apply list_elem_of_lookup_2 in H.
  by apply elem_of_map_to_list in H.
Qed.

Lemma take_line_safe pick st :
  well_formed st ->
  safe_step st (take_line pick st) (fun o => bool_decide (is_Some o)).
Proof.
  intros Hwf. unfold take_line.
  destruct (iter_first pick (lm_map st)) as [[key lines]|] eqn:Ei; [|done].
  apply iter_first_lookup in Ei.
  destruct (list_pop lines) as [[line lines']|] eqn:Ep; [|done].
  pose proof (pop_then_other_bound st _ _ _ _ Hwf Ei Ep) as Hb.
  pose proof (pop_other_line_fuel
    {| lm_heap := lm_heap st; lm_map := store_bucket (lm_map st) key lines' |}
    key line) as Hf.
  destruct (_pop_other_line _ _ _) as [[st2 other]| |] eqn:Eo; simpl; try done.
  - destruct (pop_then_other st _ _ _ _ _ _ Ei Ep Eo) as (Hh & Hr & Hv).
    destruct Hwf as [Hv0 Hk]. split; [|done]. split; [auto|]. by rewrite Hh.
  - congruence.
Qed.

Lemma heap_append_well_formed st path point :
  well_formed st -> well_formed (heap_append st path point).
Proof.
  intros [Hv Hk]. unfold well_formed, heap_append. simpl. split.
  - unfold ids_valid in *. by rewrite length_insert.
  - destruct (decide (path < length (lm_heap st))%nat) as [Hlt|Hge].
    + apply Forall_insert; [done|].
      destruct (heap_get_two_keys _ _ Hk Hlt) as (p & q & Hp & Hq & Hne).
      exists p, q. set_solver.
    + rewrite list_insert_ge by lia. done.
Qed.

Lemma heap_append_last st path point :
  (path < length (lm_heap st))%nat ->
  last (heap_get (lm_heap (heap_append st path point)) path) = Some point.
Proof.
  intros H. unfold heap_append, heap_get. simpl.
  rewrite list_lookup_insert_eq by done. simpl. apply last_snoc.
Qed.

(** *** The inner loop *)

Lemma extend_path_safe fuel st path point :
  well_formed st ->
  (registrations (lm_map st) < fuel)%nat ->
  match extend_path fuel st path point with
  | Ok st' =>
      well_formed st' /\
      (registrations (lm_map st') <= registrations (lm_map st))%nat
  | Raise e => e <> UnboundLocalError
  | OutOfFuel => False
  end.
Proof.
  revert st point. induction fuel as [|fuel IH]; intros st point Hwf Hfuel; [lia|].
  destruct point as [p|]; simpl; [|done].
  pose proof (next_point_safe (heap_append st path p) p
                (heap_append_well_formed st path p Hwf)) as Hs.
  destruct (next_point (heap_append st path p) p) as [[st' point']| |]; simpl in *;
    try done.
  destruct Hs as (Hwf' & Hheap & Hstep). destruct point' as [q|]; simpl in Hstep.
  - specialize (IH st' (Some q) Hwf' ltac:(lia)).
    destruct (extend_path fuel st' path (Some q)); try done.
    destruct IH. split; [done|lia].
  - subst st'. destruct fuel; simpl; done.
Qed.

(** When the inner loop ends, the map has no bucket under the key of the
    point appended last. *)
Lemma extend_path_end fuel st path p st' :
  (path < length (lm_heap st))%nat ->
  extend_path fuel st path (Some p) = Ok st' ->
  exists q, last (heap_get (lm_heap st') path) = Some q /\
            lm_map st' !! LineMap_key q = None.
Proof.
  revert st p. induction fuel as [|fuel IH]; intros st p Hpath H; simpl in H; [done|].
  destruct (next_point (heap_append st path p) p) as [[st1 point']| |] eqn:En;
    simpl in H; try done.
  destruct point' as [q|].
  - apply next_point_some in En as (Hh & _ & _).
    eapply IH; [|exact H]. rewrite Hh. unfold heap_append. simpl.
    by rewrite length_insert.
  - apply next_point_none in En as [-> Hnone].
    destruct fuel; simpl in H; injection H as <-;
      exists p; split; auto using heap_append_last.
Qed.

Section StitcherSafety.

(** *** One round of the outer loop *)

#[local] Arguments extend_path : simpl never.

Lemma build_path_safe pick st :
  well_formed st ->
  has_lines st = true ->
  match build_path pick st with
  | Ok (st', _) =>
      well_formed st' /\
      (registrations (lm_map st') < registrations (lm_map st))%nat
  | Raise e => e <> UnboundLocalError
  | OutOfFuel => False
  end.
Proof.
  intros Hwf _. unfold build_path.
  pose proof (take_line_safe pick st Hwf) as Ht.
  destruct (take_line pick st) as [[st1 taken]| |]; simpl in *; try done.
  destruct Ht as (Hwf1 & Hh1 & Hstep1).
  destruct taken as [path|]; simpl in Hstep1; [|done].
  destruct (last (heap_get (lm_heap st1) path)) as [end_point|]; [|done].
  pose proof (next_point_safe st1 end_point Hwf1) as Hn.
  destruct (next_point st1 end_point) as [[st2 point]| |]; simpl in *; try done.
  destruct Hn as (Hwf2 & Hh2 & Hstep2).
  pose proof (extend_path_safe (S (registrations (lm_map st2))) st2 path point Hwf2
                ltac:(lia)) as He.
  destruct (extend_path _ st2 path point) as [st3| |]; simpl in *; try done.
  destruct He as [Hwf3 Hr3]. split; [done|].
  destruct point; simpl in Hstep2; [lia|subst st2; lia].
Qed.

Lemma path_lines_loop_safe pick fuel st paths :
  well_formed st ->
  (registrations (lm_map st) < fuel)%nat ->
  match path_lines_loop pick fuel st paths with
  | Ok _ => True
  | Raise e => e <> UnboundLocalError
  | OutOfFuel => False
  end.
Proof.
  revert st paths. induction fuel as [|fuel IH]; intros st paths Hwf Hfuel; [lia|].
  simpl. destruct (has_lines st) eqn:Eh; [|done].
  pose proof (build_path_safe pick st Hwf Eh) as Hb.
  destruct (build_path pick st) as [[st' path]| |]; simpl; try done.
  destruct Hb as [Hwf' Hr]. apply IH; [done|lia].
Qed.

(** *** The initial state *)

Lemma register_points_valid heap m id line :
  (id < length heap)%nat -> ids_valid heap m ->
  ids_valid heap (register_points m id line).
Proof.
  intros Hid. revert m. induction line as [|p line IH]; intros m Hm; simpl; [done|].
  apply IH. unfold register. apply map_Forall_insert_2; [|done].
  apply Forall_app. split; [|by constructor].
  destruct (m !! LineMap_key p) as [lines|] eqn:E; simpl; [|done].
  exact (Hm _ _ E).
Qed.

Lemma init_loop_valid heap m id lines :
  (id + length lines <= length heap)%nat -> ids_valid heap m ->
  ids_valid heap (init_loop m id lines).
Proof.
  revert m id. induction lines as [|line lines IH]; intros m id Hid Hm; simpl in *;
    [done|].
  apply IH; [lia|]. apply register_points_valid; [lia|done].
Qed.

Lemma LineMap_init_well_formed lines :
  Forall two_keys lines -> well_formed (LineMap_init lines).
Proof.
  intros H. split; [|done]. simpl.
  apply init_loop_valid; [simpl; lia|]. apply map_Forall_empty.
Qed.

Lemma path_lines_safe pick lines :
  Forall two_keys lines ->
  match path_lines pick lines with
  | Ok _ => True
  | Raise e => e <> UnboundLocalError
  | OutOfFuel => False
  end.
Proof.
  intros H. unfold path_lines.
  pose proof (path_lines_loop_safe pick
    (S (registrations (lm_map (LineMap_init lines)))) (LineMap_init lines) []
    (LineMap_init_well_formed lines H) ltac:(lia)) as Hs.
  by destruct (path_lines_loop _ _ _ _) as [[st paths]| |].
Qed.

(** *** Emitted paths *)

(** C6, as the code has it. When a path is emitted, no unused segment is
    registered under the key of the path's last point.  Nothing of the kind
    holds for its first point: a path is only ever extended at its end. *)
Theorem emitted_path_ends_exhausted pick st st' path :
  build_path pick st = Ok (st', path) ->
  exists q, last (heap_get (lm_heap st') path) = Some q /\
            lm_map st' !! LineMap_key q = None.
Proof.
  unfold build_path.
  destruct (take_line pick st) as [[st1 [path1|]]| |]; simpl; try done.
  destruct (last (heap_get (lm_heap st1) path1)) as [end_point|] eqn:El; [|done].
  destruct (next_point st1 end_point) as [[st2 point]| |] eqn:En; simpl; try done.
  destruct (extend_path _ st2 path1 point) as [st3| |] eqn:Ee; simpl; try done.
  intros [= <- <-].
  assert (Hpath : (path1 < length (lm_heap st1))%nat).
  { apply lookup_lt_is_Some. unfold heap_get in El.
    destruct (lm_heap st1 !! path1); [done|]. done. }
  destruct point as [p|].
  - apply next_point_some in En as (Hh & _ & _).
    eapply extend_path_end; [|exact Ee]. by rewrite Hh.
  - apply next_point_none in En as [-> Hnone]. cbn in Ee. injection Ee as <-.
    by exists end_point.
Qed.

#[local] Arguments extend_path : simpl never.

(** ** Dependence on the iteration order

    Only the position chosen among the keys at hand matters. *)

Lemma override_same_choices pick ks0 i :
  (pick ks0 mod length ks0 = i)%nat -> same_choices pick (override pick ks0 i).
Proof.
  intros H ks. unfold override. destruct (decide (ks = ks0)) as [->|]; [|done].
  rewrite <- H. by rewrite Nat.Div0.mod_mod.
Qed.

Lemma same_choices_trans p1 p2 p3 :
  same_choices p1 p2 -> same_choices p2 p3 -> same_choices p1 p3.
Proof. intros H1 H2 ks. by rewrite H1. Qed.

Section Ext.
Variables pick pick' : list string -> nat.
Hypothesis Hsame : same_choices pick pick'.

Lemma iter_first_ext m : iter_first pick m = iter_first pick' m.
Proof.
  unfold iter_first. specialize (Hsame (map_to_list m).*1).
  rewrite length_fmap in Hsame. by rewrite Hsame.
Qed.

Lemma take_line_ext st : take_line pick st = take_line pick' st.
Proof. unfold take_line. by rewrite iter_first_ext. Qed.

Lemma build_path_ext st : build_path pick st = build_path pick' st.
Proof. unfold build_path. by rewrite take_line_ext. Qed.

Lemma path_lines_loop_ext fuel st paths :
  path_lines_loop pick fuel st paths = path_lines_loop pick' fuel st paths.
Proof.
  revert st paths. induction fuel as [|fuel IH]; intros st paths; simpl; [done|].
  destruct (has_lines st); [|done]. rewrite build_path_ext.
  destruct (build_path pick' st) as [[st' path]| |]; simpl; auto.
Qed.

Lemma path_lines_ext lines : path_lines pick lines = path_lines pick' lines.
Proof. unfold path_lines. by rewrite path_lines_loop_ext. Qed.

Lemma layer_loop_ext fuel fs z maxz thickness layer written paths_all :
  layer_loop pick fuel fs z maxz thickness layer written paths_all =
  layer_loop pick' fuel fs z maxz thickness layer written paths_all.
Proof.
  revert fs z layer written paths_all.
  induction fuel as [|fuel IH]; intros fs z layer written paths_all; simpl; [done|].
  destruct (Qle_bool z maxz); [|done].
  destruct (prune fs z) as [fs'| |]; simpl; try done.
  destruct (slice_shape_at fs' z) as [lines| |]; simpl; try done.
  rewrite path_lines_ext. destruct (path_lines pick' lines); simpl; auto.
Qed.

Lemma command_line_ext fuel facets thickness width height scale :
  command_line pick fuel facets thickness width height scale =
  command_line pick' fuel facets thickness width height scale.
Proof.
  unfold command_line.
  destruct (if truthy scale then _ else _) as [[[[[w h] minz] maxz] fs]| |];
    simpl; try done.
  destruct (z_sort_facets fs); simpl; try done.
  destruct (layer_count minz maxz thickness); simpl; try done.
  by rewrite layer_loop_ext.
Qed.
End Ext.

(** ** Emitted paths are not maximal chains *)

Lemma open_chain_keys :
  (map_to_list (lm_map (LineMap_init open_chain))).*1 = ["10.0,0.0"; "0.0,10.0"; "0.0,0.0"].
Proof. vm_compute. reflexivity. Qed.

Lemma open_chain_first_path i :
  (i < 3)%nat ->
  exists st path,
    build_path (fun _ => i) (LineMap_init open_chain) = Ok (st, path) /\
    is_Some (lm_map st !! LineMap_key (0, 0)) /\
    head (heap_get (lm_heap st) path) = Some (0, 0).
Proof.
  intros Hi. destruct i as [|[|[|i]]]; [| | |lia];
    eexists _, _; (split; [vm_compute; reflexivity|]);
    (split; [vm_compute; eexists; reflexivity|vm_compute; reflexivity]).
Qed.

(** C6 fails for the first point. For the two segments (0,0)-(10,0) and
    (0,0)-(0,10), the first path emitted is one of the two segments, and the
    other segment is still registered under the key of its first point. *)
Lemma first_point_not_exhausted :
  exists st path,
    build_path (fun _ => 0%nat) (LineMap_init open_chain) = Ok (st, path) /\
    ~ ends_exhausted st path.
Proof.
  destruct (open_chain_first_path 0 ltac:(lia)) as (st & path & H & [b Hb] & Hh).
  exists st, path. split; [done|]. intros He.
  specialize (He (0, 0) (or_introl Hh)). congruence.
Qed.

(** The same happens whatever the iteration order of the map. *)
Lemma first_point_not_exhausted_any_order pick :
  exists st path,
    build_path pick (LineMap_init open_chain) = Ok (st, path) /\
    ~ ends_exhausted st path.
Proof.
  set (ks := (map_to_list (lm_map (LineMap_init open_chain))).*1).
  set (i := (pick ks mod length ks)%nat).
  assert (Hi : (i < 3)%nat).
  { subst i. replace 3%nat with (length ks) by (subst ks; by rewrite open_chain_keys).
    apply Nat.mod_upper_bound. subst ks. by rewrite open_chain_keys. }
  assert (Hb : build_path pick (LineMap_init open_chain) =
               build_path (fun _ => i) (LineMap_init open_chain)).
  { unfold build_path, take_line, iter_first. fold ks.
    rewrite <- (length_fmap fst (map_to_list _)). fold ks. fold i.
    replace (length ks) with 3%nat by (subst ks; by rewrite open_chain_keys).
    by rewrite (Nat.mod_small i 3 Hi). }
  destruct (open_chain_first_path i Hi) as (st & path & H & [b Hlk] & Hh).
  exists st, path. split; [by rewrite Hb|]. intros He.
  specialize (He (0, 0) (or_introl Hh)). congruence.
Qed.

End StitcherSafety.

(** ** The other endpoint of a consumed segment *)

Lemma segment_keys_distinct_two_keys line :
  segment_keys_distinct line -> two_keys line.
Proof.
  intros (p & q & -> & H). exists p, q.
  split; [by left|]. split; [right; by left|done].
Qed.

Lemma point_segment_keys :
  (map_to_list (lm_map (LineMap_init point_segment))).*1 = ["0.0,0.0"].
Proof. vm_compute. reflexivity. Qed.

Lemma point_segment_unbound pick :
  path_lines pick point_segment = Raise UnboundLocalError.
Proof.
  rewrite (path_lines_ext pick (override pick ["0.0,0.0"] 0)).
  - vm_compute. reflexivity.
  - apply override_same_choices. cbn [length]. apply Nat.mod_1_r.
Qed.

(** C10. When the two endpoints of every input segment have distinct keys,
    [path_lines] never reaches the unbound [other_point] of
    [_pop_other_line] (and its loop ends); for some input with a segment whose
    endpoints share a key, [path_lines] raises [UnboundLocalError]. *)
Theorem other_endpoint_found (pick : list string -> nat) (lines : list Line) :
  Forall segment_keys_distinct lines ->
  (path_lines pick lines <> Raise UnboundLocalError /\
   path_lines pick lines <> OutOfFuel) /\
  exists bad : list Line,
    ~ Forall segment_keys_distinct bad /\
    path_lines pick bad = Raise UnboundLocalError.
Proof.
  intros H. split.
  - assert (Hk : Forall two_keys lines).
    { eapply Forall_impl; [exact H|]. apply segment_keys_distinct_two_keys. }
    pose proof (path_lines_safe pick lines Hk) as Hs.
    destruct (path_lines pick lines); split; congruence.
  - exists point_segment. split; [|apply point_segment_unbound].
    intros Hb. apply Forall_inv in Hb as (p & q & [= <- <-] & Hne). done.
Qed.

(** C10 at two joined segments. *)
Lemma other_endpoint_found_witness :
  (path_lines (fun _ => 0%nat) [[(0, 0); (10, 0)]; [(10, 0); (10, 10)]]
     <> Raise UnboundLocalError /\
   path_lines (fun _ => 0%nat) [[(0, 0); (10, 0)]; [(10, 0); (10, 10)]]
     <> OutOfFuel) /\
  exists bad : list Line,
    ~ Forall segment_keys_distinct bad /\
    path_lines (fun _ => 0%nat) bad = Raise UnboundLocalError.
Proof.
  apply (other_endpoint_found (fun _ => 0%nat) [[(0, 0); (10, 0)]; [(10, 0); (10, 10)]]).
  repeat constructor; eexists _, _; (split; [reflexivity|]); vm_compute; discriminate.
Defined.

(** ** Segments leaving the slicer *)

(** C5. The two endpoints of every segment returned by [slice_shape_at]
    have different keys, the key being [LineMap.key]: the two coordinates
    formatted to 10 significant digits and joined by a comma.  The segments
    of triangles have exactly two points, so the stitcher, which matches
    endpoints by the same key, never meets its unbound [other_point]. *)
Theorem sliced_segments_keys_differ (pick : list string -> nat)
    (facets : list IndexedFacet) (z : Q) (lines : list Line) :
  slice_shape_at facets z = Ok lines ->
  Forall (fun line => exists p0 p1 rest,
            line = p0 :: p1 :: rest /\
            LineMap_key p0 <> LineMap_key p1 /\
            LineMap_key p0 = format_g 10 p0.1 +:+ "," +:+ format_g 10 p0.2 /\
            LineMap_key p1 = format_g 10 p1.1 +:+ "," +:+ format_g 10 p1.2) lines /\
  (Forall indexed_triangle facets -> Forall segment_keys_distinct lines) /\
  path_lines pick lines <> Raise UnboundLocalError.
Proof.
  intros H. unfold slice_shape_at in H.
  assert (Hd : Forall distinct_ends lines)
    by (eapply slice_loop_distinct_ends; [|exact H]; constructor).
  split; [|split].
  - eapply Forall_impl; [exact Hd|].
    intros line (p0 & p1 & rest & -> & Hne). by exists p0, p1, rest.
  - intros Htri. destruct (slice_loop_triangles facets z [] Htri) as (out & Ho & Hlen).
    rewrite H in Ho. injection Ho as ->. simpl.
    rewrite Forall_forall in Hd, Hlen |- *. intros line Hin.
    destruct (Hd line Hin) as (p0 & p1 & rest & -> & Hne).
    specialize (Hlen _ Hin). destruct rest; [|done]. by exists p0, p1.
  - assert (Hk : Forall two_keys lines).
    { eapply Forall_impl; [exact Hd|]. apply distinct_ends_two_keys. }
    pose proof (path_lines_safe pick lines Hk) as Hs.
    destruct (path_lines pick lines); congruence.
Qed.

(** ** Layers written and layers returned *)

Lemma layer_loop_trace pick fuel fs z maxz thickness layer written paths_all
    written' paths_all' :
  layer_loop pick fuel fs z maxz thickness layer written paths_all
    = Ok (written', paths_all') ->
  exists new,
    written' = written ++ new /\
    paths_all' = paths_all ++ map (fun w => w.1.2) new /\
    map (fun w => w.2) new = seq layer (length new).
Proof.
  revert fs z layer written paths_all.
  induction fuel as [|fuel IH]; intros fs z layer written paths_all H; simpl in H.
  - destruct (Qle_bool z maxz); [done|]. injection H as <- <-.
    exists []. by rewrite !app_nil_r.
  - destruct (Qle_bool z maxz).
    + destruct (prune fs z) as [fs'| |]; simpl in H; try done.
      destruct (slice_shape_at fs' z) as [lines| |]; simpl in H; try done.
      destruct (path_lines pick lines) as [paths| |]; simpl in H; try done.
      apply IH in H as (new & -> & -> & Hseq).
      exists ((z, paths, layer) :: new). rewrite <- !app_assoc. simpl.
      by rewrite Hseq.
    + injection H as <- <-. exists []. by rewrite !app_nil_r.
Qed.

(** C9. A run of [command_line] that returns has written [n >= 1] layers,
    numbered 1..n, to the writer; the list it returns is the paths of the
    layers written without the first one, so it has [n - 1] elements. *)
Theorem returned_paths_skip_first_layer (pick : list string -> nat) (fuel : nat)
    (facets : list Facet) (thickness width height scale : Q)
    (writer : Writer) (returned : list (list Line)) :
  command_line pick fuel facets thickness width height scale = Ok (writer, returned) ->
  let n := length (w_written writer) in
  (1 <= n)%nat /\
  map (fun w => w.2) (w_written writer) = seq 1 n /\
  returned = tail (map (fun w => w.1.2) (w_written writer)) /\
  length returned = (n - 1)%nat.
Proof.
  unfold command_line. intros H.
  destruct (if truthy scale then _ else _) as [[[[[w h] minz] maxz] fs]| |];
    simpl in H; try done.
  destruct (z_sort_facets fs) as [sorted_fs| |]; simpl in H; try done.
  destruct (layer_count minz maxz thickness) as [layers| |]; simpl in H; try done.
  destruct (layer_loop _ _ _ _ _ _ _ _ _) as [[written paths_all]| |] eqn:El;
    simpl in H; try done.
  apply layer_loop_trace in El as (new & -> & -> & Hseq). simpl in *.
  destruct new as [|[[z1 paths1] l1] new]; simpl in H; [done|].
  injection H as <- <-. simpl in *.
  split; [lia|]. split; [done|]. split; [done|].
  rewrite length_map. lia.
Qed.

(** With no layer at all, [del paths_all[0]] fails. *)
Lemma command_line_no_layer pick fuel thickness :
  ~ thickness == 0 ->
  command_line pick fuel [] thickness 0 0 1 = Raise IndexError.
Proof.
  intros H. unfold command_line. simpl. unfold layer_count, pydiv.
  destruct (Qeq_bool thickness 0) eqn:E; [by apply Qeq_bool_iff in E|].
  simpl. by destruct fuel.
Qed.

(** ** Bounds and scale *)



(** ** Layer count *)

Lemma layer_count_from_zero maxz thickness :
  ~ thickness == 0 -> layer_count 0 maxz thickness = Ok (Qceiling (maxz - 0 / thickness)).
Proof. intros H. unfold layer_count. by rewrite pydiv_ok. Qed.

(** C2 fails. For [minz = 0], [maxz = 10] and thickness 5 the code computes
    [ceil(maxz - minz / thickness) = 10], not [ceil((maxz - minz) /
    thickness) = 2]; the cube run passes 10 to the writer and writes 3
    layers. *)
Theorem layer_count_cube :
  layer_count 0 10 5 = Ok 10%Z /\
  spec_layer_count 0 10 5 = 2%Z /\
  exists w ret,
    command_line (fun _ => 0%nat) 3 cube_facets 5 10 10 0 = Ok (w, ret) /\
    w_layers w = 10%Z /\ length (w_written w) = 3%nat.
Proof.
  split; [vm_compute; reflexivity|]. split; [vm_compute; reflexivity|].
  set (r := command_line (fun _ => 0%nat) 3 cube_facets 5 10 10 0).
  vm_compute in r. subst r. eexists _, _. split; [reflexivity|]. split; reflexivity.
Qed.

(** ** The cube scenario *)

(** C1 fails as stated. The cube run writes three layers, at Z = 0, 5 and
    10; their paths have 5 points, 9 points, and there is no path at all in
    the third. *)
Lemma cube_three_layers :
  exists w ret,
    command_line (fun _ => 0%nat) 3 cube_facets 5 10 10 0 = Ok (w, ret) /\
    layer_shapes (w_written w) = [(0, [5%nat]); (5, [9%nat]); (10, [])].
Proof.
  set (r := command_line (fun _ => 0%nat) 3 cube_facets 5 10 10 0).
  vm_compute in r. subst r. eexists _, _. split; reflexivity.
Qed.

(** The cube's layers for the choices [i0] and [i5] of the first key. *)
Lemma cube_run_result pick i0 i5 :
  (i0 < 4)%nat -> (i5 < 8)%nat ->
  cube_result (command_line (override (override pick keys_z0 i0) keys_z5 i5) 3
                 cube_facets 5 10 10 0).
Proof.
  intros H0 H5.
  assert (E0 : (i0 = 0 \/ i0 = 1 \/ i0 = 2 \/ i0 = 3)%nat) by lia.
  assert (E5 : (i5 = 0 \/ i5 = 1 \/ i5 = 2 \/ i5 = 3 \/
                i5 = 4 \/ i5 = 5 \/ i5 = 6 \/ i5 = 7)%nat) by lia.
  clear H0 H5.
  destruct E0 as [-> | [-> | [-> | ->]]];
  destruct E5 as [-> | [-> | [-> | [-> | [-> | [-> | [-> | ->]]]]]]];
  (set (r := command_line _ _ _ _ _ _ _); vm_compute in r; subst r;
   eexists _, _, _, _, _, _, _;
   split; [reflexivity|]; split; [reflexivity|];
   split; [repeat split; reflexivity|];
   split; [split; [reflexivity|vm_compute; reflexivity]|];
   split; [split; [reflexivity|vm_compute; reflexivity]|reflexivity]).
Qed.

(** More fuel does not change a finished run. *)
Lemma layer_loop_fuel_mono pick fuel k fs z maxz thickness layer written paths_all r :
  layer_loop pick fuel fs z maxz thickness layer written paths_all = Ok r ->
  layer_loop pick (fuel + k) fs z maxz thickness layer written paths_all = Ok r.
Proof.
  revert fs z layer written paths_all.
  induction fuel as [|fuel IH]; intros fs z layer written paths_all H; simpl in H.
  - destruct (Qle_bool z maxz) eqn:E; [done|].
    destruct k; simpl; by rewrite E.
  - simpl. destruct (Qle_bool z maxz); [|done].
    destruct (prune fs z) as [fs'| |]; simpl in *; try done.
    destruct (slice_shape_at fs' z) as [lines| |]; simpl in *; try done.
    destruct (path_lines pick lines) as [paths| |]; simpl in *; try done.
    by apply IH.
Qed.

Lemma command_line_fuel_mono pick fuel k facets thickness width height scale r :
  command_line pick fuel facets thickness width height scale = Ok r ->
  command_line pick (fuel + k) facets thickness width height scale = Ok r.
Proof.
  unfold command_line.
  destruct (if truthy scale then _ else _) as [[[[[w h] minz] maxz] fs]| |];
    simpl; try done.
  destruct (z_sort_facets fs); simpl; try done.
  destruct (layer_count minz maxz thickness); simpl; try done.
  destruct (layer_loop pick fuel _ _ _ _ _ _ _) as [[written paths_all]| |] eqn:E;
    simpl; try done.
  by rewrite (layer_loop_fuel_mono _ _ k _ _ _ _ _ _ _ _ E).
Qed.

(** C1, as the code has it. Whatever the iteration order of the endpoint
    map, the cube run makes three layer iterations, at Z = 0, 5 and 10.  The
    layer at Z = 0 is one closed path around the four corners (5 points, the
    start repeated at the end); the layer at Z = 5 is one closed path through
    the corners and the edge midpoints (9 points); the layer at Z = 10 has no
    path.  The list returned holds layers 2 and 3. *)
Theorem cube_layers (pick : list string -> nat) (k : nat) :
  cube_result (command_line pick (3 + k) cube_facets 5 10 10 0).
Proof.
  set (i0 := (pick keys_z0 mod length keys_z0)%nat).
  set (i5 := (pick keys_z5 mod length keys_z5)%nat).
  assert (H : cube_result (command_line pick 3 cube_facets 5 10 10 0)); last first.
  { destruct H as (w & ret & z0 & z1 & z2 & path0 & path5 & Hr & H).
    exists w, ret, z0, z1, z2, path0, path5. split; [|done].
    by apply command_line_fuel_mono. }
  rewrite (command_line_ext pick (override (override pick keys_z0 i0) keys_z5 i5)).
  - apply cube_run_result; apply Nat.mod_upper_bound; discriminate.
  - apply (same_choices_trans _ (override pick keys_z0 i0)).
    + apply override_same_choices. reflexivity.
    + apply override_same_choices. unfold override.
      destruct (decide (keys_z5 = keys_z0)) as [E|_]; [|reflexivity].
      apply (f_equal length) in E. vm_compute in E. discriminate E.
Qed.

Module StlFacts.
Import Stl StlGrammar.

Section Loader.

Variable pyfloat : string -> option Q.

Lemma read_vertex_ok l v :
read_vertex pyfloat (strip l) = Ok v <-> vertex_line pyfloat l v.
Proof.
unfold read_vertex, vertex_line. destruct (split (strip l)) as [|part0 nums].
- split; [done|]. by intros (nums & ? & _).
- destruct (String.eqb part0 "vertex") eqn:E; simpl.
+ apply String.eqb_eq in E as ->. split; [by exists nums|].
  by intros (nums' & [= <-] & H).
+ apply String.eqb_neq in E. split; [done|]. intros (nums' & [= ? ?] & _). done.
Qed.

Lemma vertex_line_not_endloop l v :
vertex_line pyfloat l v -> String.eqb (strip l) "endloop" = false.
Proof.
intros (nums & H & _). apply String.eqb_neq. intros E. rewrite E in H. done.
Qed.

Lemma vertex_loop_unfold fuel f line facet :
vertex_loop pyfloat fuel f line facet =
if String.eqb line "endloop" then Ok (facet, f) else
match fuel with
| O => OutOfFuel
| S fuel' =>
  v ← read_vertex pyfloat line;
  let '(next, f') := readline f in
  vertex_loop pyfloat fuel' f' (strip next) (facet ++ [v])
end.
Proof. by destruct fuel. Qed.




#[local] Arguments vertex_loop : simpl never.



End Loader.
End StlFacts.

Module StlLoader.
Import Stl StlGrammar StlFacts.

Section Loader.

Variable pyfloat : string -> option Q.






#[local] Arguments facet_loop : simpl never.










End Loader.
End StlLoader.

Module StlErrors.
Import Stl StlGrammar StlFacts StlLoader.

Section Errors.

Variable pyfloat : string -> option Q.








End Errors.

Section Outcome.

Variable pyfloat : string -> option Q.



(** *** A line that is not a vertex line *)







(** *** The vertex loop on a stream of lines *)





(** *** One facet block *)




(** *** The facet loop on a stream of lines *)






(** *** The whole file *)





End Outcome.



End StlErrors.

(** ** Instances *)


(** C3 at the sorted facets of the cube, for [z = z' = 5]. *)
Lemma pruning_preserves_slices_witness :
  exists fs,
    z_sort_facets cube_facets = Ok fs /\
    exists dropped kept,
      fs = dropped ++ kept /\
      Forall (fun f => maxz_of f < 5 /\ slice_shape_at [f] 5 = Ok []) dropped /\
      Forall (fun f => 5 <= maxz_of f) kept /\
      (prune fs 5 = Ok kept \/ kept = [] /\ prune fs 5 = Raise IndexError) /\
      slice_shape_at kept 5 = slice_shape_at fs 5.
Proof.
  eexists. split; [vm_compute; reflexivity|].
  assert (Hlen : Forall (fun f : Facet => length f = 3%nat) cube_facets)
    by (repeat constructor).
  apply pruning_preserves_slices.
  - eapply (z_sort_facets_sorted cube_facets); [exact Hlen|vm_compute; reflexivity].
  - eapply (z_sort_facets_sorted cube_facets); [exact Hlen|vm_compute; reflexivity].
  - discriminate.
Defined.

(** C5 at a triangle crossing the plane [z = 5]. *)
Lemma sliced_segments_keys_differ_witness :
  exists lines,
    slice_shape_at [(10, 0, [(0, 0, 0); (10, 0, 0); (10, 0, 10)])] 5 = Ok lines /\
    Forall segment_keys_distinct lines /\
    path_lines (fun _ => 0%nat) lines <> Raise UnboundLocalError.
Proof.
  eexists. split; [vm_compute; reflexivity|].
  edestruct (sliced_segments_keys_differ (fun _ => 0%nat)
               [(10, 0, [(0, 0, 0); (10, 0, 0); (10, 0, 10)])] 5)
    as (_ & Hseg & Hsafe); [vm_compute; reflexivity|].
  split; [|exact Hsafe]. apply Hseg.
  constructor; [|constructor]. by exists (0, 0, 0), (10, 0, 0), (10, 0, 10).
Defined.

(** C6 at the first path of the open chain. *)
Lemma emitted_path_ends_exhausted_witness :
  exists st path q,
    build_path (fun _ => 0%nat) (LineMap_init open_chain) = Ok (st, path) /\
    last (heap_get (lm_heap st) path) = Some q /\
    lm_map st !! LineMap_key q = None.
Proof.
  destruct (open_chain_first_path 0 ltac:(lia)) as (st & path & H & _).
  destruct (emitted_path_ends_exhausted _ _ _ _ H) as (q & Hq & Hnone).
  exists st, path, q. split; [exact H|]. split; [exact Hq|exact Hnone].
Defined.

(** The cube run with the first key always chosen writes three layers. *)
Lemma cube_default_run :
  exists w ret,
    command_line (fun _ => 0%nat) 3 cube_facets 5 10 10 0 = Ok (w, ret) /\
    length (w_written w) = 3%nat.
Proof.
  set (r := command_line (fun _ => 0%nat) 3 cube_facets 5 10 10 0).
  vm_compute in r. subst r. eexists _, _. split; reflexivity.
Qed.

(** C9 at the cube run. *)
Lemma returned_paths_skip_first_layer_witness :
  exists writer returned,
    command_line (fun _ => 0%nat) 3 cube_facets 5 10 10 0 = Ok (writer, returned) /\
    length (w_written writer) = 3%nat /\
    map (fun w => w.2) (w_written writer) = [1; 2; 3]%nat /\
    returned = tail (map (fun w => w.1.2) (w_written writer)).
Proof.
  destruct cube_default_run as (writer & returned & H & Hlen).
  destruct (returned_paths_skip_first_layer _ _ _ _ _ _ _ _ _ H) as (_ & Hseq & Hret & _).
  exists writer, returned. split; [exact H|].
  split; [exact Hlen|]. split; [|exact Hret]. rewrite Hseq, Hlen. reflexivity.
Defined.


(** ** The bounding cube *)

Lemma fold_bound_point l minx maxx miny maxy minz maxz :
  fold_left bound_point l (minx, maxx, miny, maxy, minz, maxz) =
  (fold_min X3 l minx, fold_max X3 l maxx,
   fold_min Y3 l miny, fold_max Y3 l maxy,
   fold_min Z3 l minz, fold_max Z3 l maxz).
Proof.
  revert minx maxx miny maxy minz maxz.
  induction l as [|p l IH]; intros; [reflexivity|].
  simpl. apply IH.
Qed.

Lemma bounding_cube_concat facets :
  bounding_cube facets =
  fold_left bound_point (concat facets) (99999, -99999, 99999, -99999, 99999, -99999).
Proof.
  unfold bounding_cube. generalize (99999, -99999, 99999, -99999, 99999, -99999).
  induction facets as [|f facets IH]; intros acc; [reflexivity|].
  simpl. rewrite fold_left_app. apply IH.
Qed.

Lemma fold_min_spec f l acc :
  fold_min f l acc <= acc /\
  (forall p, p ∈ l -> fold_min f l acc <= f p) /\
  attained l f (fold_min f l acc) acc.
Proof.
  unfold attained. revert acc. induction l as [|q l IH]; intros acc.
  - split; [apply Qle_refl|]. split; [|by left]. intros p Hp. by apply elem_of_nil in Hp.
  - change (fold_min f (q :: l) acc) with (fold_min f l (pymin acc (f q))).
    destruct (IH (pymin acc (f q))) as (Hacc & Hall & Hatt).
    pose proof (pymin_le_l acc (f q)). pose proof (pymin_le_r acc (f q)).
    split; [lra|]. split.
    + intros p [->|Hp]%elem_of_cons; [lra|by apply Hall].
    + destruct Hatt as [Hatt|(p & Hp & Hatt)].
      * rewrite Hatt. unfold pymin. destruct (Qltb (f q) acc); [|by left].
        right. exists q. split; [apply list_elem_of_here|done].
      * right. exists p. split; [by apply list_elem_of_further|done].
Qed.

Lemma fold_max_spec f l acc :
  acc <= fold_max f l acc /\
  (forall p, p ∈ l -> f p <= fold_max f l acc) /\
  attained l f (fold_max f l acc) acc.
Proof.
  unfold attained. revert acc. induction l as [|q l IH]; intros acc.
  - split; [apply Qle_refl|]. split; [|by left]. intros p Hp. by apply elem_of_nil in Hp.
  - change (fold_max f (q :: l) acc) with (fold_max f l (pymax acc (f q))).
    destruct (IH (pymax acc (f q))) as (Hacc & Hall & Hatt).
    pose proof (pymax_ge_l acc (f q)). pose proof (pymax_ge_r acc (f q)).
    split; [lra|]. split.
    + intros p [->|Hp]%elem_of_cons; [lra|by apply Hall].
    + destruct Hatt as [Hatt|(p & Hp & Hatt)].
      * rewrite Hatt. unfold pymax. destruct (Qltb acc (f q)); [|by left].
        right. exists q. split; [apply list_elem_of_here|done].
      * right. exists p. split; [by apply list_elem_of_further|done].
Qed.

Lemma bounding_cube_folds facets :
  bounding_cube facets =
  (fold_min X3 (concat facets) 99999, fold_max X3 (concat facets) (-99999),
   fold_min Y3 (concat facets) 99999, fold_max Y3 (concat facets) (-99999),
   fold_min Z3 (concat facets) 99999, fold_max Z3 (concat facets) (-99999)).
Proof. by rewrite bounding_cube_concat, fold_bound_point. Qed.

(** Every point lies within the bounds. *)
Lemma bounding_cube_points facets minx maxx miny maxy minz maxz p :
  bounding_cube facets = (minx, maxx, miny, maxy, minz, maxz) ->
  p ∈ concat facets ->
  minx <= X3 p <= maxx /\ miny <= Y3 p <= maxy /\ minz <= Z3 p <= maxz.
Proof.
  rewrite bounding_cube_folds. intros [= <- <- <- <- <- <-] Hp.
  repeat split;
    first [by apply (fold_min_spec _ (concat facets)) | by apply (fold_max_spec _ (concat facets))].
Qed.

(** X1. The six values [bounding_cube] returns bound every point of every
    facet, each minimum is at most 99999 and each maximum at least -99999
    (the start values), and each value is the coordinate of some point of the
    mesh or the start value itself. *)
Theorem bounding_cube_spec (facets : list Facet) (minx maxx miny maxy minz maxz : Q) :
  bounding_cube facets = (minx, maxx, miny, maxy, minz, maxz) ->
  let points := concat facets in
  (forall p, p ∈ points ->
     minx <= X3 p <= maxx /\ miny <= Y3 p <= maxy /\ minz <= Z3 p <= maxz) /\
  (minx <= 99999 /\ miny <= 99999 /\ minz <= 99999 /\
   -99999 <= maxx /\ -99999 <= maxy /\ -99999 <= maxz) /\
  attained points X3 minx 99999 /\ attained points X3 maxx (-99999) /\
  attained points Y3 miny 99999 /\ attained points Y3 maxy (-99999) /\
  attained points Z3 minz 99999 /\ attained points Z3 maxz (-99999).
Proof.
  rewrite bounding_cube_folds. intros [= <- <- <- <- <- <-] points.
  destruct (fold_min_spec X3 points 99999) as (? & ? & ?).
  destruct (fold_min_spec Y3 points 99999) as (? & ? & ?).
  destruct (fold_min_spec Z3 points 99999) as (? & ? & ?).
  destruct (fold_max_spec X3 points (-99999)) as (? & ? & ?).
  destruct (fold_max_spec Y3 points (-99999)) as (? & ? & ?).
  destruct (fold_max_spec Z3 points (-99999)) as (? & ? & ?).
  split; [|split; [|done]].
  - intros p Hp. repeat split; auto.
  - repeat split; assumption.
Qed.

(** X1 at the cube and its corner (10, 0, 10). *)
Lemma bounding_cube_spec_witness :
  bounding_cube cube_facets = (0, 10, 0, 10, 0, 10) /\
  (0 <= X3 (10, 0, 10) <= 10 /\ 0 <= Y3 (10, 0, 10) <= 10 /\ 0 <= Z3 (10, 0, 10) <= 10).
Proof.
  assert (H : bounding_cube cube_facets = (0, 10, 0, 10, 0, 10))
    by (vm_compute; reflexivity).
  split; [exact H|].
  apply (proj1 (bounding_cube_spec cube_facets 0 10 0 10 0 10 H)).
  apply list_elem_of_In. vm_compute. tauto.
Defined.

(** X2. The start values of [bounding_cube] are not neutral: when every
    point of the mesh has its X above 99999 the minimum returned is 99999,
    the coordinate of no point, and when every X is below -99999 the maximum
    returned is -99999; likewise for Y and Z. *)
Theorem bounding_cube_start_values (facets : list Facet)
    (minx maxx miny maxy minz maxz : Q) :
  bounding_cube facets = (minx, maxx, miny, maxy, minz, maxz) ->
  let points := concat facets in
  ((forall p, p ∈ points -> 99999 < X3 p) -> minx = 99999) /\
  ((forall p, p ∈ points -> 99999 < Y3 p) -> miny = 99999) /\
  ((forall p, p ∈ points -> 99999 < Z3 p) -> minz = 99999) /\
  ((forall p, p ∈ points -> X3 p < -99999) -> maxx = -99999) /\
  ((forall p, p ∈ points -> Y3 p < -99999) -> maxy = -99999) /\
  ((forall p, p ∈ points -> Z3 p < -99999) -> maxz = -99999).
Proof.
  rewrite bounding_cube_folds. intros [= <- <- <- <- <- <-] points.
  destruct (fold_min_spec X3 points 99999) as (? & _ & Ha).
  destruct (fold_min_spec Y3 points 99999) as (? & _ & Hc).
  destruct (fold_min_spec Z3 points 99999) as (? & _ & He).
  destruct (fold_max_spec X3 points (-99999)) as (? & _ & Hb).
  destruct (fold_max_spec Y3 points (-99999)) as (? & _ & Hd).
  destruct (fold_max_spec Z3 points (-99999)) as (? & _ & Hf).
  repeat split; intros Hall;
    [destruct Ha as [?|(p & Hp & E)] | destruct Hc as [?|(p & Hp & E)]
    |destruct He as [?|(p & Hp & E)] | destruct Hb as [?|(p & Hp & E)]
    |destruct Hd as [?|(p & Hp & E)] | destruct Hf as [?|(p & Hp & E)]];
    try done; specialize (Hall p Hp); rewrite E in *; lra.
Qed.

(** X2 at a triangle lying above 99999. *)
Lemma bounding_cube_start_values_witness :
  exists maxx miny maxy minz maxz,
    bounding_cube far_facets = (99999, maxx, miny, maxy, minz, maxz) /\
    Forall (fun p => 99999 < X3 p) (concat far_facets).
Proof.
  assert (Hall : Forall (fun p => 99999 < X3 p) (concat far_facets))
    by (repeat constructor).
  destruct (bounding_cube far_facets) as [[[[[minx maxx] miny] maxy] minz] maxz] eqn:H.
  exists maxx, miny, maxy, minz, maxz. split; [|exact Hall].
  rewrite (proj1 (bounding_cube_start_values far_facets _ _ _ _ _ _ H)); [reflexivity|].
  intros p Hp. by apply (proj1 (Forall_forall _ _) Hall).
Defined.

(** ** Scaling *)

Lemma truthy_false x : truthy x = false <-> x == 0.
Proof.
  unfold truthy. destruct (Qeq_bool x 0) eqn:E; simpl.
  - apply Qeq_bool_iff in E. done.
  - apply Qeq_bool_neq in E. split; [done|]. intros H. by destruct E.
Qed.

Lemma truthy_true x : truthy x = true <-> ~ x == 0.
Proof.
  pose proof (truthy_false x). destruct (truthy x); split; try done.
  - intros _ H'. apply H in H'. done.
  - intros H'. destruct H'. by apply H.
Qed.

(** X3. Without an explicit scale, and for a mesh whose extents in X and Y
    are not zero, [scale_to_fit] returns the requested width and height,
    swapped when the longer side would otherwise go with the shorter extent,
    and a Z range that starts at 0.  The scale it applies is one of the two
    ratios width / extent in X and height / extent in Y: the smaller one,
    unless the larger one passes the test [scale * xsize <= width and
    scale * ysize <= height] of the code.  Every point is moved by the lower
    corner of the bounding cube and multiplied by that scale. *)
Theorem scale_to_fit_ratio (facets : list Facet) (width height scale : Q)
    (minx maxx miny maxy minz maxz : Q) :
  bounding_cube facets = (minx, maxx, miny, maxy, minz, maxz) ->
  truthy scale = false ->
  ~ maxx - minx == 0 -> ~ maxy - miny == 0 ->
  exists w h s,
    scale_to_fit facets width height scale =
      Ok (w, h, 0, (maxz - minz) * s, map (map (scale_point minx miny minz s)) facets) /\
    ((w, h) = (width, height) \/ (w, h) = (height, width)) /\
    same_orientation w h (maxx - minx) (maxy - miny) /\
    (s = w / (maxx - minx) \/ s = h / (maxy - miny)) /\
    ((s <= w / (maxx - minx) /\ s <= h / (maxy - miny)) \/
     (s * (maxx - minx) <= w /\ s * (maxy - miny) <= h)).
Proof.
  intros Hb Hs Hx Hy. unfold scale_to_fit. rewrite Hb, Hs.
  set (xsize := maxx - minx) in *. set (ysize := maxy - miny) in *.
  assert (Hwh : exists w h,
    (if (Qltb height width && Qltb xsize ysize) || (Qltb width height && Qltb ysize xsize)
     then (height, width) else (width, height)) = (w, h) /\
    ((w, h) = (width, height) \/ (w, h) = (height, width)) /\
    same_orientation w h xsize ysize).
  { unfold same_orientation.
    destruct (Qltb height width) eqn:E1; destruct (Qltb xsize ysize) eqn:E2;
    destruct (Qltb width height) eqn:E3; destruct (Qltb ysize xsize) eqn:E4; simpl;
    eexists _, _; (split; [reflexivity|]); (split; [by auto|]);
    rewrite ?Qltb_lt, ?Qltb_ge in *; split; intros [? ?]; lra. }
  destruct Hwh as (w & h & -> & Hor & Hsame).
  rewrite (pydiv_ok w xsize) by done. cbn [mbind result_bind].
  rewrite (pydiv_ok h ysize) by done. cbn [mbind result_bind].
  set (sx := w / xsize) in *. set (sy := h / ysize) in *.
  destruct (Qltb sx sy) eqn:E.
  - apply Qltb_lt in E.
    destruct (Qle_bool (sy * xsize) w && Qle_bool (sy * ysize) h) eqn:Et.
    + apply andb_true_iff in Et as [Et1 Et2]. apply Qle_bool_iff in Et1, Et2.
      exists w, h, sy. split; [reflexivity|]. split; [exact Hor|]. split; [exact Hsame|].
      split; [by right|]. right. by split.
    + exists w, h, sx. split; [reflexivity|]. split; [exact Hor|]. split; [exact Hsame|].
      split; [by left|]. left. split; [apply Qle_refl|by apply Qlt_le_weak].
  - apply Qltb_ge in E.
    destruct (Qle_bool (sx * xsize) w && Qle_bool (sx * ysize) h) eqn:Et.
    + apply andb_true_iff in Et as [Et1 Et2]. apply Qle_bool_iff in Et1, Et2.
      exists w, h, sx. split; [reflexivity|]. split; [exact Hor|]. split; [exact Hsame|].
      split; [by left|]. right. by split.
    + exists w, h, sy. split; [reflexivity|]. split; [exact Hor|]. split; [exact Hsame|].
      split; [by right|]. left. split; [exact E|apply Qle_refl].
Qed.

(** X3 at the cube, to be fitted into 20 by 10. *)
Lemma scale_to_fit_ratio_witness :
  exists w h s,
    scale_to_fit cube_facets 20 10 0 =
      Ok (w, h, 0, (10 - 0) * s, map (map (scale_point 0 0 0 s)) cube_facets) /\
    ((w, h) = (20, 10) \/ (w, h) = (10, 20)) /\
    same_orientation w h (10 - 0) (10 - 0) /\
    (s = w / (10 - 0) \/ s = h / (10 - 0)) /\
    ((s <= w / (10 - 0) /\ s <= h / (10 - 0)) \/
     (s * (10 - 0) <= w /\ s * (10 - 0) <= h)).
Proof.
  apply (scale_to_fit_ratio cube_facets 20 10 0 0 10 0 10 0 10).
  - vm_compute. reflexivity.
  - reflexivity.
  - discriminate.
  - discriminate.
Defined.

Lemma scaled_points facets minx miny minz s p' :
  p' ∈ concat (map (map (scale_point minx miny minz s)) facets) ->
  exists p, p ∈ concat facets /\ p' = scale_point minx miny minz s p.
Proof.
  rewrite <- concat_map. intros H. apply list_elem_of_In, in_map_iff in H.
  destruct H as (p & <- & Hp). exists p. split; [by apply list_elem_of_In|done].
Qed.

(** X4. With an explicit positive scale, [scale_to_fit] ignores the width
    and height asked for and returns the model's extents in X and Y times the
    scale; every coordinate of the scaled mesh is at least 0 and at most the
    returned width (X), height (Y) and top height (Z). *)
Theorem scale_to_fit_scaled (facets : list Facet) (width height scale : Q)
    (minx maxx miny maxy minz maxz : Q) :
  bounding_cube facets = (minx, maxx, miny, maxy, minz, maxz) ->
  0 < scale ->
  exists scaled,
    scale_to_fit facets width height scale =
      Ok ((maxx - minx) * scale, (maxy - miny) * scale, 0, (maxz - minz) * scale, scaled) /\
    map length scaled = map length facets /\
    forall p, p ∈ concat scaled ->
      0 <= X3 p <= (maxx - minx) * scale /\
      0 <= Y3 p <= (maxy - miny) * scale /\
      0 <= Z3 p <= (maxz - minz) * scale.
Proof.
  intros Hb Hs. unfold scale_to_fit. rewrite Hb.
  assert (Ht : truthy scale = true) by (apply truthy_true; lra). rewrite Ht.
  destruct (if _ || _ then (height, width) else (width, height)) as [w h].
  cbn [mbind result_bind]. eexists. split; [reflexivity|]. split.
  - rewrite map_map. apply map_ext. intros f. apply length_map.
  - intros p' (p & Hp & ->)%scaled_points.
    destruct (bounding_cube_points _ _ _ _ _ _ _ _ Hb Hp) as ((? & ?) & (? & ?) & (? & ?)).
    unfold scale_point; cbn [X3 Y3 Z3 fst snd]. repeat split; nra.
Qed.

(** X4 at the cube, scaled by 2. *)
Lemma scale_to_fit_scaled_witness :
  exists scaled,
    scale_to_fit cube_facets 0 0 2 =
      Ok ((10 - 0) * 2, (10 - 0) * 2, 0, (10 - 0) * 2, scaled) /\
    map length scaled = map length cube_facets /\
    forall p, p ∈ concat scaled ->
      0 <= X3 p <= (10 - 0) * 2 /\
      0 <= Y3 p <= (10 - 0) * 2 /\
      0 <= Z3 p <= (10 - 0) * 2.
Proof.
  apply (scale_to_fit_scaled cube_facets 0 0 2 0 10 0 10 0 10).
  - vm_compute. reflexivity.
  - reflexivity.
Defined.

(** ** The Z-ordered facet index *)

Lemma insert_sorted_perm x l : insert_sorted x l ≡ₚ x :: l.
Proof.
  induction l as [|h l IH]; simpl; [done|].
  destruct (ifacet_ltb x h); [done|]. rewrite IH. apply Permutation_swap.
Qed.

Lemma sorted_perm l : sorted l ≡ₚ l.
Proof.
  unfold sorted. rewrite <- (app_nil_r l) at 2. generalize (@nil IndexedFacet).
  induction l as [|x l IH]; intros acc; simpl; [done|].
  rewrite IH, insert_sorted_perm. by rewrite Permutation_middle.
Qed.

Lemma index_facet_ok f :
  (3 <= length f)%nat ->
  exists x, index_facet f = Ok x /\ x.2 = f /\ z_bounded x.
Proof.
  destruct f as [|p0 [|p1 [|p2 rest]]]; simpl; try lia. intros _.
  eexists. split; [reflexivity|]. split; [reflexivity|].
  intros p Hp. cbn [take snd fst] in *.
  pose proof (pymax_ge_l (pymax (Z3 p0) (Z3 p1)) (Z3 p2)).
  pose proof (pymax_ge_r (pymax (Z3 p0) (Z3 p1)) (Z3 p2)).
  pose proof (pymax_ge_l (Z3 p0) (Z3 p1)). pose proof (pymax_ge_r (Z3 p0) (Z3 p1)).
  pose proof (pymin_le_l (pymin (Z3 p0) (Z3 p1)) (Z3 p2)).
  pose proof (pymin_le_r (pymin (Z3 p0) (Z3 p1)) (Z3 p2)).
  pose proof (pymin_le_l (Z3 p0) (Z3 p1)). pose proof (pymin_le_r (Z3 p0) (Z3 p1)).
  repeat (apply elem_of_cons in Hp as [->|Hp]; [lra|]).
  by apply elem_of_nil in Hp.
Qed.

Lemma index_facet_short f : (length f < 3)%nat -> index_facet f = Raise IndexError.
Proof. destruct f as [|p0 [|p1 [|p2 rest]]]; simpl; try done. lia. Qed.

Lemma index_facet_error f e : index_facet f = Raise e -> e = IndexError.
Proof.
  unfold index_facet.
  destruct (f !! 0%nat), (f !! 1%nat), (f !! 2%nat); congruence.
Qed.

Lemma index_facets_ok facets :
  Forall (fun f => (3 <= length f)%nat) facets ->
  exists xs, index_facets facets = Ok xs /\ map snd xs = facets /\ Forall z_bounded xs.
Proof.
  induction 1 as [|f facets Hf _ IH]; simpl.
  - by exists [].
  - destruct IH as (xs & -> & Hxs & Hb).
    destruct (index_facet_ok f Hf) as (x & -> & Hx & Hbx). simpl.
    exists (x :: xs). simpl. rewrite Hx, Hxs. split; [done|]. split; [done|].
    by constructor.
Qed.

Lemma index_facets_short facets :
  Exists (fun f => (length f < 3)%nat) facets -> index_facets facets = Raise IndexError.
Proof.
  induction 1 as [f facets Hf|f facets _ IH]; simpl.
  - by rewrite index_facet_short.
  - destruct (index_facet f) as [x|e|] eqn:E; simpl.
    + by rewrite IH.
    + by rewrite (index_facet_error _ _ E).
    + unfold index_facet in E.
      destruct (f !! 0%nat), (f !! 1%nat), (f !! 2%nat); congruence.
Qed.

(** X5. When every facet has at least three points, [z_sort_facets] returns
    the facets, each once, in ascending order of the maximum Z with which it
    is annotated, and the annotation bounds the Z of the facet's first three
    points; when some facet has fewer than three points it raises
    [IndexError]. *)
Theorem z_sort_facets_spec (facets : list Facet) :
  (Forall (fun f => (3 <= length f)%nat) facets ->
   exists fs, z_sort_facets facets = Ok fs /\
     sorted_by_maxz fs /\ map snd fs ≡ₚ facets /\ Forall z_bounded fs) /\
  (Exists (fun f => (length f < 3)%nat) facets ->
   z_sort_facets facets = Raise IndexError).
Proof.
  unfold z_sort_facets. split.
  - intros H. destruct (index_facets_ok facets H) as (xs & -> & Hxs & Hb). simpl.
    exists (sorted xs). split; [done|].
    split; [apply (sorted_spec_acc xs []); constructor|].
    split.
    + rewrite <- Hxs. apply Permutation_map, sorted_perm.
    + eapply Permutation_Forall; [symmetry; apply sorted_perm|done].
  - intros H. by rewrite index_facets_short.
Qed.

(** ** The driver: failures before the first layer *)

Lemma scale_to_fit_cases facets width height scale :
  (exists w h maxz f,
     scale_to_fit facets width height scale = Ok (w, h, 0, maxz, map (map f) facets)) \/
  scale_to_fit facets width height scale = Raise ZeroDivisionError.
Proof.
  unfold scale_to_fit.
  destruct (bounding_cube facets) as [[[[[minx maxx] miny] maxy] minz] maxz].
  destruct (if _ || _ then (height, width) else (width, height)) as [w h].
  destruct (truthy scale).
  - left. by eexists _, _, _, _.
  - unfold pydiv. destruct (Qeq_bool (maxx - minx) 0); [by right|].
    cbn [mbind result_bind]. destruct (Qeq_bool (maxy - miny) 0); [by right|].
    cbn [mbind result_bind]. left.
    destruct (Qltb _ _); destruct (_ && _); by eexists _, _, _, _.
Qed.

Lemma scaled_input_cases facets width height scale :
  (exists w h maxz f,
     scaled_input facets width height scale = Ok (w, h, 0, maxz, map (map f) facets)) \/
  scaled_input facets width height scale = Raise ZeroDivisionError.
Proof. unfold scaled_input. destruct (truthy scale); apply scale_to_fit_cases. Qed.

Lemma scaled_lengths (f : Point3 -> Point3) facets (P : nat -> Prop) :
  Forall (fun facet => P (length facet)) facets ->
  Forall (fun facet => P (length facet)) (map (map f) facets).
Proof.
  intros H. apply Forall_forall. intros x Hx.
  apply list_elem_of_In, in_map_iff in Hx as (y & <- & Hy). rewrite length_map.
  rewrite Forall_forall in H. apply H. by apply list_elem_of_In.
Qed.

Lemma index_facets_error facets :
  (exists xs, index_facets facets = Ok xs) \/ index_facets facets = Raise IndexError.
Proof.
  induction facets as [|f facets IH]; simpl; [left; by eexists|].
  destruct (index_facet f) as [x|e|] eqn:E; cbn [mbind result_bind].
  - destruct IH as [(xs & ->)| ->]; cbn [mbind result_bind]; [left; by eexists|by right].
  - right. by rewrite (index_facet_error _ _ E).
  - unfold index_facet in E.
    destruct (f !! 0%nat), (f !! 1%nat), (f !! 2%nat); congruence.
Qed.

(** X6. With thickness zero [command_line] never writes a layer: it raises,
    and for a mesh whose facets have at least three points the error is
    [ZeroDivisionError], from the layer count (or from the scale before it). *)
Theorem zero_thickness_fails (pick : list string -> nat) (fuel : nat)
    (facets : list Facet) (thickness width height scale : Q) :
  thickness == 0 ->
  (exists e, command_line pick fuel facets thickness width height scale = Raise e /\
             (e = ZeroDivisionError \/ e = IndexError)) /\
  (Forall (fun f => (3 <= length f)%nat) facets ->
   command_line pick fuel facets thickness width height scale = Raise ZeroDivisionError).
Proof.
  intros Ht. unfold command_line. fold (scaled_input facets width height scale).
  destruct (scaled_input_cases facets width height scale) as [(w & h & maxz & f & ->)| ->];
    cbn [mbind result_bind]; [|split; [eexists; split; [reflexivity|by left]|done]].
  assert (Hl : layer_count 0 maxz thickness = Raise ZeroDivisionError)
    by (unfold layer_count; by rewrite pydiv_zero).
  unfold z_sort_facets. split.
  - destruct (index_facets_error (map (map f) facets)) as [(xs & ->)| ->];
      cbn [mbind result_bind].
    + rewrite Hl. eexists; split; [reflexivity|by left].
    + eexists; split; [reflexivity|by right].
  - intros Hlen.
    destruct (index_facets_ok (map (map f) facets)) as (xs & -> & _);
      [by apply (scaled_lengths _ _ (fun n => (3 <= n)%nat))|].
    cbn [mbind result_bind]. by rewrite Hl.
Qed.

(** X6 at the cube. *)
Lemma zero_thickness_fails_witness :
  command_line (fun _ => 0%nat) 0 cube_facets 0 10 10 0 = Raise ZeroDivisionError.
Proof.
  apply (zero_thickness_fails (fun _ => 0%nat) 0 cube_facets 0 10 10 0); [reflexivity|].
  repeat constructor.
Defined.

Lemma scaled_input_nil width height scale :
  exists w h maxz, scaled_input [] width height scale = Ok (w, h, 0, maxz, []).
Proof.
  unfold scaled_input, scale_to_fit. cbn [bounding_cube fold_left].
  assert (Hp : forall x, pydiv x (-99999 - 99999) = Ok (x / (-99999 - 99999)))
    by (intros x; apply pydiv_ok; intros H; vm_compute in H; discriminate H).
  destruct (truthy scale).
  - destruct (if _ || _ then (0, 0) else (0, 0)) as [w h]. by eexists _, _, _.
  - destruct (if _ || _ then (height, width) else (width, height)) as [w h].
    rewrite !Hp. cbn [mbind result_bind].
    destruct (Qltb _ _); destruct (_ && _); by eexists _, _, _.
Qed.

(** X7. For a mesh without facets and a nonzero thickness, [command_line]
    raises [IndexError]: either the first layer finds no facet to look at,
    or no layer is made and [del paths_all[0]] fails. *)
Theorem empty_mesh_fails (pick : list string -> nat) (fuel : nat)
    (thickness width height scale : Q) :
  ~ thickness == 0 ->
  command_line pick (S fuel) [] thickness width height scale = Raise IndexError.
Proof.
  intros Ht. unfold command_line. fold (scaled_input [] width height scale).
  destruct (scaled_input_nil width height scale) as (w & h & maxz & ->).
  cbn [mbind result_bind z_sort_facets index_facets sorted fold_left].
  unfold layer_count. rewrite pydiv_ok by done. cbn [mbind result_bind layer_loop prune].
  by destruct (Qle_bool 0 maxz).
Qed.

(** X7 at thickness 5 and scale 1. *)
Lemma empty_mesh_fails_witness :
  command_line (fun _ => 0%nat) 1 [] 5 0 0 1 = Raise IndexError.
Proof. apply (empty_mesh_fails (fun _ => 0%nat) 0 5 0 0 1). discriminate. Defined.

(** ** The driver: heights and number of the layers *)

Lemma layer_height_S t k : layer_height t (S k) == t + layer_height t k.
Proof.
  unfold layer_height. rewrite Nat2Z.inj_succ. unfold Z.succ.
  rewrite inject_Z_plus. change (inject_Z 1) with 1. ring.
Qed.

Lemma layer_height_0 t : layer_height t 0 == 0.
Proof. unfold layer_height. simpl. ring. Qed.

Lemma layer_loop_heights pick fuel fs z maxz t layer written paths_all
    written' paths_all' :
  layer_loop pick fuel fs z maxz t layer written paths_all = Ok (written', paths_all') ->
  exists new,
    written' = written ++ new /\
    (forall k wr, new !! k = Some wr ->
       wr.1.1 == z + layer_height t k /\ wr.1.1 <= maxz) /\
    maxz < z + layer_height t (length new).
Proof.
  revert fs z layer written paths_all.
  induction fuel as [|fuel IH]; intros fs z layer written paths_all H; simpl in H.
  - destruct (Qle_bool z maxz) eqn:E; [done|]. injection H as <- <-.
    exists []. rewrite app_nil_r. split; [done|]. split; [done|].
    apply Qle_bool_false in E. cbn [length]. rewrite layer_height_0. lra.
  - destruct (Qle_bool z maxz) eqn:E.
    + destruct (prune fs z) as [fs'| |]; simpl in H; try done.
      destruct (slice_shape_at fs' z) as [lines| |]; simpl in H; try done.
      destruct (path_lines pick lines) as [paths| |]; simpl in H; try done.
      apply IH in H as (new & -> & Hnew & Hend).
      exists ((z, paths, layer) :: new). rewrite <- app_assoc. split; [done|].
      apply Qle_bool_iff in E. split.
      * intros [|k] wr Hk; simpl in Hk.
        -- injection Hk as <-. cbn [fst]. rewrite layer_height_0. split; lra.
        -- destruct (Hnew k wr Hk) as [H1 H2]. split; [|done].
           rewrite H1, layer_height_S. ring.
      * cbn [length]. rewrite layer_height_S. lra.
    + injection H as <- <-. exists []. rewrite app_nil_r. split; [done|]. split; [done|].
      apply Qle_bool_false in E. cbn [length]. rewrite layer_height_0. lra.
Qed.

Lemma Qfloor_unique (q : Q) (n : Z) :
  inject_Z n <= q -> q < inject_Z (n + 1) -> Qfloor q = n.
Proof.
  intros H1 H2.
  assert (n <= Qfloor q)%Z.
  { rewrite <- (Qfloor_Z n). by apply Qfloor_resp_le. }
  assert (Qfloor q < n + 1)%Z.
  { rewrite Zlt_Qlt. eapply Qle_lt_trans; [apply Qfloor_le|done]. }
  lia.
Qed.

Lemma command_line_heights pick fuel facets thickness width height scale writer returned
    w h minz maxz scaled :
  scaled_input facets width height scale = Ok (w, h, minz, maxz, scaled) ->
  command_line pick fuel facets thickness width height scale = Ok (writer, returned) ->
  let n := length (w_written writer) in
  (1 <= n)%nat /\
  (forall k wr, w_written writer !! k = Some wr ->
     wr.1.1 == layer_height thickness k /\ wr.1.1 <= maxz) /\
  maxz < layer_height thickness n.
Proof.
  intros Hs H. unfold command_line in H.
  fold (scaled_input facets width height scale) in H. rewrite Hs in H.
  assert (Hminz : minz = 0).
  { destruct (scaled_input_cases facets width height scale)
      as [(? & ? & ? & ? & E)|E]; rewrite E in Hs; congruence. }
  subst minz. cbn [mbind result_bind] in H.
  destruct (z_sort_facets scaled) as [fs| |]; simpl in H; try done.
  destruct (layer_count 0 maxz thickness) as [layers| |]; simpl in H; try done.
  destruct (layer_loop _ _ _ _ _ _ _ _ _) as [[written paths_all]| |] eqn:El;
    simpl in H; try done.
  pose proof El as Ht. apply layer_loop_trace in Ht as (new' & E1 & E2 & _).
  apply layer_loop_heights in El as (new & E & Hnew & Hend).
  simpl in E, E1, E2. subst written new' paths_all.
  destruct new as [|wr0 new]; simpl in H; [done|]. injection H as <- <-.
  cbn [w_written]. split; [cbn [length]; lia|]. split.
  - intros k wr Hk. destruct (Hnew k wr Hk) as [H1 H2]. split; [|done]. rewrite H1. ring.
  - lra.
Qed.

Lemma layer_height_whole thickness t k :
  thickness == inject_Z t -> layer_height thickness k == inject_Z (Z.of_nat k * t).
Proof. intros Ht. unfold layer_height. by rewrite Ht, inject_Z_mult. Qed.

(** X8. Let the thickness be a whole number [t >= 1] and the top of the
    scaled mesh plus the thickness be at most 2^53, so that every height the
    loop of [command_line] reaches is a whole number that the addition
    [z += thickness] gives exactly.  Then, in a run that returns, the [k]-th
    layer written (counting from 0) was sliced at height [k * t], no higher
    than the top; the next multiple of [t] is above the top; and the number
    of layers written is [floor(maxz) // t + 1]. *)
Theorem layer_heights_whole_thickness (pick : list string -> nat) (fuel : nat)
    (facets : list Facet) (thickness width height scale : Q) (t : Z)
    (writer : Writer) (returned : list (list Line))
    (w h minz maxz : Q) (scaled : list Facet) :
  thickness == inject_Z t -> (1 <= t)%Z ->
  scaled_input facets width height scale = Ok (w, h, minz, maxz, scaled) ->
  maxz + thickness <= inject_Z (2 ^ 53) ->
  command_line pick fuel facets thickness width height scale = Ok (writer, returned) ->
  let n := length (w_written writer) in
  (forall k wr, w_written writer !! k = Some wr ->
     wr.1.1 == inject_Z (Z.of_nat k * t) /\ wr.1.1 <= maxz) /\
  maxz < inject_Z (Z.of_nat n * t) /\
  Z.of_nat n = (Qfloor maxz / t + 1)%Z.
Proof.
  intros Ht Hpos Hs _ H n.
  destruct (command_line_heights _ _ _ _ _ _ _ _ _ _ _ _ _ _ Hs H) as (H1 & Hn & He).
  fold n in H1, He.
  assert (Hn' : forall k wr, w_written writer !! k = Some wr ->
            wr.1.1 == inject_Z (Z.of_nat k * t) /\ wr.1.1 <= maxz).
  { intros k wr Hk. destruct (Hn k wr Hk) as [Ha Hb]. split; [|done].
    by rewrite Ha, (layer_height_whole thickness t k Ht). }
  rewrite (layer_height_whole thickness t n Ht) in He.
  split; [exact Hn'|]. split; [exact He|].
  assert (Hlast : inject_Z (Z.of_nat (n - 1) * t) <= maxz).
  { destruct (lookup_lt_is_Some_2 (w_written writer) (n - 1)%nat) as [wr Hwr];
      [unfold n in *; lia|].
    destruct (Hn' _ _ Hwr) as [Ha Hb]. by rewrite <- Ha. }
  assert (Hlo : (Z.of_nat (n - 1) * t <= Qfloor maxz)%Z).
  { rewrite <- (Qfloor_Z (Z.of_nat (n - 1) * t)). by apply Qfloor_resp_le. }
  assert (Hhi : (Qfloor maxz < Z.of_nat n * t)%Z).
  { rewrite Zlt_Qlt. eapply Qle_lt_trans; [apply Qfloor_le|exact He]. }
  assert (Hq : (Z.of_nat n - 1 = Qfloor maxz / t)%Z).
  { apply (Z.div_unique (Qfloor maxz) t (Z.of_nat n - 1)
             (Qfloor maxz - t * (Z.of_nat n - 1))); [|lia].
    left. replace (Z.of_nat (n - 1)) with (Z.of_nat n - 1)%Z in Hlo by lia. nia. }
  lia.
Qed.

(** X8 at the cube run: three layers, for a top height of 10 and thickness 5. *)
Lemma layer_heights_whole_thickness_witness :
  exists w h minz maxz scaled writer returned,
    scaled_input cube_facets 10 10 0 = Ok (w, h, minz, maxz, scaled) /\
    command_line (fun _ => 0%nat) 3 cube_facets 5 10 10 0 = Ok (writer, returned) /\
    maxz < inject_Z (Z.of_nat (length (w_written writer)) * 5) /\
    Z.of_nat (length (w_written writer)) = (Qfloor maxz / 5 + 1)%Z.
Proof.
  assert (E : exists x, scaled_input cube_facets 10 10 0 = Ok x)
    by (vm_compute; eexists; reflexivity).
  destruct E as ([[[[w h] minz] maxz] scaled] & E).
  destruct cube_default_run as (writer & returned & H & _).
  exists w, h, minz, maxz, scaled, writer, returned.
  split; [exact E|]. split; [exact H|].
  assert (Hmax : maxz + 5 <= inject_Z (2 ^ 53)).
  { pose proof E as E'. vm_compute in E'. injection E' as _ _ _ <- _. discriminate. }
  destruct (layer_heights_whole_thickness (fun _ => 0%nat) 3 cube_facets 5 10 10 0 5
              writer returned w h minz maxz scaled ltac:(reflexivity) ltac:(lia) E Hmax H)
    as (_ & H1 & H2).
  split; [exact H1|exact H2].
Defined.

(** ** The slicer: what it can raise *)

Lemma above_below_lengths (tri : list Point3) z :
  (length (List.filter (fun p => Qltb z (Z3 p)) tri) +
   length (List.filter (fun p => Qle_bool (Z3 p) z) tri) = length tri)%nat.
Proof.
  induction tri as [|p tri IH]; simpl; [done|].
  unfold Qltb at 1. destruct (Qle_bool (Z3 p) z); simpl; lia.
Qed.

Lemma slice_loop_outcome facets z lines :
  ((exists out, slice_loop facets z lines = Ok (lines ++ out) /\
      (length out <= length facets)%nat) \/
   slice_loop facets z lines = Raise IndexError) /\
  (Forall (fun f : IndexedFacet => (3 <= length f.2)%nat) facets ->
   exists out, slice_loop facets z lines = Ok (lines ++ out)).
Proof.
  revert lines. induction facets as [|[[maxz minz] tri] facets IH]; intros lines.
  { simpl. split; [left|intros _]; exists []; by rewrite app_nil_r. }
  assert (Hskip : ((exists out, slice_loop facets z lines = Ok (lines ++ out) /\
      (length out <= length ((maxz, minz, tri) :: facets))%nat) \/
      slice_loop facets z lines = Raise IndexError) /\
    (Forall (fun f : IndexedFacet => (3 <= length f.2)%nat) ((maxz, minz, tri) :: facets) ->
     exists out, slice_loop facets z lines = Ok (lines ++ out))).
  { destruct (IH lines) as [[(out & -> & Hl)| -> ] IH2].
    - split; [left; exists out; split; [done|simpl; lia]|].
      intros H. apply Forall_inv_tail in H. auto.
    - split; [by right|]. intros H. apply Forall_inv_tail in H. auto. }
  cbn [slice_loop]. destruct (Qltb z minz); [exact Hskip|].
  rewrite tri_above_below_filter.
  set (above := List.filter (fun p => Qltb z (Z3 p)) tri).
  set (below := List.filter (fun p => Qle_bool (Z3 p) z) tri).
  destruct (is_nil above || is_nil below) eqn:En; [exact Hskip|].
  apply orb_false_iff in En as [Ea Eb].
  destruct (line_above_ok above below z []) as (pts & -> & Hpts);
    [apply above_below_ordered|].
  cbn [mbind result_bind app].
  apply Forall2_length in Hpts. rewrite length_prod in Hpts.
  pose proof (above_below_lengths tri z) as Hsum. fold above below in Hsum.
  assert (Ha : (1 <= length above)%nat) by (destruct above; [done|simpl; lia]).
  assert (Hb : (1 <= length below)%nat) by (destruct below; [done|simpl; lia]).
  destruct pts as [|p0 [|p1 pts]].
  - simpl in Hpts. nia.
  - split; [by right|]. intros H. apply Forall_inv in H. simpl in H, Hpts. nia.
  - destruct (negb _).
    + destruct (IH (lines ++ [p0 :: p1 :: pts])) as [[(out & -> & Hl)| -> ] IH2].
      * split.
        -- left. exists ((p0 :: p1 :: pts) :: out). rewrite <- app_assoc.
           split; [done|simpl; lia].
        -- intros _. exists ((p0 :: p1 :: pts) :: out). by rewrite <- app_assoc.
      * split; [by right|]. intros H. apply Forall_inv_tail, IH2 in H as (out & H).
        done.
    + exact Hskip.
Qed.


(** ** The driver: does the loop end? *)

Lemma prune_ends fs z : prune fs z <> OutOfFuel.
Proof.
  induction fs as [|[[maxz minz] tri] fs IH]; simpl; [done|].
  by destruct (Qltb maxz z).
Qed.

Lemma layer_loop_ends pick fuel fs z maxz t layer written paths_all :
  0 < t ->
  maxz - z < layer_height t fuel ->
  layer_loop pick fuel fs z maxz t layer written paths_all <> OutOfFuel.
Proof.
  intros Ht. revert fs z layer written paths_all.
  induction fuel as [|fuel IH]; intros fs z layer written paths_all Hz; simpl.
  - rewrite layer_height_0 in Hz.
    destruct (Qle_bool z maxz) eqn:E; [|done]. apply Qle_bool_iff in E. lra.
  - destruct (Qle_bool z maxz) eqn:E; [|done].
    pose proof (prune_ends fs z).
    destruct (prune fs z) as [fs'| |]; cbn [mbind result_bind]; try done.
    destruct (slice_loop_outcome fs' z []) as [[(lines & Hl & _)|Hl] _];
      unfold slice_shape_at; rewrite Hl; cbn [mbind result_bind app]; [|done].
    assert (Hd : Forall distinct_ends lines)
      by (eapply slice_loop_distinct_ends; [|exact Hl]; constructor).
    assert (Hk : Forall two_keys lines)
      by (eapply Forall_impl; [exact Hd|apply distinct_ends_two_keys]).
    pose proof (path_lines_safe pick lines Hk) as Hp.
    destruct (path_lines pick lines) as [paths| |]; cbn [mbind result_bind]; try done.
    apply IH. rewrite layer_height_S in Hz. lra.
Qed.

Lemma layer_height_mono t k k' : 0 < t -> (k <= k')%nat -> layer_height t k <= layer_height t k'.
Proof.
  intros Ht Hk. unfold layer_height.
  assert (inject_Z (Z.of_nat k) <= inject_Z (Z.of_nat k')) by (rewrite <- Zle_Qle; lia).
  nra.
Qed.

(** X10. Let the thickness be a whole number [t >= 1] and the top of the
    scaled mesh plus the thickness be at most 2^53, so that the heights of
    the loop of [command_line] are whole numbers that [z += thickness] gives
    exactly.  Then the loop ends, whatever the mesh: after
    [floor(maxz) // t + 1] passes at most the run has returned or raised. *)
Theorem whole_thickness_ends (pick : list string -> nat) (facets : list Facet)
    (thickness width height scale : Q) (t : Z)
    (w h minz maxz : Q) (scaled : list Facet) :
  thickness == inject_Z t -> (1 <= t)%Z ->
  scaled_input facets width height scale = Ok (w, h, minz, maxz, scaled) ->
  maxz + thickness <= inject_Z (2 ^ 53) ->
  forall fuel, (Z.to_nat (Qfloor maxz / t + 1) <= fuel)%nat ->
    command_line pick fuel facets thickness width height scale <> OutOfFuel.
Proof.
  intros Ht Hpos Hs _ fuel Hfuel.
  assert (Hthick : 0 < thickness).
  { rewrite Ht. change 0 with (inject_Z 0). rewrite <- Zlt_Qlt. lia. }
  unfold command_line. fold (scaled_input facets width height scale). rewrite Hs.
  assert (Hminz : minz = 0).
  { destruct (scaled_input_cases facets width height scale)
      as [(? & ? & ? & ? & E)|E]; rewrite E in Hs; congruence. }
  subst minz. cbn [mbind result_bind].
  unfold z_sort_facets.
  destruct (index_facets_error scaled) as [(xs & ->)| ->];
    cbn [mbind result_bind]; [|done].
  unfold layer_count. rewrite pydiv_ok by lra. cbn [mbind result_bind].
  assert (Hl : layer_loop pick fuel (sorted xs) 0 maxz thickness 1 [] [] <> OutOfFuel).
  { apply layer_loop_ends; [done|].
    rewrite (layer_height_whole thickness t fuel Ht).
    assert (Hq : maxz < inject_Z (Qfloor maxz + 1)) by apply Qlt_floor.
    assert (Hdiv : (Qfloor maxz < t * Z.succ (Qfloor maxz / t))%Z)
      by (apply Z.mul_succ_div_gt; lia).
    assert (Hle : (Qfloor maxz + 1 <= Z.of_nat fuel * t)%Z) by nia.
    rewrite Zle_Qle in Hle. lra. }
  by destruct (layer_loop _ _ _ _ _ _ _ _ _) as [[written [|? ?]]| |].
Qed.

(** X10 at the cube, thickness 5: three passes are enough. *)
Lemma whole_thickness_ends_witness :
  exists w h minz maxz scaled,
    scaled_input cube_facets 10 10 0 = Ok (w, h, minz, maxz, scaled) /\
    command_line (fun _ => 0%nat) 3 cube_facets 5 10 10 0 <> OutOfFuel.
Proof.
  assert (E : exists x, scaled_input cube_facets 10 10 0 = Ok x)
    by (vm_compute; eexists; reflexivity).
  destruct E as ([[[[w h] minz] maxz] scaled] & E).
  exists w, h, minz, maxz, scaled. split; [exact E|].
  apply (whole_thickness_ends (fun _ => 0%nat) cube_facets 5 10 10 0 5
           w h minz maxz scaled ltac:(reflexivity) ltac:(lia) E);
    pose proof E as E'; vm_compute in E'; injection E' as _ _ _ <- _.
  - discriminate.
  - vm_compute. lia.
Defined.

(** X11. With a negative thickness and a scaled mesh whose top is not below
    0, [command_line] never returns: the heights only go down, so the loop
    [while z <= maxz] goes on until something raises. *)
Theorem negative_thickness_never_returns (pick : list string -> nat) (fuel : nat)
    (facets : list Facet) (thickness width height scale : Q)
    (w h minz maxz : Q) (scaled : list Facet) :
  scaled_input facets width height scale = Ok (w, h, minz, maxz, scaled) ->
  0 <= maxz -> thickness < 0 ->
  forall r, command_line pick fuel facets thickness width height scale <> Ok r.
Proof.
  intros Hs Hmax Ht [writer returned] H. unfold command_line in H.
  fold (scaled_input facets width height scale) in H. rewrite Hs in H.
  assert (Hminz : minz = 0).
  { destruct (scaled_input_cases facets width height scale)
      as [(? & ? & ? & ? & E)|E]; rewrite E in Hs; congruence. }
  subst minz. cbn [mbind result_bind] in H.
  destruct (z_sort_facets scaled) as [fs| |]; simpl in H; try done.
  destruct (layer_count 0 maxz thickness) as [layers| |]; simpl in H; try done.
  destruct (layer_loop _ _ _ _ _ _ _ _ _) as [[written paths_all]| |] eqn:El;
    simpl in H; try done.
  apply layer_loop_heights in El as (new & _ & _ & Hend).
  unfold layer_height in Hend.
  assert (0 <= inject_Z (Z.of_nat (length new))) by (change 0 with (inject_Z 0); rewrite <- Zle_Qle; lia).
  nra.
Qed.

(** X11 at the cube, thickness -5, after 7 steps. *)
Lemma negative_thickness_never_returns_witness :
  (exists x, scaled_input cube_facets 10 10 0 = Ok x) /\
  (forall r, command_line (fun _ => 0%nat) 7 cube_facets (-5) 10 10 0 <> Ok r).
Proof.
  assert (E : exists x, scaled_input cube_facets 10 10 0 = Ok x)
    by (vm_compute; eexists; reflexivity).
  split; [exact E|].
  destruct E as ([[[[w h] minz] maxz] scaled] & E).
  apply (negative_thickness_never_returns (fun _ => 0%nat) 7 cube_facets (-5) 10 10 0
           w h minz maxz scaled E); [|reflexivity].
  vm_compute in E. injection E as _ _ _ <- _. discriminate.
Defined.

(** ** The plane intersection and the vertex partition *)



(** ** The endpoint map *)

Lemma register_registrations m key id :
  registrations (register m key id) = S (registrations m).
Proof.
  unfold register. destruct (m !! key) as [lines|] eqn:E; simpl.
  - rewrite (registrations_delete m key lines E).
    rewrite <- insert_delete_eq, registrations_insert by apply lookup_delete_eq.
    rewrite length_app. simpl. lia.
  - rewrite registrations_insert by done. simpl. lia.
Qed.

Lemma register_nonempty m key id : register m key id <> ∅.
Proof. unfold register. apply insert_non_empty. Qed.

Lemma register_points_registrations m id line :
  registrations (register_points m id line) = (length line + registrations m)%nat /\
  (m <> ∅ \/ line <> [] -> register_points m id line <> ∅).
Proof.
  revert m. induction line as [|p line IH]; intros m; simpl.
  - split; [done|]. intros [H|H]; done.
  - destruct (IH (register m (LineMap_key p) id)) as [H1 H2].
    rewrite H1, register_registrations. split; [lia|].
    intros _. apply H2. left. apply register_nonempty.
Qed.

Lemma init_loop_registrations m id lines :
  registrations (init_loop m id lines) = (length (concat lines) + registrations m)%nat /\
  (m <> ∅ \/ concat lines <> [] -> init_loop m id lines <> ∅).
Proof.
  revert m id. induction lines as [|line lines IH]; intros m id; simpl.
  - split; [done|]. intros [H|H]; done.
  - destruct (register_points_registrations m id line) as [H1 H2].
    destruct (IH (register_points m id line) (S id)) as [H3 H4].
    rewrite H3, H1, length_app. split; [lia|].
    intros H. apply H4. destruct H as [H|H]; [left; apply H2; by left|].
    destruct line as [|p line]; [right; done|]. left. apply H2. by right.
Qed.

Lemma init_loop_no_point m id lines :
  concat lines = [] -> init_loop m id lines = m.
Proof.
  revert m id. induction lines as [|l lines IH]; intros m id Hc; simpl; [done|].
  simpl in Hc. apply app_eq_nil in Hc as [-> Hc]. simpl. by apply IH.
Qed.

(** X14. [LineMap(lines)] registers every line once for each of its points:
    the buckets hold as many entries as the lines have points, and
    [has_lines] is true exactly when some line has a point. *)
Theorem LineMap_init_registrations (lines : list Line) :
  registrations (lm_map (LineMap_init lines)) = length (concat lines) /\
  (has_lines (LineMap_init lines) = true <-> concat lines <> []).
Proof.
  destruct (init_loop_registrations ∅ 0 lines) as [H1 H2]. simpl. split.
  - rewrite H1. unfold registrations. rewrite map_fold_empty. lia.
  - unfold has_lines. simpl. rewrite bool_decide_eq_true. split.
    + intros H Hc. apply H. by apply init_loop_no_point.
    + intros H. apply H2. by right.
Qed.

(** X15. The outcome of [path_lines] depends on the iteration order of the
    endpoint map when a segment occurs twice: for two equal segments followed
    by a third that starts where they end, every segment having endpoints
    with different keys, one order gives two paths and another one raises
    [ValueError] from [lines.remove(line)]. *)
Theorem path_lines_order_dependent :
  Forall segment_keys_distinct doubled_segment /\
  path_lines (fun _ => 0%nat) doubled_segment =
    Ok [[(1, 0); (2, 0)]; [(0, 0); (1, 0); (0, 0)]] /\
  path_lines (fun _ => 2%nat) doubled_segment = Raise ValueError_remove.
Proof.
  split; [|split; vm_compute; reflexivity].
  repeat constructor; eexists _, _; (split; [reflexivity|]); vm_compute; discriminate.
Qed.

(** ** The text loader at the end of the file *)

Module StlEdge.
Import Stl StlGrammar StlFacts StlLoader.

Section Edge.

Variable pyfloat : string -> option Q.

Lemma readline_hd_tl f : readline f = (hd "" f, tail f).
Proof. by destruct f. Qed.

Lemma ends_or_blank_hd rest : ends_or_blank rest -> strip (hd "" rest) = "".
Proof. intros [->|(blank & rest' & -> & H)]; [reflexivity|exact H]. Qed.

Lemma vertex_loop_truncated vls vs :
Forall2 (vertex_line pyfloat) vls vs ->
forall fuel acc rest,
ends_or_blank rest -> (length vls < fuel)%nat ->
vertex_loop pyfloat fuel (tail (vls ++ rest)) (strip (hd "" (vls ++ rest))) acc
= Raise IndexError.
Proof.
induction 1 as [|l v vls vs Hl _ IH]; intros fuel acc rest Hrest Hfuel.
- simpl. rewrite (ends_or_blank_hd _ Hrest), vertex_loop_unfold.
destruct fuel; [lia|]. reflexivity.
- simpl. rewrite vertex_loop_unfold, (vertex_line_not_endloop pyfloat l v Hl).
destruct fuel; [simpl in Hfuel; lia|].
rewrite (proj2 (read_vertex_ok pyfloat l v) Hl). cbn [mbind result_bind].
rewrite readline_hd_tl. apply IH; [done|simpl in Hfuel; lia].
Qed.

(** X16. A file that ends, or has a blank line, where a vertex line or
[endloop] is due makes [readFacet] raise [IndexError] (from [parts[0]]),
not the [ValueError] of the other malformed inputs; the same holds for
[parseText] on a file that is empty or starts with a blank line. *)
Theorem loader_index_errors (ol : string) (vls : list string) (vs : TextFacet)
(rest : list string) :
(strip ol = "outer loop" -> Forall2 (vertex_line pyfloat) vls vs ->
ends_or_blank rest ->
readFacet pyfloat (ol :: vls ++ rest) = Raise IndexError) /\
(ends_or_blank rest -> parseText pyfloat rest = Raise IndexError).
Proof.
split.
- intros Hol Hv Hrest. unfold readFacet. cbn [readline]. rewrite Hol. cbn [String.eqb negb].
change (String.eqb "outer loop" "outer loop") with true. cbn [negb].
rewrite readline_hd_tl.
rewrite (vertex_loop_truncated vls vs Hv); [done|done|].
destruct vls; simpl; [lia|]. rewrite length_app. lia.
- intros Hrest. unfold parseText. rewrite readline_hd_tl.
by rewrite (ends_or_blank_hd _ Hrest).
Qed.

End Edge.

(** X16 for a facet cut short after its first vertex. *)
Lemma loader_index_errors_witness :
readFacet decimal_float ["outer loop"; "vertex 0 0 0"] = Raise IndexError /\
parseText decimal_float [] = Raise IndexError.
Proof.
destruct (loader_index_errors decimal_float "outer loop" ["vertex 0 0 0"] [[0; 0; 0]] [])
  as [H1 H2].
split.
- apply H1; [reflexivity| |by left].
  constructor; [|constructor]. exists ["0"; "0"; "0"]. split; reflexivity.
- apply H2. by left.
Defined.

End StlEdge.

(** ** The binary loader *)

Module StlBinFacts.
Import Stl StlBin StlBinLayout.

Lemma unpack_fff_at f off :
unpack_fff (take 12 (drop off f)) =
if (off + 12 <=? length f)%nat then Unpacked (point_at f off) else StructError.
Proof.
unfold unpack_fff. rewrite length_take, length_drop.
destruct (Nat.leb_spec (off + 12) (length f)) as [H|H].
- replace (12 `min` (length f - off) =? 12)%nat with true
    by (symmetry; apply Nat.eqb_eq; lia).
  unfold point_at. rewrite take_take.
  rewrite !skipn_firstn_comm, !take_take, !drop_drop. simpl Nat.min. simpl Nat.sub.
  reflexivity.
- replace (12 `min` (length f - off) =? 12)%nat with false
    by (symmetry; apply Nat.eqb_neq; lia).
  reflexivity.
Qed.

Lemma read_facets_at f n k acc :
read_facets n (drop (84 + 50 * k) f) acc =
if (n =? 0)%nat || (84 + 50 * (k + n) - 2 <=? length f)%nat
then Unpacked (acc ++ map (facet_at f) (seq k n))
else StructError.
Proof.
revert k acc. induction n as [|n IH]; intros k acc.
- simpl. by rewrite app_nil_r.
- cbn [read_facets read_points read Nat.eqb orb].
  rewrite !drop_drop, !unpack_fff_at.
  assert (Hfail : (length f < 84 + 50 * k + 48)%nat ->
            (84 + 50 * (k + S n) - 2 <=? length f)%nat = false)
    by (intros ?; apply Nat.leb_gt; lia).
  destruct (Nat.leb_spec (84 + 50 * k + 12) (length f));
    [|rewrite Hfail by lia; reflexivity].
  destruct (Nat.leb_spec (84 + 50 * k + 12 + 12) (length f));
    [|rewrite Hfail by lia; reflexivity].
  destruct (Nat.leb_spec (84 + 50 * k + 12 + 12 + 12) (length f));
    [|rewrite Hfail by lia; reflexivity].
  destruct (Nat.leb_spec (84 + 50 * k + 12 + 12 + 12 + 12) (length f));
    [|rewrite Hfail by lia; reflexivity].
  cbn [app]. rewrite drop_drop.
  replace (84 + 50 * k + 12 + 12 + 12 + 12 + 2)%nat with (84 + 50 * S k)%nat by lia.
  rewrite IH.
  assert (Hlist : acc ++ map (facet_at f) (seq k (S n)) =
                  (acc ++ [[point_at f (84 + 50 * k + 12);
                            point_at f (84 + 50 * k + 12 + 12);
                            point_at f (84 + 50 * k + 12 + 12 + 12)]]) ++
                  map (facet_at f) (seq (S k) n)).
  { rewrite <- app_assoc. cbn [seq map app]. unfold facet_at at 1.
    replace (84 + 50 * k + 12 + 12 + 12)%nat with (84 + 50 * k + 36)%nat by lia.
    replace (84 + 50 * k + 12 + 12)%nat with (84 + 50 * k + 24)%nat by lia.
    reflexivity. }
  rewrite Hlist. destruct n as [|n].
  + cbn [Nat.eqb orb]. replace (84 + 50 * (k + 1) - 2 <=? length f)%nat with true
      by (symmetry; apply Nat.leb_le; lia).
    reflexivity.
  + cbn [Nat.eqb orb]. replace (S k + S n)%nat with (k + S (S n))%nat by lia.
    reflexivity.
Qed.

(** X17. [parseBin] takes the facet count from bytes 80 to 83 and returns
  that many facets of three points, the [k]-th read from the twelve-byte
  groups at offsets [84 + 50 k + 12], [+ 24] and [+ 36]; the header, the
  normals and the two bytes after each facet are not looked at.  It raises
  [struct.error] exactly when the file is shorter than that, the last two
  bytes of the last record excepted. *)
Theorem parseBin_spec (f : list ascii) :
(needed_bytes (facet_count f) <= length f)%nat /\
  parseBin f = Unpacked (map (facet_at f) (seq 0 (facet_count f))) \/
(length f < needed_bytes (facet_count f))%nat /\ parseBin f = StructError.
Proof.
unfold parseBin, read, unpack_I, facet_count. rewrite drop_drop, length_take, length_drop.
destruct (Nat.leb_spec 84 (length f)) as [H|H].
- replace (4 `min` (length f - 80) =? 4)%nat with true
    by (symmetry; apply Nat.eqb_eq; lia).
  set (n := Z.to_nat (le_value (take 4 (drop 80 f)))).
  change (80 + 4)%nat with (84 + 50 * 0)%nat. rewrite (read_facets_at f n 0 []).
  cbn [app]. replace (0 + n)%nat with n by lia.
  unfold needed_bytes. destruct n as [|n]; [left; split; [lia|done]|].
  cbn [Nat.eqb orb].
  destruct (Nat.leb_spec (84 + 50 * S n - 2) (length f)); [left|right]; split;
    try done; lia.
- right. replace (4 `min` (length f - 80) =? 4)%nat with false
    by (symmetry; apply Nat.eqb_neq; lia).
  split; [|done]. unfold needed_bytes. destruct (Z.to_nat _); lia.
Qed.

(** *** The choice of the loader *)

Lemma prefix_app_inv a s : String.prefix a s = true -> exists rest, s = a +:+ rest.
Proof.
revert s. induction a as [|c a IH]; intros s H; [by exists s|].
destruct s as [|c' s]; simpl in H; [done|].
destruct (Ascii.ascii_dec c c') as [<-|]; [|done].
destruct (IH s H) as (rest & ->). by exists rest.
Qed.

Lemma prefix_nil s : String.prefix "" s = true.
Proof. by destruct s. Qed.

Lemma prefix_app a b : String.prefix a (a +:+ b) = true.
Proof.
induction a as [|c a IH]; [apply prefix_nil|]. simpl.
by destruct (Ascii.ascii_dec c c).
Qed.

Lemma prefix_refl a : String.prefix a a = true.
Proof.
induction a as [|c a IH]; [done|]. simpl. by destruct (Ascii.ascii_dec c c).
Qed.

Lemma prefix_app_l a b w : String.prefix (a +:+ b) w = true -> String.prefix a w = true.
Proof.
revert w. induction a as [|c a IH]; intros w H; [apply prefix_nil|].
destruct w as [|c' w]; simpl in *; [done|].
destruct (Ascii.ascii_dec c c'); [by apply IH|done].
Qed.

Lemma split_loop_word s acc :
acc <> "" -> exists w ws, split_loop s acc = w :: ws /\ String.prefix acc w = true.
Proof.
revert acc. induction s as [|c s IH]; intros acc Hacc; simpl.
- apply String.eqb_neq in Hacc. rewrite Hacc. exists acc, [].
  split; [done|]. apply prefix_refl.
- destruct (is_space c).
  + pose proof Hacc as Hacc'. apply String.eqb_neq in Hacc'. rewrite Hacc'.
    exists acc, (split_loop s ""). split; [done|]. apply prefix_refl.
  + destruct (IH (acc +:+ String c "")) as (w & ws & -> & Hw).
    { by destruct acc. }
    exists w, ws. split; [done|]. by eapply prefix_app_l.
Qed.

Section Choice.

Variable pyfloat : string -> option Q.

(** X18. [parse] looks at the first line only.  When that line, stripped,
does not start with [solid], the file is read by [parseBin]; when it
does, the file is read by [parseText] and never as binary, and unless
the first word of the line is exactly [solid] (a binary file whose
header starts with, say, [solidworks]) the text loader rejects it with
its [ValueError]. *)
Theorem parse_choice (f : list ascii) :
let line := strip (readline (lines_of f)).1 in
(String.prefix "solid" line = false -> parse pyfloat f = inr (parseBin f)) /\
(String.prefix "solid" line = true ->
parse pyfloat f = inl (parseText pyfloat (lines_of f)) /\
exists word words,
 split line = word :: words /\ String.prefix "solid" word = true /\
 (word <> "solid" ->
  parse pyfloat f = inl (Raise (ValueError_expected "solid ..." line)))).
Proof.
intros line. unfold parse. fold line. split; [by intros ->|].
intros H. rewrite H. split; [done|].
destruct (prefix_app_inv _ _ H) as (rest & Hrest).
destruct (split_loop_word rest "solid") as (w & ws & Hw & Hp); [done|].
assert (Hsplit : split line = w :: ws) by (rewrite Hrest; exact Hw).
exists w, ws. split; [done|]. split; [done|].
intros Hne. f_equal. unfold parseText.
destruct (readline (lines_of f)) as [l f'] eqn:El. simpl in line. fold line.
rewrite Hsplit. apply String.eqb_neq in Hne. by rewrite Hne.
Qed.

End Choice.

End StlBinFacts.

(** ** The stitcher on segments that are given once *)

Lemma point2_eqb_refl p : point2_eqb p p = true.
Proof.
  unfold point2_eqb. apply andb_true_iff. split; apply Qeq_bool_iff; reflexivity.
Qed.

Lemma line_eqb_refl l : line_eqb l l = true.
Proof. induction l as [|p l IH]; simpl; [done|]. by rewrite point2_eqb_refl. Qed.

Lemma list_remove_unique heap v bucket id :
  NoDup bucket -> id ∈ bucket ->
  line_eqb (heap_get heap id) v = true ->
  (forall j, j ∈ bucket -> j <> id -> line_eqb (heap_get heap j) v = false) ->
  exists bucket', list_remove heap v bucket = Some bucket' /\ NoDup bucket' /\
    forall j, j ∈ bucket' <-> j ∈ bucket /\ j <> id.
Proof.
  induction bucket as [|x bucket IH]; intros Hnd Hin Hid Hothers.
  - by apply elem_of_nil in Hin.
  - apply NoDup_cons in Hnd as [Hx Hnd]. simpl.
    destruct (decide (x = id)) as [->|Hne].
    + rewrite Hid. exists bucket. split; [done|]. split; [done|].
      intros j. rewrite elem_of_cons. split.
      * intros Hj. split; [by right|]. intros ->. done.
      * intros [[->|Hj] Hn]; done.
    + rewrite (Hothers x) by (done || apply list_elem_of_here).
      apply elem_of_cons in Hin as [->|Hin]; [done|].
      destruct IH as (bucket' & -> & Hnd' & Hmem); [done|done|done| |].
      { intros j Hj. apply Hothers. by apply list_elem_of_further. }
      exists (x :: bucket'). split; [done|]. split.
      * apply NoDup_cons. split; [|done]. rewrite Hmem. intros [? _]. done.
      * intros j. rewrite !elem_of_cons, Hmem. naive_solver.
Qed.

Lemma list_pop_last bucket id bucket' :
  list_pop bucket = Some (id, bucket') -> NoDup bucket ->
  length bucket = S (length bucket') /\ id ∈ bucket /\ NoDup bucket' /\
  forall j, j ∈ bucket' <-> j ∈ bucket /\ j <> id.
Proof.
  intros Hp Hnd. apply list_pop_app in Hp as ->.
  apply NoDup_app in Hnd as (Hnd & Hdis & _).
  split; [rewrite length_app; simpl; lia|].
  split; [apply elem_of_app; right; apply list_elem_of_here|]. split; [done|].
  intros j. rewrite elem_of_app, list_elem_of_singleton. split.
  - intros Hj. split; [by left|]. intros ->. apply (Hdis id Hj), list_elem_of_here.
  - intros [[Hj| ->] Hn]; done.
Qed.

Lemma list_pop_some bucket : bucket <> [] -> is_Some (list_pop bucket).
Proof.
  induction bucket as [|x bucket IH]; [done|]. intros _. simpl.
  destruct bucket as [|y bucket]; [by eexists|].
  destruct IH as [[id rest] ->]; [done|]. by eexists.
Qed.

Lemma registered_lookup m key bucket id :
  m !! key = Some bucket -> registered m key id <-> id ∈ bucket.
Proof.
  intros H. unfold registered. split.
  - intros (b & Hb & Hin). congruence.
  - intros Hin. by exists bucket.
Qed.

Lemma store_bucket_lookup m key bucket key' x :
  store_bucket m key bucket !! key' = Some x <->
  (key' = key /\ x = bucket /\ bucket <> []) \/ (key' <> key /\ m !! key' = Some x).
Proof.
  unfold store_bucket. destruct bucket as [|b bucket]; simpl.
  - destruct (decide (key' = key)) as [->|Hne].
    + rewrite lookup_delete_eq. naive_solver.
    + rewrite lookup_delete_ne by done. naive_solver.
  - destruct (decide (key' = key)) as [->|Hne].
    + rewrite lookup_insert_eq. naive_solver.
    + rewrite lookup_insert_ne by done. naive_solver.
Qed.

Lemma registered_store_bucket m key bucket key' id :
  registered (store_bucket m key bucket) key' id <->
  (key' = key /\ id ∈ bucket) \/ (key' <> key /\ registered m key' id).
Proof.
  unfold registered. split.
  - intros (b & Hb & Hin). apply store_bucket_lookup in Hb as [(-> & -> & _)|[Hne Hb]].
    + by left.
    + right. split; [done|]. by exists b.
  - intros [[-> Hin]|[Hne (b & Hb & Hin)]].
    + exists bucket. split; [|done]. apply store_bucket_lookup. left.
      split; [done|]. split; [done|]. intros ->. by apply elem_of_nil in Hin.
    + exists b. split; [|done]. apply store_bucket_lookup. by right.
Qed.

Lemma chain_segment lines id p q : lines !! id = Some [p; q] -> chain lines [p; q].
Proof.
  intros H [|[|i]] a b Ha Hb; simpl in *; try done.
  injection Ha as <-. injection Hb as <-. exists id, p, q. auto.
Qed.

Lemma chain_snoc lines path a b :
  chain lines path -> last path = Some a -> follows lines a b ->
  chain lines (path ++ [b]).
Proof.
  intros Hc Hlast Hf i x y Hx Hy.
  destruct (decide (S i < length path)%nat) as [Hlt|Hge].
  - rewrite lookup_app_l in Hx by lia. rewrite lookup_app_l in Hy by lia.
    by apply (Hc i).
  - assert (Hi : S i = length path).
    { apply lookup_lt_Some in Hy. rewrite length_app in Hy. simpl in Hy. lia. }
    rewrite lookup_app_l in Hx by lia.
    rewrite lookup_app_r in Hy by lia. rewrite Hi, Nat.sub_diag in Hy.
    injection Hy as <-.
    rewrite last_lookup in Hlast. rewrite <- Hi in Hlast. simpl in Hlast.
    congruence.
Qed.

Section Consume.

Variable lines : list Line.
Hypothesis Hsegments : Forall segment_keys_distinct lines.
Hypothesis Htwin : no_twin lines.

Lemma segment_lookup id p q :
lines !! id = Some [p; q] -> LineMap_key p <> LineMap_key q.
Proof.
intros H. rewrite Forall_lookup in Hsegments.
destruct (Hsegments id _ H) as (p' & q' & [= <- <-] & Hne). done.
Qed.

Lemma first_other_segment key p q :
LineMap_key p <> LineMap_key q ->
(key = LineMap_key p -> first_other key [p; q] = Some q) /\
(key = LineMap_key q -> first_other key [p; q] = Some p).
Proof.
intros Hne. split; intros ->; simpl.
- rewrite String.eqb_refl.
  destruct (String.eqb_spec (LineMap_key q) (LineMap_key p)); [congruence|done].
- destruct (String.eqb_spec (LineMap_key p) (LineMap_key q)); [congruence|done].
Qed.

(** Taking the last line of a bucket and removing it from the bucket of its
  other endpoint. *)
Lemma consume unused st key bucket id bucket' :
stitch_inv lines unused st ->
lm_map st !! key = Some bucket ->
list_pop bucket = Some (id, bucket') ->
exists st' p q other,
  lines !! id = Some [p; q] /\ unused id /\
  ((key = LineMap_key p /\ other = q) \/ (key = LineMap_key q /\ other = p)) /\
  _pop_other_line {| lm_heap := lm_heap st;
                     lm_map := store_bucket (lm_map st) key bucket' |} key id
    = Ok (st', other) /\
  lm_heap st' = lm_heap st /\
  stitch_inv lines (fun j => unused j /\ j <> id) st' /\
  (registrations (lm_map st') + 2 = registrations (lm_map st))%nat.
Proof.
intros (Hlen & Hheap & Hbuckets & Hreg) Hkey Hpop.
destruct (Hbuckets key bucket Hkey) as [_ Hnd].
destruct (list_pop_last _ _ _ Hpop Hnd) as (Hlb & Hin & Hnd' & Hmem').
assert (Hr : registered (lm_map st) key id) by (by exists bucket).
apply Hreg in Hr as (Hu & p & q & Hl & Hk).
pose proof (segment_lookup id p q Hl) as Hne.
assert (Hget : heap_get (lm_heap st) id = [p; q])
  by (unfold heap_get; rewrite (Hheap id Hu), Hl; done).
assert (Hother : exists other,
  first_other key [p; q] = Some other /\ LineMap_key other <> key /\
  endpoint_key lines id (LineMap_key other) /\
  ((key = LineMap_key p /\ other = q) \/ (key = LineMap_key q /\ other = p))).
{ destruct (first_other_segment key p q Hne) as [H1 H2].
  destruct Hk as [Hk|Hk].
  - exists q. split; [auto|]. split; [congruence|]. split; [|by left].
    exists p, q. auto.
  - exists p. split; [auto|]. split; [congruence|]. split; [|by right].
    exists p, q. auto. }
destruct Hother as (other & Hfirst & Hokey & Hep & Hcase).
assert (Hro : registered (lm_map st) (LineMap_key other) id) by (apply Hreg; done).
destruct Hro as (bo & Hbo & Hino).
destruct (Hbuckets _ bo Hbo) as [_ Hndo].
destruct (list_remove_unique (lm_heap st) [p; q] bo id Hndo Hino) as (bo' & Hrem & Hndo' & Hmemo).
{ rewrite Hget. apply line_eqb_refl. }
{ intros j Hj Hji.
  assert (Hrj : registered (lm_map st) (LineMap_key other) j) by (by exists bo).
  apply Hreg in Hrj as (Huj & pj & qj & Hlj & _).
  unfold heap_get. rewrite (Hheap j Huj), Hlj. simpl.
  exact (Htwin j id _ _ Hji Hlj Hl). }
assert (Hlo : length bo = S (length bo')).
{ apply list_remove_length in Hrem as [? _]. done. }
eexists _, p, q, other. split; [exact Hl|]. split; [exact Hu|]. split; [exact Hcase|].
unfold _pop_other_line. cbn [lm_heap lm_map]. rewrite Hget, Hfirst.
assert (Hlk : store_bucket (lm_map st) key bucket' !! LineMap_key other = Some bo).
{ apply store_bucket_lookup. right. done. }
rewrite Hlk, Hrem. split; [reflexivity|]. cbn [lm_heap lm_map]. split; [reflexivity|].
split.
- split; [exact Hlen|]. split; [intros j [Hj _]; by apply Hheap|]. split.
  + intros key' b Hb.
    apply (proj1 (store_bucket_lookup _ _ _ _ _)) in Hb as [(-> & -> & Hnil)|[Hne1 Hb]];
      [done|].
    apply (proj1 (store_bucket_lookup _ _ _ _ _)) in Hb as [(-> & -> & Hnil)|[Hne2 Hb]];
      [done|].
    exact (Hbuckets key' b Hb).
  + intros key' j. cbn [lm_map]. rewrite registered_store_bucket, registered_store_bucket.
    rewrite Hmemo, Hmem'.
    rewrite <- (registered_lookup _ _ _ j Hbo), <- (registered_lookup _ _ _ j Hkey).
    rewrite !Hreg. split.
    * intros [[-> [[Huj Hej] Hji]]|[Hne1 [[-> [[Huj Hej] Hji]]|[Hne2 [Huj Hej]]]]]; try done.
      split; [|done]. split; [done|]. intros ->.
      destruct Hej as (p' & q' & Hl' & Hk'). rewrite Hl in Hl'. injection Hl' as <- <-.
      destruct Hcase as [[-> ->]|[-> ->]]; destruct Hk'; congruence.
    * intros [[Huj Hji] Hej].
      destruct (decide (key' = LineMap_key other)) as [->|Hne1]; [by left|].
      right. split; [done|].
      destruct (decide (key' = key)) as [->|Hne2]; [by left|]. by right.
- pose proof (registrations_store_bucket (lm_map st) key bucket bucket' Hkey).
  pose proof (registrations_store_bucket _ (LineMap_key other) bo bo' Hlk).
  lia.
Qed.

End Consume.

Lemma iter_first_some pick (m : gmap string (list nat)) :
  m <> ∅ -> exists key bucket, iter_first pick m = Some (key, bucket).
Proof.
  intros Hm. unfold iter_first.
  assert (Hl : (0 < length (map_to_list m))%nat).
  { destruct (map_to_list m) eqn:E; [|simpl; lia].
    by apply map_to_list_empty_iff in E. }
  destruct (lookup_lt_is_Some_2 (map_to_list m)
              (pick (map_to_list m).*1 mod length (map_to_list m))%nat) as [[key b] H].
  - apply Nat.mod_upper_bound. lia.
  - by exists key, b.
Qed.

Section Stitch.

Variable pick : list string -> nat.
Variable lines : list Line.
Hypothesis Hsegments : Forall segment_keys_distinct lines.
Hypothesis Htwin : no_twin lines.

Lemma take_line_inv unused st :
stitch_inv lines unused st -> has_lines st = true ->
exists st' id p q,
  take_line pick st = Ok (st', Some id) /\
  lines !! id = Some [p; q] /\ unused id /\
  lm_heap st' = lm_heap st /\
  stitch_inv lines (fun j => unused j /\ j <> id) st' /\
  (registrations (lm_map st') + 2 = registrations (lm_map st))%nat.
Proof.
intros Hinv Hhas. unfold has_lines in Hhas. apply bool_decide_eq_true in Hhas.
destruct (iter_first_some pick _ Hhas) as (key & bucket & Hit).
unfold take_line. rewrite Hit. apply iter_first_lookup in Hit.
destruct (proj1 (proj2 (proj2 Hinv)) key bucket Hit) as [Hnil _].
destruct (list_pop_some bucket Hnil) as [[id bucket'] Hpop]. rewrite Hpop.
destruct (consume lines Hsegments Htwin unused st key bucket id bucket' Hinv Hit Hpop)
  as (st' & p & q & other & Hl & Hu & _ & -> & Hheap & Hinv' & Hr).
cbn [mbind result_bind]. by exists st', id, p, q.
Qed.

Lemma next_point_inv unused st point :
stitch_inv lines unused st ->
(next_point st point = Ok (st, None)) \/
(exists st' id other,
   next_point st point = Ok (st', Some other) /\ unused id /\
   follows lines point other /\
   lm_heap st' = lm_heap st /\
   stitch_inv lines (fun j => unused j /\ j <> id) st' /\
   (registrations (lm_map st') + 2 = registrations (lm_map st))%nat).
Proof.
intros Hinv. unfold next_point.
destruct (lm_map st !! LineMap_key point) as [bucket|] eqn:Hb; [|by left].
destruct (proj1 (proj2 (proj2 Hinv)) _ bucket Hb) as [Hnil _].
destruct (list_pop_some bucket Hnil) as [[id bucket'] Hpop]. rewrite Hpop.
destruct (consume lines Hsegments Htwin unused st _ bucket id bucket' Hinv Hb Hpop)
  as (st' & p & q & other & Hl & Hu & Hcase & -> & Hheap & Hinv' & Hr).
cbn [mbind result_bind]. right. exists st', id, other.
split; [done|]. split; [done|]. split; [by exists id, p, q|]. done.
Qed.

Lemma heap_append_inv unused st path point :
stitch_inv lines unused st -> ~ unused path ->
stitch_inv lines unused (heap_append st path point).
Proof.
intros (Hlen & Hheap & Hbuckets & Hreg) Hpath. unfold heap_append.
split; [cbn [lm_heap]; by rewrite length_insert|].
split; [|split; [exact Hbuckets|exact Hreg]].
intros id Hid. cbn [lm_heap]. rewrite list_lookup_insert_ne; [by apply Hheap|].
intros ->. done.
Qed.

Lemma heap_append_get st path point :
(path < length (lm_heap st))%nat ->
heap_get (lm_heap (heap_append st path point)) path =
heap_get (lm_heap st) path ++ [point].
Proof.
intros H. unfold heap_append, heap_get at 1. cbn [lm_heap].
by rewrite list_lookup_insert_eq.
Qed.

Lemma heap_append_other st path point j :
j <> path -> lm_heap (heap_append st path point) !! j = lm_heap st !! j.
Proof. intros H. unfold heap_append. cbn [lm_heap]. by rewrite list_lookup_insert_ne. Qed.

(** The inner loop: every point it appends is the other end of a line it
  consumed. *)
Lemma extend_path_inv fuel path : forall unused st point,
stitch_inv lines unused st -> ~ unused path ->
(path < length lines)%nat ->
(registrations (lm_map st) < 2 * fuel)%nat ->
chain lines (heap_get (lm_heap st) path) ->
match point with
| Some p => exists a, last (heap_get (lm_heap st) path) = Some a /\ follows lines a p
| None => True
end ->
exists st' unused',
  extend_path fuel st path point = Ok st' /\
  chain lines (heap_get (lm_heap st') path) /\
  stitch_inv lines unused' st' /\
  (forall j, unused' j -> unused j) /\
  (forall j, j <> path -> lm_heap st' !! j = lm_heap st !! j) /\
  (length (heap_get (lm_heap st) path) <= length (heap_get (lm_heap st') path))%nat /\
  (2 * length (heap_get (lm_heap st') path) + registrations (lm_map st') =
   2 * (length (heap_get (lm_heap st) path) +
        match point with Some _ => 1 | None => 0 end) +
   registrations (lm_map st))%nat.
Proof.
induction fuel as [|fuel IH]; intros unused st point Hinv Hpath Hlt Hfuel Hchain Hpoint;
  [lia|].
destruct point as [p|]; cbn [extend_path].
2:{ exists st, unused. split; [done|]. split; [done|]. split; [done|]. split; [done|].
    split; [done|]. split; lia. }
destruct Hpoint as (a & Hlast & Hfollows).
pose proof (heap_append_inv unused st path p Hinv Hpath) as Hinv1.
assert (Hlen : (path < length (lm_heap st))%nat) by (destruct Hinv as [-> _]; done).
assert (Hchain1 : chain lines (heap_get (lm_heap (heap_append st path p)) path)).
{ rewrite heap_append_get by done. by eapply chain_snoc. }
destruct (next_point_inv unused (heap_append st path p) p Hinv1)
  as [->|(st' & id & other & -> & Hu & Hfo & Hheap & Hinv' & Hr)];
  cbn [mbind result_bind].
- exists (heap_append st path p), unused.
  split; [by destruct fuel|]. split; [done|]. split; [done|]. split; [done|].
  split; [intros j Hj; by apply heap_append_other|].
  rewrite heap_append_get by done. rewrite length_app. cbn [length lm_map heap_append].
  split; lia.
- destruct (IH (fun j => unused j /\ j <> id) st' (Some other) Hinv')
    as (st'' & unused' & -> & Hchain'' & Hinv'' & Hsub & Hframe & Hmono & Hcount).
  + intros [? _]. done.
  + done.
  + cbn [lm_map heap_append] in Hr. lia.
  + by rewrite Hheap.
  + exists p. rewrite Hheap, heap_append_get by done. split; [apply last_snoc|done].
  + exists st'', unused'. split; [done|]. split; [done|]. split; [done|].
    split; [intros j Hj; by apply Hsub|].
    split.
    * intros j Hj. rewrite (Hframe j Hj), Hheap. by apply heap_append_other.
    * assert (Hg : heap_get (lm_heap st') path = heap_get (lm_heap st) path ++ [p])
        by (rewrite Hheap; by apply heap_append_get).
      rewrite Hg, length_app in Hcount, Hmono. cbn [length lm_map heap_append] in *.
      split; lia.
Qed.

End Stitch.

Lemma steps_app heap paths path :
  steps heap (paths ++ [path]) =
  (steps heap paths + (length (heap_get heap path) - 1))%nat.
Proof.
  unfold steps. induction paths as [|p paths IH]; simpl; [lia|]. rewrite IH. lia.
Qed.

Lemma steps_frame heap heap' paths :
  (forall p, p ∈ paths -> heap' !! p = heap !! p) ->
  steps heap' paths = steps heap paths.
Proof.
  unfold steps. induction paths as [|p paths IH]; intros H; simpl; [done|].
  rewrite IH by (intros q Hq; apply H; by apply list_elem_of_further).
  unfold heap_get. by rewrite (H p) by apply list_elem_of_here.
Qed.

Section Paths.

Variable pick : list string -> nat.
Variable lines : list Line.
Hypothesis Hsegments : Forall segment_keys_distinct lines.
Hypothesis Htwin : no_twin lines.

(** One round of the outer loop: the path is a line that was unused, and it
  has grown by one point for every other line consumed. *)
Lemma build_path_inv unused st :
stitch_inv lines unused st -> has_lines st = true ->
exists st' unused' path,
  build_path pick st = Ok (st', path) /\
  stitch_inv lines unused' st' /\
  (forall j, unused' j -> unused j) /\
  unused path /\ ~ unused' path /\
  (forall j, j <> path -> lm_heap st' !! j = lm_heap st !! j) /\
  chain lines (heap_get (lm_heap st') path) /\
  (2 <= length (heap_get (lm_heap st') path))%nat /\
  (2 * (length (heap_get (lm_heap st') path) - 1) + registrations (lm_map st') =
   registrations (lm_map st))%nat.
Proof.
intros Hinv Hhas. unfold build_path.
destruct (take_line_inv pick lines Hsegments Htwin unused st Hinv Hhas)
  as (st1 & id & p & q & -> & Hl & Hu & Hheap1 & Hinv1 & Hr1).
cbn [mbind result_bind].
assert (Hget : heap_get (lm_heap st1) id = [p; q]).
{ unfold heap_get. rewrite Hheap1, (proj1 (proj2 Hinv) id Hu), Hl. done. }
rewrite Hget. cbn [last].
assert (Hid : (id < length lines)%nat) by (apply lookup_lt_is_Some; by eexists).
assert (Hchain1 : chain lines (heap_get (lm_heap st1) id))
  by (rewrite Hget; by eapply chain_segment).
destruct (next_point_inv lines Hsegments Htwin _ st1 q Hinv1)
  as [->|(st2 & id2 & other & -> & Hu2 & Hfo & Hheap2 & Hinv2 & Hr2)];
  cbn [mbind result_bind].
- destruct (extend_path_inv lines Hsegments Htwin
              (S (registrations (lm_map st1))) id _ st1 None Hinv1)
    as (st3 & unused3 & -> & Hchain3 & Hinv3 & Hsub & Hframe & Hmono & Hcount);
    [intros [_ ?]; done|done|lia|done|done|].
  cbn [mbind result_bind]. exists st3, unused3, id. split; [done|]. split; [done|].
  split; [intros j Hj; by apply Hsub|]. split; [done|].
  split; [intros Hj; apply Hsub in Hj as [_ ?]; done|].
  split; [intros j Hj; by rewrite (Hframe j Hj), Hheap1|]. split; [done|].
  rewrite Hget in Hcount, Hmono. cbn [length] in Hcount, Hmono. split; lia.
- assert (Hget2 : heap_get (lm_heap st2) id = [p; q])
    by (unfold heap_get; rewrite Hheap2; exact Hget).
  destruct (extend_path_inv lines Hsegments Htwin
              (S (registrations (lm_map st2))) id _ st2 (Some other) Hinv2)
    as (st3 & unused3 & -> & Hchain3 & Hinv3 & Hsub & Hframe & Hmono & Hcount);
    [intros [[_ ?] _]; done|done|lia| | |].
  { rewrite Hget2. by eapply chain_segment. }
  { exists q. by rewrite Hget2. }
  cbn [mbind result_bind]. exists st3, unused3, id. split; [done|]. split; [done|].
  split; [intros j Hj; by apply Hsub|]. split; [done|].
  split; [intros Hj; apply Hsub in Hj as [[_ ?] _]; done|].
  split; [intros j Hj; by rewrite (Hframe j Hj), Hheap2, Hheap1|]. split; [done|].
  rewrite Hget2 in Hcount, Hmono. cbn [length] in Hcount, Hmono. split; lia.
Qed.

Lemma path_lines_loop_inv fuel : forall unused st paths,
stitch_inv lines unused st ->
(registrations (lm_map st) < 2 * fuel)%nat ->
(forall p, p ∈ paths -> ~ unused p) ->
Forall (fun p => 2 <= length (heap_get (lm_heap st) p) /\
                 chain lines (heap_get (lm_heap st) p))%nat paths ->
exists st' paths',
  path_lines_loop pick fuel st paths = Ok (st', paths') /\
  Forall (fun p => 2 <= length (heap_get (lm_heap st') p) /\
                   chain lines (heap_get (lm_heap st') p))%nat paths' /\
  (2 * steps (lm_heap st') paths' =
   2 * steps (lm_heap st) paths + registrations (lm_map st))%nat.
Proof.
induction fuel as [|fuel IH]; intros unused st paths Hinv Hfuel Hpaths Hlen; [lia|].
cbn [path_lines_loop]. destruct (has_lines st) eqn:Hhas.
- destruct (build_path_inv unused st Hinv Hhas)
    as (st1 & unused1 & path & -> & Hinv1 & Hsub & Hu & Hnu & Hframe & Hchain1 & Hlen1 &
        Hcount).
  cbn [mbind result_bind].
  assert (Hnew : forall p, p ∈ paths -> p <> path).
  { intros p Hp ->. by apply (Hpaths path). }
  destruct (IH unused1 st1 (paths ++ [path]) Hinv1) as (st' & paths' & -> & Hlen' & Hsteps).
  + lia.
  + intros p [Hp| ->%list_elem_of_singleton]%elem_of_app; [|done].
    intros Hp1. by apply (Hpaths p Hp), Hsub.
  + apply Forall_app. split; [|by constructor].
    apply Forall_forall. intros p Hp. rewrite Forall_forall in Hlen.
    unfold heap_get. rewrite (Hframe p (Hnew p Hp)). by apply Hlen.
  + exists st', paths'. split; [done|]. split; [done|].
    rewrite Hsteps, steps_app.
    rewrite (steps_frame (lm_heap st) (lm_heap st1) paths)
      by (intros p Hp; apply Hframe, Hnew, Hp).
    lia.
- exists st, paths. split; [done|]. split; [done|].
  unfold has_lines in Hhas. apply bool_decide_eq_false in Hhas.
  assert (Hm : lm_map st = ∅) by (destruct (decide (lm_map st = ∅)); done).
  rewrite Hm. unfold registrations. rewrite map_fold_empty. lia.
Qed.

End Paths.

Lemma registered_register m key id key' j :
  registered (register m key id) key' j <->
  (key' = key /\ j = id) \/ registered m key' j.
Proof.
  unfold registered, register. destruct (decide (key' = key)) as [->|Hne].
  - rewrite lookup_insert_eq. split.
    + intros (b & [= <-] & Hin). apply elem_of_app in Hin as [Hin|Hin].
      * right. destruct (m !! key) as [old|]; simpl in Hin; [by exists old|].
        by apply elem_of_nil in Hin.
      * left. by apply list_elem_of_singleton in Hin.
    + intros [[_ ->]|(b & Hb & Hin)]; eexists; (split; [reflexivity|]).
      * apply elem_of_app. right. apply list_elem_of_here.
      * rewrite Hb. simpl. apply elem_of_app. by left.
  - rewrite lookup_insert_ne by done. naive_solver.
Qed.

Lemma register_buckets m key id :
  (forall k b, m !! k = Some b -> b <> [] /\ NoDup b) ->
  ~ registered m key id ->
  forall k b, register m key id !! k = Some b -> b <> [] /\ NoDup b.
Proof.
  intros Hgood Hfresh k b. unfold register. destruct (decide (k = key)) as [->|Hne].
  - rewrite lookup_insert_eq. intros [= <-]. split; [by destruct (default [] (m !! key))|].
    apply NoDup_app. split; [|split; [|apply NoDup_singleton]].
    + destruct (m !! key) as [old|] eqn:E; simpl; [by apply (Hgood key old)|constructor].
    + intros x Hx ->%list_elem_of_singleton. apply Hfresh.
      destruct (m !! key) as [old|] eqn:E; simpl in Hx; [by exists old|].
      by apply elem_of_nil in Hx.
  - rewrite lookup_insert_ne by done. apply Hgood.
Qed.

Lemma segments_points (lines : list Line) :
  Forall segment_keys_distinct lines -> length (concat lines) = (2 * length lines)%nat.
Proof.
  induction 1 as [|line rest (p & q & -> & _) _ IH]; [done|].
  cbn [concat length app]. rewrite IH. lia.
Qed.

Section Init.

Variable lines : list Line.
Hypothesis Hsegments : Forall segment_keys_distinct lines.

Lemma init_loop_inv rest : forall m id,
drop id lines = rest ->
(forall k b, m !! k = Some b -> b <> [] /\ NoDup b) ->
(forall key j, registered m key j <-> (j < id)%nat /\ endpoint_key lines j key) ->
(forall k b, init_loop m id rest !! k = Some b -> b <> [] /\ NoDup b) /\
(forall key j, registered (init_loop m id rest) key j <->
               (j < length lines)%nat /\ endpoint_key lines j key).
Proof.
induction rest as [|line rest IH]; intros m id Hdrop Hgood Hreg.
- simpl. split; [done|]. intros key j. rewrite Hreg.
  assert (length lines <= id)%nat.
  { apply (f_equal length) in Hdrop. rewrite length_drop in Hdrop. simpl in Hdrop. lia. }
  split; intros [Hj Hep]; (split; [|done]).
  + destruct Hep as (p & q & Hl & _). apply lookup_lt_Some in Hl. done.
  + lia.
- assert (Hl : lines !! id = Some line).
  { rewrite <- (Nat.add_0_r id), <- lookup_drop, Hdrop. done. }
  assert (Hrest : drop (S id) lines = rest).
  { replace (S id) with (id + 1)%nat by lia. rewrite <- drop_drop, Hdrop. done. }
  rewrite Forall_lookup in Hsegments.
  destruct (Hsegments id line Hl) as (p & q & -> & Hne).
  cbn [init_loop register_points].
  assert (Hf1 : ~ registered m (LineMap_key p) id).
  { intros [? _]%Hreg. lia. }
  assert (Hf2 : ~ registered (register m (LineMap_key p) id) (LineMap_key q) id).
  { intros [[? _]|[? _]%Hreg]%registered_register; [congruence|lia]. }
  apply IH; [done| |].
  + apply register_buckets; [|done]. by apply register_buckets.
  + intros key j. rewrite !registered_register, Hreg. split.
    * intros [[-> ->]|[[-> ->]|[Hj Hep]]].
      -- split; [lia|]. exists p, q. auto.
      -- split; [lia|]. exists p, q. auto.
      -- split; [lia|done].
    * intros [Hj Hep]. destruct (decide (j = id)) as [->|Hji].
      -- destruct Hep as (p' & q' & Hl' & Hk). rewrite Hl in Hl'.
         injection Hl' as <- <-. destruct Hk as [->| ->]; auto.
      -- right. right. split; [lia|done].
Qed.

Lemma LineMap_init_inv :
stitch_inv lines (fun id => (id < length lines)%nat) (LineMap_init lines).
Proof.
unfold stitch_inv, LineMap_init. cbn [lm_heap lm_map].
split; [done|]. split; [done|].
apply init_loop_inv; [done| |].
- intros k b Hb. by rewrite lookup_empty in Hb.
- intros key j. split.
  + intros (b & Hb & _). by rewrite lookup_empty in Hb.
  + intros [? _]. lia.
Qed.

End Init.

(** X19. When every segment has endpoints with different keys and no segment
    is given twice, [path_lines] returns, whatever the iteration order of the
    endpoint map, and it uses every segment exactly once: every path has at
    least two points, and the paths have in all as many steps from a point
    to the next as there are segments. *)
Theorem path_lines_uses_each_segment_once (pick : list string -> nat)
    (lines : list Line) :
  Forall segment_keys_distinct lines -> no_twin lines ->
  exists paths,
    path_lines pick lines = Ok paths /\
    Forall (fun path => 2 <= length path)%nat paths /\
    sum_list (map (fun path => length path - 1)%nat paths) = length lines.
Proof.
  intros Hseg Htwin. unfold path_lines.
  destruct (path_lines_loop_inv pick lines Hseg Htwin
              (S (registrations (lm_map (LineMap_init lines))))
              (fun id => (id < length lines)%nat) (LineMap_init lines) [])
    as (st & paths & -> & Hlen & Hsteps).
  - by apply LineMap_init_inv.
  - lia.
  - intros p Hp. by apply elem_of_nil in Hp.
  - constructor.
  - cbn [mbind result_bind]. eexists. split; [reflexivity|]. split.
    + apply Forall_forall. intros path Hpath.
      apply list_elem_of_In, in_map_iff in Hpath as (id & <- & Hid).
      rewrite Forall_forall in Hlen. apply Hlen. by apply list_elem_of_In.
    + rewrite map_map. fold (steps (lm_heap st) paths).
      destruct (init_loop_registrations ∅ 0 lines) as [Hr _].
      unfold steps at 2 in Hsteps. cbn [map sum_list] in Hsteps.
      cbn [LineMap_init lm_map] in Hsteps. rewrite Hr in Hsteps.
      rewrite (segments_points lines Hseg) in Hsteps.
      unfold registrations in Hsteps. rewrite map_fold_empty in Hsteps. lia.
Qed.

(** X21. Under the same conditions every path [path_lines] returns follows
    the input: each of its points, after the first, is an endpoint of an
    input segment whose other endpoint has the key of the point before. *)
Theorem path_lines_follows_segments (pick : list string -> nat) (lines : list Line) :
  Forall segment_keys_distinct lines -> no_twin lines ->
  exists paths, path_lines pick lines = Ok paths /\ Forall (chain lines) paths.
Proof.
  intros Hseg Htwin. unfold path_lines.
  destruct (path_lines_loop_inv pick lines Hseg Htwin
              (S (registrations (lm_map (LineMap_init lines))))
              (fun id => (id < length lines)%nat) (LineMap_init lines) [])
    as (st & paths & -> & Hlen & _).
  - by apply LineMap_init_inv.
  - lia.
  - intros p Hp. by apply elem_of_nil in Hp.
  - constructor.
  - cbn [mbind result_bind]. eexists. split; [reflexivity|].
    apply Forall_forall. intros path Hpath.
    apply list_elem_of_In, in_map_iff in Hpath as (id & <- & Hid).
    rewrite Forall_forall in Hlen. apply Hlen. by apply list_elem_of_In.
Qed.

(** X21 at two joined segments. *)
Lemma path_lines_follows_segments_witness :
  exists paths,
    path_lines (fun _ => 0%nat) joined_segments = Ok paths /\
    Forall (chain joined_segments) paths.
Proof.
  apply (path_lines_follows_segments (fun _ => 0%nat) joined_segments).
  - repeat constructor; eexists _, _; (split; [reflexivity|]); vm_compute; discriminate.
  - intros i j l l' Hij Hi Hj.
    destruct i as [|[|i]]; destruct j as [|[|j]]; simpl in Hi, Hj; try done;
      injection Hi as <-; injection Hj as <-; vm_compute; reflexivity.
Defined.

(** X19 at two joined segments: one path of three points. *)
Lemma path_lines_uses_each_segment_once_witness :
  exists paths,
    path_lines (fun _ => 0%nat) joined_segments = Ok paths /\
    Forall (fun path => 2 <= length path)%nat paths /\
    sum_list (map (fun path => length path - 1)%nat paths) = length joined_segments.
Proof.
  apply (path_lines_uses_each_segment_once (fun _ => 0%nat) joined_segments).
  - repeat constructor; eexists _, _; (split; [reflexivity|]); vm_compute; discriminate.
  - intros i j l l' Hij Hi Hj.
    destruct i as [|[|i]]; destruct j as [|[|j]]; simpl in Hi, Hj; try done;
      injection Hi as <-; injection Hj as <-; vm_compute; reflexivity.
Defined.

(** ** What the writer is told *)

(** X20. In every run of [command_line] that returns, the number of layers
    handed to the writer is the top height of the scaled mesh rounded up,
    whatever the thickness: [minz] is 0 after scaling, so
    [math.ceil(maxz - minz / thickness)] is [ceil(maxz)]; the width and
    height handed over are the ones [scale_to_fit] returned. *)
Theorem writer_layer_count (pick : list string -> nat) (fuel : nat)
    (facets : list Facet) (thickness width height scale : Q)
    (writer : Writer) (returned : list (list Line))
    (w h minz maxz : Q) (scaled : list Facet) :
  scaled_input facets width height scale = Ok (w, h, minz, maxz, scaled) ->
  command_line pick fuel facets thickness width height scale = Ok (writer, returned) ->
  w_layers writer = Qceiling maxz /\ w_width writer = w /\ w_height writer = h.
Proof.
  intros Hs H. unfold command_line in H.
  fold (scaled_input facets width height scale) in H. rewrite Hs in H.
  assert (Hminz : minz = 0).
  { destruct (scaled_input_cases facets width height scale)
      as [(? & ? & ? & ? & E)|E]; rewrite E in Hs; congruence. }
  subst minz. cbn [mbind result_bind] in H.
  destruct (z_sort_facets scaled) as [fs| |]; cbn [mbind result_bind] in H; try done.
  unfold layer_count, pydiv in H.
  destruct (Qeq_bool thickness 0) eqn:Et; cbn [mbind result_bind] in H; [done|].
  destruct (layer_loop _ _ _ _ _ _ _ _ _) as [[written [|paths0 paths_all]]| |];
    cbn [mbind result_bind] in H; try done.
  injection H as <- <-. cbn [w_layers w_width w_height]. split; [|done].
  apply Qceiling_comp. apply Qeq_bool_neq in Et. field. exact Et.
Qed.

(** X20 at the cube run: 10 layers announced for thickness 5. *)
Lemma writer_layer_count_witness :
  exists w h minz maxz scaled writer returned,
    scaled_input cube_facets 10 10 0 = Ok (w, h, minz, maxz, scaled) /\
    command_line (fun _ => 0%nat) 3 cube_facets 5 10 10 0 = Ok (writer, returned) /\
    w_layers writer = Qceiling maxz /\ w_width writer = w /\ w_height writer = h.
Proof.
  assert (E : exists x, scaled_input cube_facets 10 10 0 = Ok x)
    by (vm_compute; eexists; reflexivity).
  destruct E as ([[[[w h] minz] maxz] scaled] & E).
  destruct cube_default_run as (writer & returned & H & _).
  exists w, h, minz, maxz, scaled, writer, returned.
  split; [exact E|]. split; [exact H|].
  exact (writer_layer_count _ _ _ _ _ _ _ _ _ _ _ _ _ _ E H).
Defined.

(** ** The driver on a mesh of triangles *)

(** What holds of the facet list and the height at the start of every pass:
    the list is made of triangles and still has the facet [x], the height is
    not below 0, and from this height on the list has the slices of [fs]. *)
Lemma loop_pass_inv pick maxz t fs x cur z :
  0 <= t ->
  Forall indexed_triangle fs -> x ∈ fs -> maxz <= maxz_of x ->
  loop_pass pick maxz t fs 0 cur z ->
  Forall indexed_triangle cur /\ x ∈ cur /\ 0 <= z /\
  (forall z', z <= z' -> slice_shape_at cur z' = slice_shape_at fs z').
Proof.
  intros Ht Hfs Hx Hmax. induction 1 as [|cur z kept lines paths _ IH Hz Hp _ _].
  - split; [done|]. split; [done|]. split; [lra|done].
  - destruct IH as (Hcur & Hxc & H0 & Hsl).
    destruct (prune_split cur z) as (dropped & kept' & -> & Hd & Hk).
    destruct kept' as [|f kept']; [by rewrite Hk in Hp|]. destruct Hk as [_ Hk].
    rewrite Hk in Hp. injection Hp as <-.
    apply Forall_app in Hcur as [Hcd Hck].
    split; [done|]. split; [|split; [lra|]].
    + apply elem_of_app in Hxc as [Hxd|Hxk]; [|done].
      rewrite Forall_forall in Hd. specialize (Hd x Hxd). lra.
    + intros z' Hz'. rewrite <- (Hsl z') by lra. unfold slice_shape_at.
      symmetry. apply slice_loop_app_below.
      apply Forall_forall. intros g Hg. rewrite Forall_forall in Hd, Hcd.
      split; [auto|]. specialize (Hd g Hg). lra.
Qed.

Lemma indexed_triangle_length (f : IndexedFacet) :
  indexed_triangle f -> (3 <= length f.2)%nat.
Proof.
  destruct f as [[maxz minz] tri]. intros H.
  apply indexed_triangle_bounds in H as [H _]. cbn [snd]. lia.
Qed.

(** In every pass the pruning and the slicing return, and the slice is the
    slice of the whole list. *)
Lemma loop_pass_returns pick maxz t fs x cur z :
  0 <= t ->
  Forall indexed_triangle fs -> x ∈ fs -> maxz <= maxz_of x ->
  loop_pass pick maxz t fs 0 cur z -> z <= maxz ->
  exists kept lines,
    prune cur z = Ok kept /\ slice_shape_at kept z = Ok lines /\
    slice_shape_at fs z = Ok lines /\ 0 <= z.
Proof.
  intros Ht Hfs Hx Hmax Hpass Hz.
  destruct (loop_pass_inv pick maxz t fs x cur z Ht Hfs Hx Hmax Hpass)
    as (Hcur & Hxc & H0 & Hsl).
  destruct (prune_split cur z) as (dropped & kept & -> & Hd & Hk).
  apply Forall_app in Hcur as [Hcd Hck].
  assert (Hxk : x ∈ kept).
  { apply elem_of_app in Hxc as [Hxd|Hxk]; [|done].
    rewrite Forall_forall in Hd. specialize (Hd x Hxd). lra. }
  destruct kept as [|f kept]; [by apply elem_of_nil in Hxk|]. destruct Hk as [_ Hk].
  assert (Hlen : Forall (fun f : IndexedFacet => (3 <= length f.2)%nat) (f :: kept)).
  { eapply Forall_impl; [exact Hck|]. apply indexed_triangle_length. }
  destruct (slice_loop_outcome (f :: kept) z []) as [_ Hs].
  destruct (Hs Hlen) as (lines & Hlines). cbn [app] in Hlines.
  exists (f :: kept), lines. split; [done|]. split; [done|]. split; [|done].
  rewrite <- (Hsl z) by lra. unfold slice_shape_at. rewrite <- Hlines.
  apply slice_loop_app_below.
  apply Forall_forall. intros g Hg. rewrite Forall_forall in Hd, Hcd.
  split; auto.
Qed.

Lemma layer_loop_robust pick fuel maxz t fs x :
  0 <= t ->
  Forall indexed_triangle fs -> x ∈ fs -> maxz <= maxz_of x ->
  forall cur z layer written paths_all,
  loop_pass pick maxz t fs 0 cur z ->
  match layer_loop pick fuel cur z maxz t layer written paths_all with
  | Ok (written', paths') =>
      (length paths_all <= length paths')%nat /\
      (z <= maxz -> (length paths_all < length paths')%nat)
  | Raise e => stitcher_error pick maxz t fs e
  | OutOfFuel => True
  end.
Proof.
  intros Ht Hfs Hx Hmax.
  induction fuel as [|fuel IH]; intros cur z layer written paths_all Hpass;
    cbn [layer_loop].
  - destruct (Qle_bool z maxz) eqn:E; [done|]. apply Qle_bool_false in E.
    split; [done|]. intros ?. lra.
  - destruct (Qle_bool z maxz) eqn:E.
    2:{ apply Qle_bool_false in E. split; [done|]. intros ?. lra. }
    apply Qle_bool_iff in E.
    destruct (loop_pass_returns pick maxz t fs x cur z Ht Hfs Hx Hmax Hpass E)
      as (kept & lines & Hp & Hl & _).
    rewrite Hp. cbn [mbind result_bind]. rewrite Hl. cbn [mbind result_bind].
    destruct (path_lines pick lines) as [paths|e|] eqn:Ep; cbn [mbind result_bind].
    + specialize (IH kept (z + t) (S layer)
                    (written ++ [(z, paths, layer)]) (paths_all ++ [paths])
                    (pass_next pick maxz t fs 0 cur z kept lines paths Hpass E Hp Hl Ep)).
      destruct (layer_loop _ _ _ _ _ _ _ _ _) as [[written' paths']| |]; try done.
      rewrite length_app in IH. simpl in IH. destruct IH as [IH _]. split; [lia|].
      intros _. lia.
    + by exists cur, z, kept, lines.
    + done.
Qed.

Lemma scale_to_fit_explicit facets width height scale minx maxx miny maxy minz maxz :
  bounding_cube facets = (minx, maxx, miny, maxy, minz, maxz) ->
  truthy scale = true ->
  scale_to_fit facets width height scale =
  Ok ((maxx - minx) * scale, (maxy - miny) * scale, 0, (maxz - minz) * scale,
      map (map (scale_point minx miny minz scale)) facets).
Proof.
  intros Hb Ht. unfold scale_to_fit. rewrite Hb, Ht.
  by destruct (if _ || _ then (height, width) else (width, height)) as [w h].
Qed.

(** The highest point of the mesh. *)
Lemma top_point facets minx maxx miny maxy minz maxz :
  bounding_cube facets = (minx, maxx, miny, maxy, minz, maxz) ->
  concat facets <> [] ->
  (forall p, p ∈ concat facets -> -99999 < Z3 p) ->
  exists facet p, facet ∈ facets /\ p ∈ facet /\ Z3 p = maxz.
Proof.
  rewrite bounding_cube_folds. intros [= <- <- <- <- <- <-] Hne Hrange.
  destruct (fold_max_spec Z3 (concat facets) (-99999)) as (_ & Hall & [Hs|(p & Hp & Hatt)]).
  - destruct (concat facets) as [|p0 rest] eqn:E; [done|].
    assert (Hp0 : p0 ∈ p0 :: rest) by apply list_elem_of_here.
    pose proof (Hall p0 Hp0) as H1. pose proof (Hrange p0 Hp0) as H2.
    rewrite Hs in H1. lra.
  - apply list_elem_of_In, in_concat in Hp as (facet & Hf & Hp).
    exists facet, p. split; [by apply list_elem_of_In|].
    split; [by apply list_elem_of_In|done].
Qed.

(** X22. For a mesh of triangles that is not empty, with every Z above
    -99999, an explicit positive scale and a positive thickness, the scaling,
    the sorting and the layer count return; in every pass of the layer loop
    the pruning of the facet list and the slicing return, at a height that
    is not below 0, and the slice is the slice of the whole sorted mesh at
    that height; a run whose loop returns has written a layer, so that
    [del paths_all[0]] does not fail.  So an exception that [command_line]
    raises is raised by [path_lines], in the pass the run has reached, on the
    segments sliced in that pass. *)
Theorem triangle_mesh_errors (pick : list string -> nat) (fuel : nat)
    (facets : list Facet) (thickness width height scale : Q) :
  facets <> [] ->
  Forall (fun f => length f = 3%nat) facets ->
  (forall p, p ∈ concat facets -> -99999 < Z3 p) ->
  0 < scale -> 0 < thickness ->
  exists w h maxz scaled fs layers,
    scaled_input facets width height scale = Ok (w, h, 0, maxz, scaled) /\
    z_sort_facets scaled = Ok fs /\
    layer_count 0 maxz thickness = Ok layers /\
    (forall cur z, loop_pass pick maxz thickness fs 0 cur z -> z <= maxz ->
       exists kept lines,
         prune cur z = Ok kept /\ slice_shape_at kept z = Ok lines /\
         slice_shape_at fs z = Ok lines /\ 0 <= z) /\
    (forall written paths_all,
       layer_loop pick fuel fs 0 maxz thickness 1 [] [] = Ok (written, paths_all) ->
       paths_all <> []) /\
    (forall e, command_line pick fuel facets thickness width height scale = Raise e ->
       stitcher_error pick maxz thickness fs e).
Proof.
  intros Hne Htri Hrange Hscale Ht.
  assert (Htr : truthy scale = true) by (apply truthy_true; lra).
  destruct (bounding_cube facets) as [[[[[minx maxx] miny] maxy] minz] maxz] eqn:Hb.
  set (sp := scale_point minx miny minz scale).
  assert (Hs : scaled_input facets width height scale =
               Ok ((maxx - minx) * scale, (maxy - miny) * scale, 0,
                   (maxz - minz) * scale, map (map sp) facets)).
  { unfold scaled_input. rewrite Htr.
    apply (scale_to_fit_explicit _ _ _ _ _ _ _ _ _ _ Hb Htr). }
  assert (Hlen3 : Forall (fun f => (3 <= length f)%nat) (map (map sp) facets)).
  { apply (scaled_lengths sp facets (fun n => (3 <= n)%nat)).
    eapply Forall_impl; [exact Htri|]. intros f Hf. simpl in Hf. lia. }
  destruct (index_facets_ok _ Hlen3) as (xs & Hxs & Hsnd & Hbounded).
  assert (Hsort : z_sort_facets (map (map sp) facets) = Ok (sorted xs)).
  { unfold z_sort_facets. by rewrite Hxs. }
  assert (Hcount : layer_count 0 ((maxz - minz) * scale) thickness =
                   Ok (Qceiling ((maxz - minz) * scale - 0 / thickness))).
  { unfold layer_count. rewrite pydiv_ok by lra. done. }
  exists ((maxx - minx) * scale), ((maxy - miny) * scale), ((maxz - minz) * scale),
    (map (map sp) facets), (sorted xs), (Qceiling ((maxz - minz) * scale - 0 / thickness)).
  split; [exact Hs|]. split; [exact Hsort|]. split; [exact Hcount|].
  assert (Hpts : concat facets <> []).
  { destruct facets as [|f facets]; [done|]. apply Forall_inv in Htri.
    destruct f; [done|]. done. }
  destruct (top_point _ _ _ _ _ _ _ Hb Hpts Hrange) as (facet & p & Hfacet & Hp & Hz).
  assert (Hx : exists x, x ∈ xs /\ x.2 = map sp facet).
  { assert (Hin : map sp facet ∈ map snd xs).
    { rewrite Hsnd. apply list_elem_of_In, in_map, list_elem_of_In, Hfacet. }
    apply list_elem_of_In, in_map_iff in Hin as (x & Hx2 & Hx).
    exists x. split; [by apply list_elem_of_In|done]. }
  destruct Hx as (x & Hx & Hx2).
  assert (Hmax : (maxz - minz) * scale <= maxz_of x).
  { rewrite Forall_forall in Hbounded. specialize (Hbounded x Hx (sp p)).
    rewrite Hx2 in Hbounded.
    assert (Hl : length facet = 3%nat)
      by (rewrite Forall_forall in Htri; by apply Htri).
    rewrite firstn_all2 in Hbounded by (rewrite length_map; lia).
    destruct Hbounded as [_ Hb2].
    { apply list_elem_of_In, in_map, list_elem_of_In, Hp. }
    unfold maxz_of. unfold sp, scale_point in Hb2. cbn [Z3 snd] in Hb2.
    rewrite <- Hz. exact Hb2. }
  assert (Hxs' : x ∈ sorted xs) by (by rewrite sorted_perm).
  assert (Hidx : Forall indexed_triangle (sorted xs)).
  { eapply (z_sort_facets_sorted (map (map sp) facets)); [|exact Hsort].
    by apply (scaled_lengths sp facets (fun n => n = 3%nat)). }
  assert (H0 : 0 <= (maxz - minz) * scale).
  { destruct (bounding_cube_points _ _ _ _ _ _ _ p Hb) as (_ & _ & [Hlo _]).
    { apply list_elem_of_In, in_concat. exists facet.
      split; by apply list_elem_of_In. }
    rewrite Hz in Hlo. nra. }
  pose proof (layer_loop_robust pick fuel ((maxz - minz) * scale) thickness (sorted xs) x
                ltac:(lra) Hidx Hxs' Hmax (sorted xs) 0 1%nat [] []
                (pass_first pick _ thickness (sorted xs) 0)) as Hrun.
  split; [|split].
  - intros cur z Hpass Hle.
    exact (loop_pass_returns pick _ thickness (sorted xs) x cur z
             ltac:(lra) Hidx Hxs' Hmax Hpass Hle).
  - intros written paths_all El. rewrite El in Hrun. destruct Hrun as [_ Hrun].
    specialize (Hrun H0). intros ->. simpl in Hrun. lia.
  - intros e H. unfold command_line in H.
    fold (scaled_input facets width height scale) in H. rewrite Hs in H.
    cbn [mbind result_bind] in H. rewrite Hsort in H. cbn [mbind result_bind] in H.
    rewrite Hcount in H. cbn [mbind result_bind] in H.
    destruct (layer_loop _ _ _ _ _ _ _ _ _) as [[written paths]|e'|];
      cbn [mbind result_bind] in H; [|by injection H as <-|done].
    destruct Hrun as [_ Hrun]. destruct paths as [|paths0 paths]; [|done].
    specialize (Hrun H0). simpl in Hrun. lia.
Qed.

(** X22 at a mesh with a triangle given twice, for an iteration order that
    makes the stitcher fail in the first pass. *)
Lemma triangle_mesh_errors_witness :
  exists w h maxz scaled fs,
    scaled_input twin_mesh 0 0 1 = Ok (w, h, 0, maxz, scaled) /\
    z_sort_facets scaled = Ok fs /\
    command_line (fun _ => 2%nat) 1 twin_mesh 1 0 0 1 = Raise ValueError_remove /\
    stitcher_error (fun _ => 2%nat) maxz 1 fs ValueError_remove.
Proof.
  assert (H : command_line (fun _ => 2%nat) 1 twin_mesh 1 0 0 1 = Raise ValueError_remove)
    by (vm_compute; reflexivity).
  destruct (triangle_mesh_errors (fun _ => 2%nat) 1 twin_mesh 1 0 0 1)
    as (w & h & maxz & scaled & fs & layers & Hs & Hsort & _ & _ & _ & He).
  - discriminate.
  - repeat constructor.
  - intros p Hp. apply list_elem_of_In in Hp. cbn [twin_mesh concat app In] in Hp.
    repeat (destruct Hp as [<-|Hp]; [reflexivity|]). destruct Hp.
  - reflexivity.
  - reflexivity.
  - exists w, h, maxz, scaled, fs. split; [exact Hs|]. split; [exact Hsort|].
    split; [exact H|exact (He _ H)].
Defined.

(** ** The layers and the whole mesh *)

Lemma layer_loop_full_slices pick fuel all : forall cur z maxz t layer written paths_all
    written' paths',
  0 <= t ->
  Forall indexed_triangle cur ->
  (forall z', z <= z' -> slice_shape_at cur z' = slice_shape_at all z') ->
  layer_loop pick fuel cur z maxz t layer written paths_all = Ok (written', paths') ->
  exists new, written' = written ++ new /\ Forall (layer_of pick all) new.
Proof.
  induction fuel as [|fuel IH];
    intros cur z maxz t layer written paths_all written' paths' Ht Hidx Hcur H;
    cbn [layer_loop] in H.
  - destruct (Qle_bool z maxz); [done|]. injection H as <- <-.
    exists []. by rewrite app_nil_r.
  - destruct (Qle_bool z maxz).
    2:{ injection H as <- <-. exists []. by rewrite app_nil_r. }
    destruct (prune_split cur z) as (dropped & kept & -> & Hd & Hk).
    destruct kept as [|f kept]; [by rewrite Hk in H|]. destruct Hk as [_ Hk].
    rewrite Hk in H. cbn [mbind result_bind] in H.
    apply Forall_app in Hidx as [Hidx_d Hidx_k].
    assert (Hkept : forall z', z <= z' ->
              slice_shape_at (f :: kept) z' = slice_shape_at all z').
    { intros z' Hz'. rewrite <- (Hcur z' Hz'). unfold slice_shape_at.
      symmetry. apply slice_loop_app_below.
      apply Forall_forall. intros g Hg. rewrite Forall_forall in Hd, Hidx_d.
      split; [auto|]. specialize (Hd g Hg). lra. }
    destruct (slice_shape_at (f :: kept) z) as [lines| |] eqn:Hl;
      cbn [mbind result_bind] in H; try done.
    destruct (path_lines pick lines) as [paths| |] eqn:Hp;
      cbn [mbind result_bind] in H; try done.
    apply IH in H as (new & -> & Hnew); [|done|done|].
    + exists ((z, paths, layer) :: new). rewrite <- app_assoc. split; [done|].
      constructor; [|done]. exists lines. split; [|done].
      cbn [fst]. rewrite <- Hl. symmetry. apply Hkept. lra.
    + intros z' Hz'. apply Hkept. lra.
Qed.

(** X23. In a run of [command_line] on a mesh of triangles, with a positive
    thickness, dropping the facets below the plane as the layers go up loses
    nothing: the paths written for every layer are the ones [path_lines]
    makes of the slice of the whole sorted mesh at the layer's height. *)
Theorem layers_are_full_slices (pick : list string -> nat) (fuel : nat)
    (facets : list Facet) (thickness width height scale : Q)
    (writer : Writer) (returned : list (list Line)) :
  Forall (fun f => length f = 3%nat) facets ->
  0 < thickness ->
  command_line pick fuel facets thickness width height scale = Ok (writer, returned) ->
  exists w h minz maxz scaled fs,
    scaled_input facets width height scale = Ok (w, h, minz, maxz, scaled) /\
    z_sort_facets scaled = Ok fs /\
    Forall (layer_of pick fs) (w_written writer).
Proof.
  intros Htri Ht H. unfold command_line in H.
  fold (scaled_input facets width height scale) in H.
  destruct (scaled_input_cases facets width height scale)
    as [(w & h & maxz & f & Hs)|Hs]; rewrite Hs in H; [|done].
  cbn [mbind result_bind] in H.
  destruct (z_sort_facets (map (map f) facets)) as [fs| |] eqn:Hfs;
    cbn [mbind result_bind] in H; try done.
  destruct (layer_count 0 maxz thickness) as [layers| |];
    cbn [mbind result_bind] in H; try done.
  destruct (layer_loop _ _ _ _ _ _ _ _ _) as [[written [|paths0 paths_all]]| |] eqn:El;
    cbn [mbind result_bind] in H; try done.
  injection H as <- <-. cbn [w_written].
  exists w, h, 0, maxz, (map (map f) facets), fs. split; [done|]. split; [done|].
  assert (Hidx : Forall indexed_triangle fs).
  { eapply (z_sort_facets_sorted (map (map f) facets)); [|exact Hfs].
    by apply (scaled_lengths f facets (fun n => n = 3%nat)). }
  apply (layer_loop_full_slices pick fuel fs) in El as (new & -> & Hnew);
    [done|lra|done|done].
Qed.

(** X23 at the cube run. *)
Lemma layers_are_full_slices_witness :
  exists writer returned w h minz maxz scaled fs,
    command_line (fun _ => 0%nat) 3 cube_facets 5 10 10 0 = Ok (writer, returned) /\
    scaled_input cube_facets 10 10 0 = Ok (w, h, minz, maxz, scaled) /\
    z_sort_facets scaled = Ok fs /\
    Forall (layer_of (fun _ => 0%nat) fs) (w_written writer).
Proof.
  destruct cube_default_run as (writer & returned & H & _).
  destruct (layers_are_full_slices (fun _ => 0%nat) 3 cube_facets 5 10 10 0 writer returned)
    as (w & h & minz & maxz & scaled & fs & H1 & H2 & H3);
    [repeat constructor|reflexivity|exact H|].
  exists writer, returned, w, h, minz, maxz, scaled, fs.
  split; [exact H|]. split; [exact H1|]. split; [exact H2|exact H3].
Defined.
